(** * Client attribution: IP extraction, address normalisation, geolocation,
      device classification and IP blocklisting

    A shallow embedding of [src/lib/ip.ts] ([getIpAddress], [stripPort]),
    [src/lib/detect.ts] ([getDevice], [getRegionCode], [getLocation],
    [getClientInfo], [hasBlockedIp]) and of the requests made by the script
    that downloads the geolocation database, followed by the properties
    established about them.

    Conventions.
    - A JavaScript string is a [string]: a sequence of code units.  HTTP header
      values are byte strings, so one [ascii] per code unit is exact for them;
      every string operation used by the code ([startsWith], [indexOf],
      [slice], [split], [trim], [includes]) works unit by unit.
    - Indices are [Z], with [-1] for "not found", as in the source.
    - [undefined] / [null] / string values are kept apart ([nullable]).
    - [process.env] is a record of optional strings ([Env]). *)

From Stdlib Require Import ZArith QArith Ascii String Lia.
From stdpp Require Import base option list strings pretty gmap.

Local Open Scope Z_scope.

(** ** JavaScript string primitives *)

Module JS.

(** [!s] is false exactly for non-empty strings. *)
Definition nonempty (s : string) : bool :=
  match s with EmptyString => false | String _ _ => true end.

(** Position of the first occurrence of [c]. *)
Fixpoint find_first (c : ascii) (s : string) : option nat :=
  match s with
  | EmptyString => None
  | String a s' =>
      if Ascii.eqb a c then Some O
      else match find_first c s' with
           | Some i => Some (S i)
           | None => None
           end
  end.

(** Position of the last occurrence of [c]. *)
Fixpoint find_last (c : ascii) (s : string) : option nat :=
  match s with
  | EmptyString => None
  | String a s' =>
      match find_last c s' with
      | Some i => Some (S i)
      | None => if Ascii.eqb a c then Some O else None
      end
  end.

Definition index_or_minus1 (o : option nat) : Z :=
  match o with Some i => Z.of_nat i | None => -1 end.

(** [s.indexOf(c)] and [s.lastIndexOf(c)] for a one-character needle. *)
Definition indexOf (s : string) (c : ascii) : Z :=
  index_or_minus1 (find_first c s).

Definition lastIndexOf (s : string) (c : ascii) : Z :=
  index_or_minus1 (find_last c s).

(** [s.includes(c)] for a one-character needle. *)
Definition includes (s : string) (c : ascii) : bool :=
  match find_first c s with Some _ => true | None => false end.

(** [s.startsWith(p)]. *)
Fixpoint startsWith (s p : string) {struct p} : bool :=
  match p, s with
  | EmptyString, _ => true
  | String _ _, EmptyString => false
  | String b p', String a s' => Ascii.eqb a b && startsWith s' p'
  end.

(** [s.includes(p)] for a needle of any length. *)
Fixpoint includesStr (s p : string) : bool :=
  startsWith s p
  || match s with
     | EmptyString => false
     | String _ s' => includesStr s' p
     end.

(** Relative index resolution of [slice]: negative indices count from the
    end, and everything is clamped to [0 .. len]. *)
Definition clamp (len i : Z) : Z :=
  if i <? 0 then Z.max (len + i) 0 else Z.min i len.

(** [s.slice(from, to)]. *)
Definition slice (s : string) (from to : Z) : string :=
  let len := Z.of_nat (String.length s) in
  let k := clamp len from in
  let final := clamp len to in
  String.substring (Z.to_nat k) (Z.to_nat (final - k)) s.

(** [s.split(c)] for a one-character separator: never the empty list. *)
Fixpoint split (c : ascii) (s : string) : list string :=
  match s with
  | EmptyString => [EmptyString]
  | String a s' =>
      if Ascii.eqb a c then EmptyString :: split c s'
      else match split c s' with
           | piece :: rest => String a piece :: rest
           | [] => [String a EmptyString]
           end
  end.

(** White space and line terminators among the code units below 256. *)
Definition isWhiteSpace (c : ascii) : bool :=
  match c with
  | "009" | "010" | "011" | "012" | "013" | " " | "160" => true
  | _ => false
  end%char.

Fixpoint trimStart (s : string) : string :=
  match s with
  | EmptyString => EmptyString
  | String a s' => if isWhiteSpace a then trimStart s' else s
  end.

Fixpoint trimEnd (s : string) : string :=
  match s with
  | EmptyString => EmptyString
  | String a s' =>
      match trimEnd s' with
      | EmptyString => if isWhiteSpace a then EmptyString else String a EmptyString
      | t => String a t
      end
  end.

(** [s.trim()]. *)
Definition trim (s : string) : string := trimEnd (trimStart s).

(** Every code unit of [s] satisfies [p]. *)
Fixpoint all_chars (p : ascii -> bool) (s : string) : bool :=
  match s with
  | EmptyString => true
  | String a s' => p a && all_chars p s'
  end.

Definition between (lo hi c : ascii) : bool :=
  (N.leb (N_of_ascii lo) (N_of_ascii c)) && (N.leb (N_of_ascii c) (N_of_ascii hi)).

Definition isDigit (c : ascii) : bool := between "0" "9" c.
Definition isLower (c : ascii) : bool := between "a" "z" c.
Definition isUpper (c : ascii) : bool := between "A" "Z" c.

End JS.

(** ** [src/lib/ip.ts]: address normalisation *)

(** The character class [[a-zA-Z0-9.-]]. *)
Definition hostname_char (c : ascii) : bool :=
  JS.isLower c || JS.isUpper c || JS.isDigit c
  || Ascii.eqb c "."%char || Ascii.eqb c "-"%char.

(** [/^[a-zA-Z0-9.-]+$/.test(s)]. *)
Definition hostname_like (s : string) : bool :=
  JS.nonempty s && JS.all_chars hostname_char s.

(** The second half of [stripPort]: cut at the last colon when the string has
    a dot or when what precedes the colon looks like a host name. *)
Definition stripLastColon (ip : string) : string :=
  let idx := JS.lastIndexOf ip ":"%char in
  if negb (idx =? -1) then
    if JS.includes ip "."%char || hostname_like (JS.slice ip 0 idx)
    then JS.slice ip 0 idx
    else ip
  else ip.

Definition stripPort (ip : string) : string :=
  if JS.startsWith ip "[" then
    let endBracket := JS.indexOf ip "]"%char in
    if negb (endBracket =? -1) then JS.slice ip 0 (endBracket + 1)
    else stripLastColon ip
  else stripLastColon ip.

(** ** Values, configuration and effects *)

(** A value that may be [undefined], [null] or a string. *)
Inductive nullable : Type :=
| undefined
| null
| str (s : string).

(** [ToBoolean] on such a value: only non-empty strings are truthy. *)
Definition truthy (v : nullable) : bool :=
  match v with str s => JS.nonempty s | _ => false end.

(** Interpolation of a value in a template literal. *)
Definition render (v : nullable) : string :=
  match v with undefined => "undefined" | null => "null" | str s => s end.

(** [headers.get] answers a string or [null]. *)
Definition of_header (o : option string) : nullable :=
  match o with Some s => str s | None => null end.

(** The configuration read from [process.env]; [None] is an unset variable. *)
Record Env : Type := {
  CLIENT_IP_HEADER : option string;
  DEBUG_GEO : option string;
  SKIP_LOCATION_HEADERS : option string;
  GEOLITE_DB_PATH : option string;
  IGNORE_IP : option string
}.

(** Truthiness of a configuration variable: set and not empty. *)
Definition is_set (o : option string) : bool :=
  match o with Some s => JS.nonempty s | None => false end.

(** Request headers: names are stored in lower case and looked up without
    regard to case.  (The Fetch API rejects a lookup by a name that is not an
    HTTP token; configured names are taken to be tokens.) *)
Abbreviation Headers := (gmap string string).

Definition toLowerChar (c : ascii) : ascii :=
  if JS.isUpper c then ascii_of_N (N_of_ascii c + 32) else c.

Fixpoint toLowerCase (s : string) : string :=
  match s with
  | EmptyString => EmptyString
  | String a s' => String (toLowerChar a) (toLowerCase s')
  end.

(** One record of the geolocation database, with the optional chains of the
    source flattened: [country_iso] is [result.country?.iso_code], and so on. *)
Record CityResponse : Type := {
  country_iso : option string;
  registered_country_iso : option string;
  subdivisions_iso : list (option string);
  city_en : option string
}.

(** An open database: [reader.get(ip)] answers a record or [null]. *)
Record Reader : Type := { reader_get : string -> option CityResponse }.

(** What a call does to the outside world, in order. *)
Inductive Event : Type :=
| EvIsLocalhost (ip : string)
| EvHeaderGet (name : string)
| EvFsAccess (path : string)
| EvMaxmindOpen (path : string)
| EvLookup (ip : string)
| EvLog (msg : string)
| EvError (msg : string).

(** The outcome of a computation: its value, the database handle kept in
    [globalThis[MAXMIND]] afterwards, and the events it produced. *)
Record Out (A : Type) : Type := mkOut {
  value : A;
  handle : option Reader;
  events : list Event
}.
Arguments mkOut {A} _ _ _.
Arguments value {A} _.
Arguments handle {A} _.
Arguments events {A} _.

(** Computations thread the database handle and accumulate events. *)
Definition M (A : Type) : Type := option Reader -> Out A.

Definition run {A} (m : M A) (h : option Reader) : Out A := m h.

Global Instance M_ret : MRet M := fun A a h => mkOut a h [].

Global Instance M_bind : MBind M := fun A B f m h =>
  let o := m h in
  let o' := f (value o) (handle o) in
  mkOut (value o') (handle o') (events o ++ events o').

Definition emit (e : Event) : M unit := fun h => mkOut tt h [e].

Definition getHandle : M (option Reader) := fun h => mkOut h h [].

Definition setHandle (r : Reader) : M unit := fun _ => mkOut tt (Some r) [].

Definition when (b : bool) (m : M unit) : M unit :=
  if b then m else mret tt.

(** [console.log] guarded by [process.env.DEBUG_GEO]. *)
Definition debug (env : Env) (msg : string) : M unit :=
  when (is_set (DEBUG_GEO env)) (emit (EvLog msg)).

Definition headers_get (headers : Headers) (name : string) : M (option string) :=
  emit (EvHeaderGet name) ;; mret (headers !! toLowerCase name).

(** ** [src/lib/ip.ts]: client IP extraction *)

Definition IP_ADDRESS_HEADERS : list string :=
  [ "true-client-ip"; "cf-connecting-ip"; "fastly-client-ip";
    "x-nf-client-connection-ip"; "do-connecting-ip"; "x-forwarded-for";
    "x-appengine-user-ip"; "x-real-ip"; "forwarded"; "x-client-ip";
    "x-cluster-client-ip"; "x-forwarded"; "x-original-forwarded-for" ].

(** [value.split(',')?.[0]?.trim()]. *)
Definition firstForwarded (v : string) : string :=
  JS.trim (hd EmptyString (JS.split ","%char v)).

(** The character class [[0-9a-fA-F:.]]. *)
Definition for_char (c : ascii) : bool :=
  JS.isDigit c || JS.between "a" "f" c || JS.between "A" "F" c
  || Ascii.eqb c ":"%char || Ascii.eqb c "."%char.

(** Longest prefix of [s] made of characters satisfying [p], and the rest. *)
Fixpoint span (p : ascii -> bool) (s : string) : string * string :=
  match s with
  | EmptyString => (EmptyString, EmptyString)
  | String a s' =>
      if p a then let '(t, r) := span p s' in (String a t, r)
      else (EmptyString, s)
  end.

(** The group [(\[?[0-9a-fA-F:.]+\]?)] matched at the start of [s].  The
    bracket is taken when present; the class run is maximal and must not be
    empty; neither bracket belongs to the class, so no shorter match exists. *)
Definition forGroup (s : string) : option string :=
  let '(lb, s1) :=
    match s with
    | String "["%char r => ("[", r)
    | _ => (EmptyString, s)
    end in
  let '(digits, s2) := span for_char s1 in
  if JS.nonempty digits then
    Some (lb +:+ digits +:+ (if JS.startsWith s2 "]" then "]" else EmptyString))
  else None.

(** [value.match(/for=(\[?[0-9a-fA-F:.]+\]?)/)]: the group of the leftmost
    match, if any. *)
Fixpoint forwardedFor (s : string) : option string :=
  match s with
  | EmptyString => None
  | String _ s' =>
      if JS.startsWith s "for=" then
        match forGroup (JS.slice s 4 (Z.of_nat (String.length s))) with
        | Some g => Some g
        | None => forwardedFor s'
        end
      else forwardedFor s'
  end.

Definition PRIVATE_PREFIXES : list string :=
  [ "10."; "172.16."; "172.17."; "172.18."; "172.19."; "172.20."; "172.21.";
    "172.22."; "172.23."; "172.24."; "172.25."; "172.26."; "172.27.";
    "172.28."; "172.29."; "172.30."; "172.31."; "192.168."; "127." ].

Definition isPrivate (extractedIp : string) : bool :=
  existsb (JS.startsWith extractedIp) PRIVATE_PREFIXES
  || String.eqb extractedIp "::1"
  || JS.startsWith extractedIp "169.254.".

(** Structured extraction in the precedence loop. *)
Definition extractIp (name v : string) : string :=
  let e := if String.eqb name "x-forwarded-for" then firstForwarded v else v in
  if String.eqb name "forwarded" then
    match forwardedFor v with Some g => g | None => e end
  else e.

(** Structured extraction for the override header. *)
Definition extractCustom (customHeader ip : string) : string :=
  if String.eqb customHeader "x-forwarded-for" && JS.nonempty ip then
    let first := firstForwarded ip in
    if JS.nonempty first then first else ip
  else if String.eqb customHeader "forwarded" && JS.nonempty ip then
    match forwardedFor ip with Some g => g | None => ip end
  else ip.

(** [availableHeaders.join(', ')]. *)
Fixpoint join (sep : string) (l : list string) : string :=
  match l with
  | [] => EmptyString
  | [x] => x
  | x :: rest => x +:+ sep +:+ join sep rest
  end.

(** The [forEach] of the diagnostic listing. *)
Fixpoint availableHeaders (headers : Headers) (names : list string)
  : M (list string) :=
  match names with
  | [] => mret []
  | name :: rest =>
      v ← headers_get headers name;
      more ← availableHeaders headers rest;
      mret (match v with
            | Some s => if JS.nonempty s then (name +:+ "=" +:+ s) :: more else more
            | None => more
            end)
  end.

(** The precedence loop: the header selected and the address taken from it. *)
Fixpoint scanHeaders (env : Env) (headers : Headers) (names : list string)
  : M (option (string * string)) :=
  match names with
  | [] => mret None
  | name :: rest =>
      v ← headers_get headers name;
      match v with
      | None => scanHeaders env headers rest
      | Some s =>
          if negb (JS.nonempty s) then scanHeaders env headers rest
          else
            let extractedIp := extractIp name s in
            if negb (JS.nonempty extractedIp) then scanHeaders env headers rest
            else if isPrivate extractedIp then
              debug env ("[IP] Skipping private IP from " +:+ name +:+ ": " +:+ extractedIp) ;;
              scanHeaders env headers rest
            else mret (Some (name, extractedIp))
      end
  end.

Definition getIpAddress (env : Env) (headers : Headers) : M (option string) :=
  let customHeader := default EmptyString (CLIENT_IP_HEADER env) in
  present ← (if JS.nonempty customHeader
             then v ← headers_get headers customHeader;
                  mret (truthy (of_header v))
             else mret false);
  if (present : bool) then
    v ← headers_get headers customHeader;
    let ip := extractCustom customHeader <$> v in
    debug env ("[IP] Using custom header " +:+ customHeader +:+ ": "
               +:+ render (of_header ip)) ;;
    mret ip
  else
    when (is_set (DEBUG_GEO env))
      (available ← availableHeaders headers IP_ADDRESS_HEADERS;
       let listing := join ", " available in
       emit (EvLog ("[IP] Available IP headers: "
                    +:+ (if JS.nonempty listing then listing else "none")))) ;;
    selected ← scanHeaders env headers IP_ADDRESS_HEADERS;
    debug env (match selected with
               | Some (selectedHeader, selectedIp) =>
                   "[IP] Using header " +:+ selectedHeader +:+ ": " +:+ selectedIp
               | None => "[IP] No valid public IP address found in any header"
               end) ;;
    mret (snd <$> selected).

(** ** Numbers: the unary plus of [getDevice] *)

(** A Number, kept as the exact mathematical value of the literal it comes
    from; rounding to a double is accounted for where numbers are compared. *)
Inductive JSNumber : Type :=
| NaN
| Infinity (negative : bool)
| Finite (q : Q).

Module Num.

Definition digitValue (c : ascii) : Z :=
  Z.of_N (N_of_ascii c) - 48.

(** Value of a digit of a hexadecimal, octal or binary literal. *)
Definition hexValue (c : ascii) : option Z :=
  if JS.isDigit c then Some (digitValue c)
  else if JS.between "a" "f" c then Some (Z.of_N (N_of_ascii c) - 87)
  else if JS.between "A" "F" c then Some (Z.of_N (N_of_ascii c) - 55)
  else None.

(** Value of a non-empty string of digits in base [base], read from the
    left with accumulator [acc]; [None] on any other character. *)
Fixpoint digitsFrom (base acc : Z) (s : string) : option Z :=
  match s with
  | EmptyString => Some acc
  | String a s' =>
      match hexValue a with
      | Some d => if d <? base then digitsFrom base (acc * base + d) s' else None
      | None => None
      end
  end.

Definition digits (base : Z) (s : string) : option Z :=
  if JS.nonempty s then digitsFrom base 0 s else None.

(** [m * 10^e] as a rational. *)
Definition scale10 (m e : Z) : Q :=
  if 0 <=? e then inject_Z (m * 10 ^ e)
  else Qmake m (Z.to_pos (10 ^ (- e))).

(** [ExponentPart], optional: the exponent, or [None] when what follows the
    mantissa is neither empty nor a well-formed exponent. *)
Definition exponent (s : string) : option Z :=
  match s with
  | EmptyString => Some 0
  | String c r =>
      if Ascii.eqb c "e"%char || Ascii.eqb c "E"%char then
        match r with
        | String "+"%char d => digits 10 d
        | String "-"%char d => Z.opp <$> digits 10 d
        | _ => digits 10 r
        end
      else None
  end.

(** [StrUnsignedDecimalLiteral] without the [Infinity] case: digits with an
    optional fraction and exponent, or a fraction with an optional
    exponent. *)
Definition unsignedDecimal (s : string) : option Q :=
  let '(int, r1) := span JS.isDigit s in
  let '(frac, r2) :=
    match r1 with
    | String "."%char r => span JS.isDigit r
    | _ => (EmptyString, r1)
    end in
  if JS.nonempty int || JS.nonempty frac then
    match digitsFrom 10 0 (int +:+ frac), exponent r2 with
    | Some m, Some e => Some (scale10 m (e - Z.of_nat (String.length frac)))
    | _, _ => None
    end
  else None.

Definition strDecimalLiteral (negative : bool) (s : string) : JSNumber :=
  if String.eqb s "Infinity" then Infinity negative
  else match unsignedDecimal s with
       | Some q => Finite (if negative then Qopp q else q)
       | None => NaN
       end.

Definition nonDecimal (base : Z) (s : string) : JSNumber :=
  match digits base s with Some v => Finite (inject_Z v) | None => NaN end.

(** [StringToNumber]: the conversion applied by unary plus to a string. *)
Definition StringToNumber (s : string) : JSNumber :=
  match JS.trim s with
  | EmptyString => Finite 0
  | String "0"%char (String "x"%char r) | String "0"%char (String "X"%char r) =>
      nonDecimal 16 r
  | String "0"%char (String "o"%char r) | String "0"%char (String "O"%char r) =>
      nonDecimal 8 r
  | String "0"%char (String "b"%char r) | String "0"%char (String "B"%char r) =>
      nonDecimal 2 r
  | String "+"%char r => strDecimalLiteral false r
  | String "-"%char r => strDecimalLiteral true r
  | t => strDecimalLiteral false t
  end.

(** [x <= 1920] for the double nearest to the mathematical value held in
    [x].  1920 is a double, the next double is [1920 + 2^-42], and the
    midpoint between them rounds to the even significand, that of 1920:
    the nearest double is at most 1920 exactly up to [1920 + 2^-43]. *)
Definition le1920 (x : JSNumber) : bool :=
  match x with
  | NaN => false
  | Infinity negative => negative
  | Finite q => Qle_bool q (1920 + (1 # 2 ^ 43))
  end.

End Num.

(** ** [src/lib/detect.ts]: device classification *)

(** The user-agent parser, an external collaborator: [device_type ua] is
    [UAParser(ua).device?.type]. *)
Class UserAgentParser : Type := { device_type : string -> nullable }.

(** [device?.type || 'desktop']. *)
Definition parsedType `{UserAgentParser} (userAgent : string) : string :=
  match device_type userAgent with
  | str s => if JS.nonempty s then s else "desktop"
  | _ => "desktop"
  end.

(** [const [width] = screen.split('x')]. *)
Definition screenWidth (screen : string) : string :=
  hd EmptyString (JS.split "x"%char screen).

Definition getDevice `{UserAgentParser} (userAgent screen : string) : string :=
  let width := screenWidth screen in
  let type := parsedType userAgent in
  if String.eqb type "desktop" && JS.nonempty screen
     && Num.le1920 (Num.StringToNumber width)
  then "laptop"
  else type.

(** ** [src/lib/detect.ts]: geolocation *)

Definition getRegionCode (country region : nullable) : nullable :=
  match country, region with
  | str c, str r =>
      if negb (JS.nonempty c) || negb (JS.nonempty r) then undefined
      else if JS.includes r "-"%char then str r
      else str (c +:+ "-" +:+ r)
  | _, _ => undefined
  end.

(** The host platform, as far as [getLocation] uses it.  [maxmindOpen]
    answers [None] when opening raises; [defaultDbPath] is
    [path.resolve(path.join(process.cwd(), 'geo'), 'GeoLite2-City.mmdb')];
    [latin1ToUtf8 s] is [Buffer.from(s, 'latin1').toString('utf-8')]. *)
Class Platform : Type := {
  isLocalhost : string -> bool;
  latin1ToUtf8 : string -> string;
  defaultDbPath : string;
  fsAccess : string -> bool;
  maxmindOpen : string -> option Reader
}.

Definition decodeHeader `{Platform} (s : nullable) : nullable :=
  match s with
  | str v => str (latin1ToUtf8 v)
  | _ => s
  end.

Record Provider : Type := {
  countryHeader : string;
  regionHeader : string;
  cityHeader : string
}.

Definition PROVIDER_HEADERS : list Provider :=
  [ {| countryHeader := "cf-ipcountry";
       regionHeader := "cf-region-code";
       cityHeader := "cf-ipcity" |};
    {| countryHeader := "x-vercel-ip-country";
       regionHeader := "x-vercel-ip-country-region";
       cityHeader := "x-vercel-ip-city" |};
    {| countryHeader := "cloudfront-viewer-country";
       regionHeader := "cloudfront-viewer-country-region";
       cityHeader := "cloudfront-viewer-city" |} ].

Record LocationResult : Type := {
  country : nullable;
  region : nullable;
  city : nullable
}.

Definition of_field (o : option string) : nullable :=
  match o with Some s => str s | None => undefined end.

Section Location.
Context `{Platform}.
Variable env : Env.

(** The loop over [PROVIDER_HEADERS]: the location given by the first
    provider whose country header is present and not empty. *)
Fixpoint providerTier (headers : Headers) (providers : list Provider)
  : M (option LocationResult) :=
  match providers with
  | [] => mret None
  | provider :: rest =>
      c ← headers_get headers (countryHeader provider);
      if truthy (of_header c) then
        let country := decodeHeader (of_header c) in
        r ← headers_get headers (regionHeader provider);
        let region := decodeHeader (of_header r) in
        t ← headers_get headers (cityHeader provider);
        let city := decodeHeader (of_header t) in
        debug env ("[GEO] Found location from " +:+ countryHeader provider
                   +:+ ": " +:+ render country +:+ ", " +:+ render region
                   +:+ ", " +:+ render city) ;;
        mret (Some {| country := country;
                      region := getRegionCode country region;
                      city := city |})
      else providerTier headers rest
  end.

(** Lazy opening of the database: [true] when a handle is available
    afterwards, [false] when the call has to answer [null]. *)
Definition openDatabase : M bool :=
  h ← getHandle;
  match h with
  | Some _ => mret true
  | None =>
      let dbPath :=
        if is_set (GEOLITE_DB_PATH env)
        then default EmptyString (GEOLITE_DB_PATH env)
        else defaultDbPath in
      debug env ("[GEO] Opening database at: " +:+ dbPath) ;;
      emit (EvFsAccess dbPath) ;;
      if fsAccess dbPath then
        emit (EvMaxmindOpen dbPath) ;;
        match maxmindOpen dbPath with
        | Some r =>
            setHandle r ;;
            debug env "[GEO] Database opened successfully" ;;
            mret true
        | None =>
            emit (EvError "Failed to open GeoLite2 database:") ;;
            mret false
        end
      else
        emit (EvError ("GeoLite2 database file not found at: " +:+ dbPath)) ;;
        mret false
  end.

(** [globalThis[MAXMIND]?.get(strippedIp)]. *)
Definition lookup (strippedIp : string) : M (option CityResponse) :=
  h ← getHandle;
  match h with
  | Some r => emit (EvLookup strippedIp) ;; mret (reader_get r strippedIp)
  | None => mret None
  end.

(** The database tier: everything after the provider headers. *)
Definition databaseTier (ip : string) : M (option LocationResult) :=
  ready ← openDatabase;
  if (ready : bool) then
    let strippedIp := stripPort ip in
    result ← lookup strippedIp;
    debug env ("[GEO] Database lookup for " +:+ strippedIp +:+ ": "
               +:+ (match result with
                       | Some _ => "found"
                       | None => "not found"
                       end)) ;;
    match result with
    | Some rec =>
        let country :=
          of_field (match country_iso rec with
                    | Some c => Some c
                    | None => registered_country_iso rec
                    end) in
        let region := of_field (mjoin (head (subdivisions_iso rec))) in
        let city := of_field (city_en rec) in
        debug env ("[GEO] Result: country=" +:+ render country +:+ ", region="
                   +:+ render region +:+ ", city=" +:+ render city) ;;
        mret (Some {| country := country;
                      region := getRegionCode country region;
                      city := city |})
    | None =>
        debug env ("[GEO] No location data found for IP: " +:+ ip) ;;
        mret None
    end
  else mret None.

Definition getLocation (ip : string) (headers : Headers) (hasPayloadIP : bool)
  : M (option LocationResult) :=
  isLocal ← (if negb (JS.nonempty ip) then mret true
             else emit (EvIsLocalhost ip) ;; mret (isLocalhost ip));
  if (isLocal : bool) then
    debug env ("[GEO] Skipping localhost IP: " +:+ ip) ;;
    mret None
  else
    debug env ("[GEO] Looking up location for IP: " +:+ ip) ;;
    fromHeaders ← (if negb hasPayloadIP && negb (is_set (SKIP_LOCATION_HEADERS env))
                   then providerTier headers PROVIDER_HEADERS
                   else mret None);
    match fromHeaders with
    | Some location => mret (Some location)
    | None => databaseTier ip
    end.

End Location.

(** ** [src/lib/detect.ts]: IP blocklist *)

(** A call either returns or raises. *)
Inductive JsResult (A : Type) : Type :=
| Returns (a : A)
| Throws (msg : string).
Arguments Returns {A} _.
Arguments Throws {A} _.

(** What [hasBlockedIp] can return: [false], the element found by
    [Array.prototype.find], or [undefined]. *)
Inductive JsValue : Type :=
| VUndefined
| VBool (b : bool)
| VString (s : string).

Definition ToBoolean (v : JsValue) : bool :=
  match v with
  | VUndefined => false
  | VBool b => b
  | VString s => JS.nonempty s
  end.

Inductive Kind : Type := ipv4 | ipv6.

Definition Kind_eqb (a b : Kind) : bool :=
  match a, b with
  | ipv4, ipv4 | ipv6, ipv6 => true
  | _, _ => false
  end.

(** The address library, an external collaborator: [parse] and [parseCIDR]
    raise on strings they do not accept; [addrMatch] is [addr.match(range)],
    which the caller only reaches on two addresses of the same kind. *)
Class AddressLib : Type := {
  Address : Type;
  kind : Address -> Kind;
  parse : string -> JsResult Address;
  parseCIDR : string -> JsResult (Address * Z);
  addrMatch : Address -> Address * Z -> bool
}.

Section Blocklist.
Context `{AddressLib}.

(** The predicate handed to [find]. *)
Definition matchesRule (clientIp ip : string) : JsResult bool :=
  if String.eqb ip clientIp then Returns true
  else if 0 <? JS.indexOf ip "/"%char then
    match parse clientIp with
    | Throws e => Throws e
    | Returns addr =>
        match parseCIDR ip with
        | Throws e => Throws e
        | Returns range =>
            Returns (Kind_eqb (kind addr) (kind (fst range)) && addrMatch addr range)
        end
    end
  else Returns false.

(** [ips.find(predicate)]: the first element the predicate accepts; an
    exception of the predicate ends the search. *)
Fixpoint arrayFind (predicate : string -> JsResult bool) (ips : list string)
  : JsResult JsValue :=
  match ips with
  | [] => Returns VUndefined
  | ip :: rest =>
      match predicate ip with
      | Throws e => Throws e
      | Returns true => Returns (VString ip)
      | Returns false => arrayFind predicate rest
      end
  end.

(** The rules: [ignoreIps.split(',').map(n => n.trim())]. *)
Definition rules (ignoreIps : string) : list string :=
  map JS.trim (JS.split ","%char ignoreIps).

Definition hasBlockedIp (env : Env) (clientIp : string) : JsResult JsValue :=
  match IGNORE_IP env with
  | Some ignoreIps =>
      if JS.nonempty ignoreIps
      then arrayFind (matchesRule clientIp) (rules ignoreIps)
      else Returns (VBool false)
  | None => Returns (VBool false)
  end.

End Blocklist.

(** ** Classes of events *)

Definition isHeaderRead (e : Event) : bool :=
  match e with EvHeaderGet _ => true | _ => false end.

Definition isDatabaseWork (e : Event) : bool :=
  match e with
  | EvFsAccess _ | EvMaxmindOpen _ | EvLookup _ => true
  | _ => false
  end.

(** [emits P m]: every event produced by [m], from any handle, satisfies
    [P]. *)
Definition emits {A} (P : Event -> bool) (m : M A) : Prop :=
  forall h, forallb P (events (m h)) = true.

(** ** Reference instances of the external collaborators

    Used to run the functions above on concrete requests. *)

(** Modelled from the spec: the address library ([ipaddr.js], which is not
    part of the sources), consumed as [parseAddress], [parseCIDR] and
    [addressInRange].  This instance is its dotted-decimal IPv4 fragment: an
    address is four decimal parts without leading zeros, each at most 255; a
    range is an address, a [/] and a decimal prefix length of at most 32; an
    address is in a range when both agree on the first prefix-length bits.
    Any other string is rejected by this instance. *)
Module DottedQuad.

Definition octet (s : string) : option Z :=
  match s with
  | String "0"%char (String _ _) => None
  | _ =>
      match Num.digits 10 s with
      | Some v => if v <=? 255 then Some v else None
      | None => None
      end
  end.

Definition parseIPv4 (s : string) : option (list Z) :=
  match JS.split "."%char s with
  | [a; b; c; d] =>
      match octet a, octet b, octet c, octet d with
      | Some a, Some b, Some c, Some d => Some [a; b; c; d]
      | _, _, _, _ => None
      end
  | _ => None
  end.

Definition IPv4_parse (s : string) : JsResult (list Z) :=
  match parseIPv4 s with
  | Some o => Returns o
  | None => Throws "ipaddr: the address has neither IPv6 nor IPv4 format"
  end.

Definition IPv4_parseCIDR (s : string) : JsResult (list Z * Z) :=
  let bad := Throws "ipaddr: the address has neither IPv6 nor IPv4 CIDR format" in
  let idx := JS.lastIndexOf s "/"%char in
  if 0 <? idx then
    match parseIPv4 (JS.slice s 0 idx),
          Num.digits 10 (JS.slice s (idx + 1) (Z.of_nat (String.length s))) with
    | Some o, Some maskLength =>
        if maskLength <=? 32 then Returns (o, maskLength) else bad
    | _, _ => bad
    end
  else bad.

(** The loop of [matchCIDR]: compare the parts from the left, shifting out
    the bits beyond the prefix length. *)
Fixpoint matchCIDR (first second : list Z) (partSize cidrBits : Z) : bool :=
  if cidrBits <=? 0 then true
  else match first, second with
       | a :: first', b :: second' =>
           let shift := Z.max 0 (partSize - cidrBits) in
           if Z.shiftr a shift =? Z.shiftr b shift
           then matchCIDR first' second' partSize (cidrBits - partSize)
           else false
       | _, _ => true
       end.

Definition lib : AddressLib := {|
  Address := list Z;
  kind := fun _ => ipv4;
  parse := IPv4_parse;
  parseCIDR := IPv4_parseCIDR;
  addrMatch := fun addr range => matchCIDR addr (fst range) 8 (snd range)
|}.

End DottedQuad.

(** Configurations used to run the functions: nothing set, only the
    override header name set, only the blocklist set. *)
Definition defaultEnv : Env :=
  {| CLIENT_IP_HEADER := None; DEBUG_GEO := None; SKIP_LOCATION_HEADERS := None;
     GEOLITE_DB_PATH := None; IGNORE_IP := None |}.

Definition blocklistEnv (ignoreIps : string) : Env :=
  {| CLIENT_IP_HEADER := None; DEBUG_GEO := None; SKIP_LOCATION_HEADERS := None;
     GEOLITE_DB_PATH := None; IGNORE_IP := Some ignoreIps |}.

Definition overrideEnv (name : string) : Env :=
  {| CLIENT_IP_HEADER := Some name; DEBUG_GEO := None; SKIP_LOCATION_HEADERS := None;
     GEOLITE_DB_PATH := None; IGNORE_IP := None |}.


(** A stand-in for the user-agent parser: it knows tablets and phones by the
    usual markers and reports no device type otherwise. *)
Definition sampleParser : UserAgentParser :=
  {| device_type := fun ua =>
       if JS.includesStr ua "iPad" || JS.includesStr ua "Tablet" then str "tablet"
       else if JS.includesStr ua "Mobile" then str "mobile"
       else undefined |}.

(** A stand-in for the platform: loopback literals are local, the database
    file exists at the default path and holds one record, for [203.0.113.5];
    the Latin-1 to UTF-8 conversion is the identity, exact on ASCII. *)
Definition sampleReader : Reader :=
  {| reader_get := fun ip =>
       if String.eqb ip "203.0.113.5" then
         Some {| country_iso := Some "US";
                 registered_country_iso := Some "US";
                 subdivisions_iso := [Some "CA"];
                 city_en := Some "Los Angeles" |}
       else None |}.

Definition samplePlatform : Platform :=
  {| isLocalhost := fun ip =>
       JS.startsWith ip "127." || String.eqb ip "::1" || String.eqb ip "localhost";
     latin1ToUtf8 := fun s => s;
     defaultDbPath := "/app/geo/GeoLite2-City.mmdb";
     fsAccess := fun path => String.eqb path "/app/geo/GeoLite2-City.mmdb";
     maxmindOpen := fun _ => Some sampleReader |}.

(** ** Vocabulary for the properties of the precedence list *)

(** What a header of the precedence list contributes: its extracted address
    when the header is present, not empty, and the extraction is neither
    empty nor private. *)
Definition candidate (headers : Headers) (name : string) : option string :=
  match headers !! toLowerCase name with
  | Some v =>
      let extractedIp := extractIp name v in
      if JS.nonempty v && JS.nonempty extractedIp && negb (isPrivate extractedIp)
      then Some extractedIp
      else None
  | None => None
  end.

(** The override header is configured and carried with a non-empty value. *)
Definition overrideActive (env : Env) (headers : Headers) : bool :=
  let customHeader := default EmptyString (CLIENT_IP_HEADER env) in
  JS.nonempty customHeader && truthy (of_header (headers !! toLowerCase customHeader)).

Definition isLog (e : Event) : bool :=
  match e with EvLog _ => true | _ => false end.

(** [keepsHandle m]: [m] leaves the database handle as it finds it. *)
Definition keepsHandle {A} (m : M A) : Prop :=
  forall h, handle (m h) = h.

(** A request carrying a private [x-forwarded-for] and a public [x-real-ip]. *)
Definition sampleHeaders : Headers :=
  {[ "x-forwarded-for" := "10.0.0.1"; "x-real-ip" := "203.0.113.9" ]}.

Definition readOrLog (e : Event) : bool := isHeaderRead e || isLog e.

(** The events of a call, diagnostic lines left out. *)
Definition withoutLogs (l : list Event) : list Event :=
  List.filter (fun e => negb (isLog e)) l.

(** [sameButLogs m m']: from any handle, [m] and [m'] give the same value
    and the same handle and do the same things, diagnostic lines apart. *)
Definition sameButLogs {A} (m m' : M A) : Prop :=
  forall h,
    value (m h) = value (m' h)
    /\ handle (m h) = handle (m' h)
    /\ withoutLogs (events (m h)) = withoutLogs (events (m' h)).

(** The configured database path: [GEOLITE_DB_PATH], or the default. *)
Definition dbPathOf `{Platform} (env : Env) : string :=
  if is_set (GEOLITE_DB_PATH env)
  then default EmptyString (GEOLITE_DB_PATH env)
  else defaultDbPath.

(** A configuration with diagnostics on. *)
Definition debugEnv : Env :=
  {| CLIENT_IP_HEADER := None; DEBUG_GEO := Some "1"; SKIP_LOCATION_HEADERS := None;
     GEOLITE_DB_PATH := None; IGNORE_IP := None |}.

(** ** Vocabulary for the properties of the location tiers *)

(** A provider answers when its country header is present and not empty. *)
Definition providerAnswers (headers : Headers) (p : Provider) : bool :=
  truthy (of_header (headers !! toLowerCase (countryHeader p))).

(** [returns P m]: whatever the handle, the value of [m] satisfies [P]. *)
Definition returns {A} (P : A -> Prop) (m : M A) : Prop :=
  forall h, P (value (m h)).

(** A location as [getLocation] builds it: the country and the region are
    never [null], and a defined region is compound and comes with a non-empty
    country. *)
Definition wellFormed (loc : LocationResult) : Prop :=
  country loc <> null /\ region loc <> null
  /\ forall r, region loc = str r ->
       JS.includes r "-"%char = true
       /\ exists c, country loc = str c /\ JS.nonempty c = true.

(** What [getLocation] may answer: [null], or a well-formed location. *)
Definition good (v : option LocationResult) : Prop :=
  forall loc, v = Some loc -> wellFormed loc.

(** A configuration whose database path names a file that is not there. *)
Definition missingDbEnv : Env :=
  {| CLIENT_IP_HEADER := None; DEBUG_GEO := None; SKIP_LOCATION_HEADERS := None;
     GEOLITE_DB_PATH := Some "/nowhere/GeoLite2-City.mmdb"; IGNORE_IP := None |}.

(** A request that went through Vercel, then CloudFront. *)
Definition vercelHeaders : Headers :=
  {[ "x-vercel-ip-country" := "FR"; "x-vercel-ip-country-region" := "IDF";
     "cloudfront-viewer-country" := "DE" ]}.

(** ** [getLocation] between its suspension points

    [getLocation] is an [async] function.  What stands between two [await]s
    runs without interruption; at an [await] the call is suspended, and
    other calls, which share [globalThis[MAXMIND]], may run before it is
    resumed.  A call is described by where it is suspended, and resuming it
    with the answer of the awaited operation runs it up to its next
    suspension point or to its end. *)

(** The lines 138 to 168: the lookup, once a database is at hand.  It is
    the branch that [databaseTier] takes after a successful
    [openDatabase]. *)
Definition afterOpen `{Platform} (env : Env) (ip : string) : M (option LocationResult) :=
  let strippedIp := stripPort ip in
  result ← lookup strippedIp;
  debug env ("[GEO] Database lookup for " +:+ strippedIp +:+ ": "
             +:+ (match result with
                     | Some _ => "found"
                     | None => "not found"
                     end)) ;;
  match result with
  | Some rec =>
      let country :=
        of_field (match country_iso rec with
                  | Some c => Some c
                  | None => registered_country_iso rec
                  end) in
      let region := of_field (mjoin (head (subdivisions_iso rec))) in
      let city := of_field (city_en rec) in
      debug env ("[GEO] Result: country=" +:+ render country +:+ ", region="
                 +:+ render region +:+ ", city=" +:+ render city) ;;
      mret (Some {| country := country;
                    region := getRegionCode country region;
                    city := city |})
  | None =>
      debug env ("[GEO] No location data found for IP: " +:+ ip) ;;
      mret None
  end.

(** Where a call stands: just made, suspended at one of the three [await]s
    (lines 68, 118 and 125), or returned. *)
Inductive Stage : Type :=
| Entered (ip : string) (headers : Headers) (hasPayloadIP : bool)
| AwaitingLocalhost (ip : string) (headers : Headers) (hasPayloadIP : bool)
| AwaitingAccess (ip dbPath : string)
| AwaitingOpen (ip dbPath : string)
| Returned (location : option LocationResult).

(** What resumes a call: the call itself, or the outcome of the awaited
    operation ([OpenSettled None] is a rejected [maxmind.open]). *)
Inductive Resumption : Type :=
| Called
| LocalhostSettled (isLocal : bool)
| AccessSettled (found : bool)
| OpenSettled (reader : option Reader).

(** One uninterrupted stretch of [getLocation].  An answer that is not the
    one the call is waiting for leaves it where it is. *)
Definition resume `{Platform} (env : Env) (stage : Stage) (answer : Resumption) : M Stage :=
  match stage, answer with
  | Entered ip headers hasPayloadIP, Called =>
      if negb (JS.nonempty ip) then
        debug env ("[GEO] Skipping localhost IP: " +:+ ip) ;;
        mret (Returned None)
      else
        emit (EvIsLocalhost ip) ;;
        mret (AwaitingLocalhost ip headers hasPayloadIP)
  | AwaitingLocalhost ip headers hasPayloadIP, LocalhostSettled isLocal =>
      if isLocal then
        debug env ("[GEO] Skipping localhost IP: " +:+ ip) ;;
        mret (Returned None)
      else
        debug env ("[GEO] Looking up location for IP: " +:+ ip) ;;
        fromHeaders ← (if negb hasPayloadIP && negb (is_set (SKIP_LOCATION_HEADERS env))
                       then providerTier env headers PROVIDER_HEADERS
                       else mret None);
        match fromHeaders with
        | Some location => mret (Returned (Some location))
        | None =>
            h ← getHandle;
            match h with
            | Some _ =>
                location ← afterOpen env ip;
                mret (Returned location)
            | None =>
                let dbPath := dbPathOf env in
                debug env ("[GEO] Opening database at: " +:+ dbPath) ;;
                emit (EvFsAccess dbPath) ;;
                mret (AwaitingAccess ip dbPath)
            end
        end
  | AwaitingAccess ip dbPath, AccessSettled found =>
      if found then
        emit (EvMaxmindOpen dbPath) ;;
        mret (AwaitingOpen ip dbPath)
      else
        emit (EvError ("GeoLite2 database file not found at: " +:+ dbPath)) ;;
        mret (Returned None)
  | AwaitingOpen ip dbPath, OpenSettled (Some r) =>
      setHandle r ;;
      debug env "[GEO] Database opened successfully" ;;
      location ← afterOpen env ip;
      mret (Returned location)
  | AwaitingOpen ip dbPath, OpenSettled None =>
      emit (EvError "Failed to open GeoLite2 database:") ;;
      mret (Returned None)
  | _, _ => mret stage
  end.

(** What the platform answers to a call that runs alone. *)
Definition platformAnswer `{Platform} (stage : Stage) : Resumption :=
  match stage with
  | Entered _ _ _ => Called
  | AwaitingLocalhost ip _ _ => LocalhostSettled (isLocalhost ip)
  | AwaitingAccess _ dbPath => AccessSettled (fsAccess dbPath)
  | AwaitingOpen _ dbPath => OpenSettled (maxmindOpen dbPath)
  | Returned _ => Called
  end.

(** A call that runs alone: it is resumed, with the platform's answers,
    until it returns; four stretches are the most a call has. *)
Fixpoint runAlone `{Platform} (env : Env) (stretches : nat) (stage : Stage) : M Stage :=
  match stretches with
  | O => mret stage
  | S n =>
      match stage with
      | Returned _ => mret stage
      | _ => stage' ← resume env stage (platformAnswer stage); runAlone env n stage'
      end
  end.

(** Several calls in flight: [interleave schedule calls] resumes the calls
    in the order and with the answers of the schedule. *)
Definition resumeAt `{Platform} (env : Env) (i : nat) (answer : Resumption)
    (calls : list Stage) : M (list Stage) :=
  match calls !! i with
  | Some stage => stage' ← resume env stage answer; mret (<[i := stage']> calls)
  | None => mret calls
  end.

Fixpoint interleave `{Platform} (env : Env) (schedule : list (nat * Resumption))
    (calls : list Stage) : M (list Stage) :=
  match schedule with
  | [] => mret calls
  | (i, answer) :: rest =>
      calls' ← resumeAt env i answer calls;
      interleave env rest calls'
  end.

(** Two calls made before either has opened the database: each finds the
    handle empty, checks the file and opens it; the first opening settles
    with [r1]. *)
Definition overlappingOpens (r1 : Reader) : list (nat * Resumption) :=
  [ (0%nat, Called); (1%nat, Called);
    (0%nat, LocalhostSettled false); (1%nat, LocalhostSettled false);
    (0%nat, AccessSettled true); (1%nat, AccessSettled true);
    (0%nat, OpenSettled (Some r1)) ].

(** ** [src/lib/detect.ts]: assembling the client record *)

(** [a || b] and the test of [a ?? b] on values that may be missing. *)
Definition orElse (a b : nullable) : nullable :=
  if truthy a then a else b.

Definition nullish (a : nullable) : bool :=
  match a with str _ => false | _ => true end.

(** The collaborators of [getClientInfo], each consulted on the user agent
    as it is, a string or [null]: [deviceTypeOf ua] is
    [UAParser(ua).device?.type], [browserName] and [detectOS] are those of
    [detect-browser].  [safeDecodeURIComponent] is imported from [@/lib/url],
    which is not among the sources; nothing is assumed about it. *)
Class Detectors : Type := {
  deviceTypeOf : nullable -> nullable;
  browserName : nullable -> nullable;
  detectOS : nullable -> nullable;
  safeDecodeURIComponent : nullable -> nullable
}.

(** The override fields of the payload, each a string when the caller sent
    it, [null] or [undefined] otherwise; a payload that is itself missing
    reads as [undefined] everywhere, through [payload?.]. *)
Record Payload : Type := {
  payload_userAgent : nullable;
  payload_ip : nullable;
  payload_browser : nullable;
  payload_os : nullable;
  payload_device : nullable;
  payload_screen : nullable
}.

Record ClientInfo : Type := {
  info_userAgent : nullable;
  info_browser : nullable;
  info_os : nullable;
  info_ip : nullable;
  info_country : nullable;
  info_region : nullable;
  info_city : nullable;
  info_device : nullable
}.

(** [getDevice] on a user agent that may be [null]: the body of [getDevice]
    hands its first argument to the parser and uses nothing else of it. *)
Definition getDeviceAt `{Detectors} (userAgent : nullable) (screen : string) : string :=
  @getDevice {| device_type := fun _ => deviceTypeOf userAgent |} EmptyString screen.

(** [getDevice(userAgent, payload?.screen)]: the default [''] stands in for
    [undefined] only, and [null.split] raises. *)
Definition getDeviceCall `{Detectors} (userAgent screen : nullable) : JsResult string :=
  match screen with
  | undefined => Returns (getDeviceAt userAgent EmptyString)
  | null => Throws "TypeError: Cannot read properties of null (reading 'split')"
  | str s => Returns (getDeviceAt userAgent s)
  end.

(** [getLocation(ip, ...)] on an address that may be [null]: the default
    [''] stands in for [undefined] only, and [!null] holds. *)
Definition getLocationAt `{Platform} (env : Env) (ip : nullable) (headers : Headers)
    (hasPayloadIP : bool) : M (option LocationResult) :=
  match ip with
  | undefined => getLocation env EmptyString headers hasPayloadIP
  | null => debug env ("[GEO] Skipping localhost IP: " +:+ render null) ;; mret None
  | str s => getLocation env s headers hasPayloadIP
  end.

(** [location?.field]. *)
Definition fieldOf (location : option LocationResult)
    (field : LocationResult -> nullable) : nullable :=
  match location with Some l => field l | None => undefined end.

(** A header name, as [Headers.get] requires it: a non-empty string of
    token characters, the visible ASCII characters other than the double
    quote and [(),/:;<=>?@[\]{}].  On any other name [Headers.get] raises a
    [TypeError]. *)
Definition isTokenChar (c : ascii) : bool :=
  let n := N_of_ascii c in
  N.leb 33 n && N.leb n 126
  && negb (existsb (N.eqb n)
             [34; 40; 41; 44; 47; 58; 59; 60; 61; 62; 63; 64; 91; 92; 93; 123; 125]%N).

Definition isHeaderName (name : string) : bool :=
  JS.nonempty name && JS.all_chars isTokenChar name.

(** [getIpAddress(request.headers)] as a call that may raise.  The one name
    it hands to [headers.get] that is not a constant of the source is the
    configured one, and it is looked up first (line 22 of [ip.ts]): when it
    is not a header name that lookup raises, before anything else is done. *)
Definition getIpAddressCall (env : Env) (headers : Headers)
  : M (JsResult (option string)) :=
  let customHeader := default EmptyString (CLIENT_IP_HEADER env) in
  if JS.nonempty customHeader && negb (isHeaderName customHeader) then
    emit (EvHeaderGet customHeader) ;;
    mret (Throws "TypeError: Headers.get: invalid header name")
  else
    ip ← getIpAddress env headers;
    mret (Returns ip).

Definition getClientInfo `{Platform} `{Detectors} (env : Env) (headers : Headers)
    (payload : Payload) : M (JsResult ClientInfo) :=
  userAgent ← (if truthy (payload_userAgent payload)
               then mret (payload_userAgent payload)
               else v ← headers_get headers "user-agent"; mret (of_header v));
  ipResult ← (if truthy (payload_ip payload)
              then mret (Returns (payload_ip payload))
              else r ← getIpAddressCall env headers;
                   mret (match r with
                         | Returns v => Returns (of_header v)
                         | Throws e => Throws e
                         end));
  match ipResult with
  | Throws e => mret (Throws e)
  | Returns ip =>
      let hasPayloadIP := truthy (payload_ip payload) in
      debug env ("[GEO] getClientInfo - IP: " +:+ render ip +:+ ", hasPayloadIP: "
                 +:+ (if hasPayloadIP then "true" else "false")) ;;
      location ← getLocationAt env ip headers hasPayloadIP;
      let country :=
        orElse (safeDecodeURIComponent (fieldOf location country)) undefined in
      let region :=
        orElse (safeDecodeURIComponent (fieldOf location region)) undefined in
      let city :=
        orElse (safeDecodeURIComponent (fieldOf location city)) undefined in
      debug env ("[GEO] Final result - country: " +:+ render country +:+ ", region: "
                 +:+ render region +:+ ", city: " +:+ render city) ;;
      let browser := if nullish (payload_browser payload) then browserName userAgent
                     else payload_browser payload in
      let os := if nullish (payload_os payload) then detectOS userAgent
                else payload_os payload in
      match (if nullish (payload_device payload)
             then match getDeviceCall userAgent (payload_screen payload) with
                  | Returns d => Returns (str d)
                  | Throws e => Throws e
                  end
             else Returns (payload_device payload)) with
      | Throws e => mret (Throws e)
      | Returns device =>
          mret (Returns {| info_userAgent := userAgent; info_browser := browser;
                           info_os := os; info_ip := ip; info_country := country;
                           info_region := region; info_city := city;
                           info_device := device |})
      end
  end.

(** ** Vocabulary for the properties of the client record *)

Definition isUserAgentRead (e : Event) : bool :=
  match e with EvHeaderGet name => String.eqb name "user-agent" | _ => false end.

(** A field of the record that is absent or a non-empty string. *)
Definition absentOrText (v : nullable) : Prop :=
  v = undefined \/ exists s, v = str s /\ JS.nonempty s = true.

(** [quietAt h m Q]: run from the handle [h], [m] leaves the handle alone,
    does no database work, and its value satisfies [Q]. *)
Definition quietAt {A} (h : option Reader) (m : M A) (Q : A -> Prop) : Prop :=
  handle (m h) = h
  /\ forallb (fun e => negb (isDatabaseWork e)) (events (m h)) = true
  /\ Q (value (m h)).

(** A stand-in for the detectors: the device type of [sampleParser], a
    browser and a system read off the usual markers, and a decoder that
    leaves its argument alone. *)
Definition sampleDetectors : Detectors :=
  {| deviceTypeOf := fun ua =>
       match ua with str s => @device_type sampleParser s | _ => undefined end;
     browserName := fun ua =>
       match ua with
       | str s => if JS.includesStr s "Firefox" then str "firefox" else null
       | _ => null
       end;
     detectOS := fun ua =>
       match ua with
       | str s => if JS.includesStr s "Linux" then str "Linux" else null
       | _ => null
       end;
     safeDecodeURIComponent := fun s => s |}.

(** A configuration whose override header name is not a header name. *)
Definition badNameEnv : Env :=
  {| CLIENT_IP_HEADER := Some "x real ip"; DEBUG_GEO := None;
     SKIP_LOCATION_HEADERS := None; GEOLITE_DB_PATH := None; IGNORE_IP := None |}.

(** No payload, and a payload that only names the client address. *)
Definition noPayload : Payload :=
  {| payload_userAgent := undefined; payload_ip := undefined;
     payload_browser := undefined; payload_os := undefined;
     payload_device := undefined; payload_screen := undefined |}.

Definition ipPayload (ip : string) : Payload :=
  {| payload_userAgent := undefined; payload_ip := str ip;
     payload_browser := undefined; payload_os := undefined;
     payload_device := undefined; payload_screen := undefined |}.

(** ** The set-up script: fetching the database

    The set-up script that downloads the GeoLite2 database: how it chooses
    where to download from and with which credentials, and which requests
    it sends while following redirects.  What it does with the body of the
    final response (unpacking, writing the file) is not modelled. *)

(** The variables the script reads from [process.env]. *)
Record SetupEnv : Type := {
  VERCEL : option string;
  BUILD_GEO : option string;
  GEO_DATABASE_URL : option string;
  MAXMIND_LICENSE_KEY : option string;
  MAXMIND_ACCOUNT_ID : option string
}.

(** Where the first part of [main] leaves the script: stopped by
    [process.exit], or about to download [url] with [authCredentials]
    ([None] is [null]); in both cases with the lines written so far. *)
Inductive Source : Type :=
| Exit (code : Z) (console : list Event)
| Download (url : string) (authCredentials : option string) (console : list Event).

Definition db : string := "GeoLite2-City".

Definition maxmindUrl : string :=
  "https://download.maxmind.com/geoip/databases/" +:+ db +:+ "/download?suffix=tar.gz".

Definition fallbackUrl : string :=
  "https://raw.githubusercontent.com/GitSquared/node-geolite2-redist/master/redist/"
  +:+ db +:+ ".tar.gz".

(** [main], up to the choice of [url] and [authCredentials]. *)
Definition chooseSource (env : SetupEnv) : Source :=
  if is_set (VERCEL env) && negb (is_set (BUILD_GEO env)) then
    Exit 0 [EvLog "Vercel environment detected. Skipping geo setup."]
  else if is_set (GEO_DATABASE_URL env) then
    Download (default EmptyString (GEO_DATABASE_URL env)) None []
  else if is_set (MAXMIND_LICENSE_KEY env) then
    let accountId := default EmptyString (MAXMIND_ACCOUNT_ID env) in
    let licenseKey := default EmptyString (MAXMIND_LICENSE_KEY env) in
    if negb (is_set (MAXMIND_ACCOUNT_ID env)) then
      Exit 1 [EvError "MAXMIND_ACCOUNT_ID is required when using MAXMIND_LICENSE_KEY";
              EvError "Get your Account ID from: https://www.maxmind.com/en/accounts/current/account"]
    else
      Download maxmindUrl (Some (accountId +:+ ":" +:+ licenseKey))
        [EvLog "Using MaxMind official download with Basic Auth";
         EvLog ("Downloading from: " +:+ maxmindUrl)]
  else
    Download fallbackUrl None
      [EvLog "Using fallback GeoLite2 database from GitHub";
       EvLog "Note: For production, set MAXMIND_ACCOUNT_ID and MAXMIND_LICENSE_KEY for official MaxMind database"].

(** The network, as far as the script uses it: [parseURL url] is
    [new URL(url)] read as host name and path with query, [None] when the
    constructor raises; [base64 s] is
    [Buffer.from(s).toString('base64')]. *)
Class Net : Type := {
  parseURL : string -> option (string * string);
  base64 : string -> string
}.

(** The options handed to [https.get]. *)
Record Request : Type := {
  hostname : string;
  path : string;
  authorization : option string
}.

(** What comes back for one request: an [error] event, or a response with
    its status, status message, [location] header and body. *)
Inductive Response : Type :=
| NetworkError (message : string)
| Answer (statusCode : Z) (statusMessage : string) (location : option string)
    (body : string).

(** How a download ends: the promise resolves with the body of a 200
    response, or rejects; [Uncaught] is an exception raised inside the
    response callback, and [Pending] a request that nothing answered. *)
Inductive Outcome : Type :=
| Resolved (body : string)
| Rejected (message : string)
| Uncaught (message : string)
| Pending.

Definition isRedirectStatus (statusCode : Z) : bool :=
  (statusCode =? 301) || (statusCode =? 302) || (statusCode =? 307) || (statusCode =? 308).

(** [makeRequest(currentUrl, isRedirect)] of the download handlers, run
    against the responses the network gives to the successive requests:
    the requests sent, in order, and how the download ends. *)
Fixpoint makeRequest `{Net} (credentials : option string) (responses : list Response)
    (currentUrl : string) (isRedirect : bool) : list Request * Outcome :=
  match parseURL currentUrl with
  | None =>
      ([], if isRedirect then Uncaught "TypeError: Invalid URL"
           else Rejected "TypeError: Invalid URL")
  | Some (host, pathAndSearch) =>
      let request :=
        {| hostname := host;
           path := pathAndSearch;
           authorization :=
             if negb isRedirect && is_set credentials
             then Some ("Basic " +:+ base64 (default EmptyString credentials))
             else None |} in
      match responses with
      | [] => ([request], Pending)
      | NetworkError message :: _ => ([request], Rejected message)
      | Answer statusCode statusMessage location body :: rest =>
          if isRedirectStatus statusCode then
            if is_set location then
              let '(requests, outcome) :=
                makeRequest credentials rest (default EmptyString location) true in
              (request :: requests, outcome)
            else
              ([request],
               Rejected ("Redirect received but no location header: " +:+ pretty statusCode))
          else if negb (statusCode =? 200) then
            ([request],
             Rejected ("HTTP " +:+ pretty statusCode +:+ ": " +:+ statusMessage
                       +:+ (if JS.nonempty body then " - " +:+ body else "")))
          else ([request], Resolved body)
      end
  end.

(** The requests of a whole run of the script: both download handlers start
    with [makeRequest(downloadUrl)], holding [authCredentials]. *)
Definition setupRequests `{Net} (env : SetupEnv) (responses : list Response)
  : list Request :=
  match chooseSource env with
  | Exit _ _ => []
  | Download url authCredentials _ =>
      fst (makeRequest authCredentials responses url false)
  end.

(** A stand-in for the network library: a URL is [https://], a host name
    and a path; the encoder is left abstract as the identity. *)
Definition sampleNet : Net :=
  {| parseURL := fun url =>
       if JS.startsWith url "https://" then
         let rest := JS.slice url 8 (Z.of_nat (String.length url)) in
         let i := JS.indexOf rest "/"%char in
         if i =? -1 then Some (rest, "/"%string)
         else Some (JS.slice rest 0 i, JS.slice rest i (Z.of_nat (String.length rest)))
       else None;
     base64 := fun s => s |}.

(** An official download: account and licence key set, no custom URL. *)
Definition maxmindEnv : SetupEnv :=
  {| VERCEL := None; BUILD_GEO := None; GEO_DATABASE_URL := None;
     MAXMIND_LICENSE_KEY := Some "secret"; MAXMIND_ACCOUNT_ID := Some "1234" |}.

(** * Properties *)

(** ** Strings *)

Section StringFacts.

Lemma append_cons a (s t : string) : String a s +:+ t = String a (s +:+ t).
Proof. reflexivity. Qed.

Lemma append_empty_l (t : string) : EmptyString +:+ t = t.
Proof. reflexivity. Qed.

Lemma length_append (s t : string) :
  String.length (s +:+ t) = (String.length s + String.length t)%nat.
Proof. induction s as [|a s IH]; [done|]. rewrite append_cons. simpl. by rewrite IH. Qed.

Lemma includes_false c s : JS.includes s c = false <-> JS.find_first c s = None.
Proof. unfold JS.includes. destruct (JS.find_first c s); split; congruence. Qed.

Lemma find_last_none c s : JS.find_last c s = None <-> JS.find_first c s = None.
Proof.
  induction s as [|a s IH]; simpl; [done|].
  destruct (JS.find_last c s), (JS.find_first c s), (Ascii.eqb a c);
    split; try congruence; intros; exfalso;
    destruct IH as [IH1 IH2]; try (specialize (IH1 eq_refl); congruence);
    try (specialize (IH2 eq_refl); congruence).
Qed.

Lemma indexOf_none c s : JS.indexOf s c = -1 <-> JS.find_first c s = None.
Proof.
  unfold JS.indexOf. destruct (JS.find_first c s); simpl; split; (lia || congruence).
Qed.

Lemma lastIndexOf_none c s : JS.lastIndexOf s c = -1 <-> JS.find_first c s = None.
Proof.
  rewrite <- find_last_none. unfold JS.lastIndexOf.
  destruct (JS.find_last c s); simpl; split; (lia || congruence).
Qed.

(** The first occurrence of [c] in [body ++ c :: rest] when [body] is free
    of [c]. *)
Lemma find_first_app c body rest :
  JS.find_first c body = None ->
  JS.find_first c (body +:+ String c rest) = Some (String.length body).
Proof.
  induction body as [|a body IH]; intros Hb.
  - rewrite append_empty_l. simpl. by rewrite Ascii.eqb_refl.
  - rewrite append_cons. simpl in *.
    destruct (Ascii.eqb a c); [done|].
    destruct (JS.find_first c body); [done|]. by rewrite IH.
Qed.

(** The last occurrence of [c] in [pre ++ c :: post] when [post] is free
    of [c]. *)
Lemma find_last_app c pre post :
  JS.find_first c post = None ->
  JS.find_last c (pre +:+ String c post) = Some (String.length pre).
Proof.
  intros Hp. apply find_last_none in Hp.
  induction pre as [|a pre IH].
  - rewrite append_empty_l. simpl. by rewrite Hp, Ascii.eqb_refl.
  - rewrite append_cons. simpl. by rewrite IH.
Qed.

Lemma substring_prefix (s t : string) :
  String.substring 0 (String.length s) (s +:+ t) = s.
Proof.
  induction s as [|a s IH].
  - rewrite append_empty_l. by destruct t.
  - rewrite append_cons. simpl. by rewrite IH.
Qed.

(** A slice from the start up to the length of a prefix is that prefix. *)
Lemma slice_prefix (s t : string) :
  JS.slice (s +:+ t) 0 (Z.of_nat (String.length s)) = s.
Proof.
  unfold JS.slice, JS.clamp. rewrite length_append.
  replace (0 <? 0) with false by done.
  destruct (Z.ltb_spec (Z.of_nat (String.length s)) 0); [exfalso; lia|].
  rewrite !Z.min_l by lia.
  rewrite Z.sub_0_r, Nat2Z.id. simpl. apply substring_prefix.
Qed.

(** A slice from the start is empty or begins like the string. *)
Lemma slice_head a (s : string) n :
  JS.slice (String a s) 0 n = EmptyString
  \/ exists t, JS.slice (String a s) 0 n = String a t.
Proof.
  unfold JS.slice.
  assert (JS.clamp (Z.of_nat (String.length (String a s))) 0 = 0) as ->.
  { unfold JS.clamp. replace (0 <? 0) with false by done. lia. }
  rewrite Z.sub_0_r. change (Z.to_nat 0) with 0%nat.
  destruct (Z.to_nat _); simpl; [left; done | right; eauto].
Qed.

End StringFacts.

(** ** Address normalisation *)

Section StripPort.

Lemma append_assoc (s t u : string) : (s +:+ t) +:+ u = s +:+ (t +:+ u).
Proof. induction s as [|a s IH]; [done|]. rewrite !append_cons. by rewrite IH. Qed.

Lemma startsWith_cons a (s : string) :
  JS.startsWith (String a s) (String a EmptyString) = true.
Proof. simpl. by rewrite Ascii.eqb_refl. Qed.

Lemma startsWith_inv (s : string) a :
  JS.startsWith s (String a EmptyString) = true -> exists t, s = String a t.
Proof.
  destruct s as [|b s]; simpl; [done|].
  destruct (Ascii.eqb_spec b a) as [->|]; [eauto|done].
Qed.

Lemma stripPort_closed body rest :
JS.includes body "]"%char = false ->
stripPort ("[" +:+ body +:+ "]" +:+ rest) = "[" +:+ body +:+ "]".
Proof.
intros Hb. apply includes_false in Hb.
unfold stripPort.
change ("[" +:+ body +:+ "]" +:+ rest) with (String "["%char (body +:+ String "]"%char rest)).
rewrite startsWith_cons.
unfold JS.indexOf. simpl JS.find_first. rewrite (find_first_app _ _ _ Hb). simpl JS.index_or_minus1.
destruct (Z.eqb_spec (Z.of_nat (S (String.length body))) (-1)) as [?|_]; [exfalso; lia|].
simpl negb. cbv iota.
replace (Z.of_nat (S (String.length body)) + 1)
  with (Z.of_nat (String.length ("[" +:+ body +:+ "]"))).
2:{ change ("[" +:+ body +:+ "]") with (String "["%char (body +:+ "]")).
    simpl String.length. rewrite length_append. simpl. lia. }
replace (String "["%char (body +:+ String "]"%char rest))
  with (("[" +:+ body +:+ "]") +:+ rest).
2:{ rewrite !append_assoc. reflexivity. }
apply slice_prefix.
Qed.

Lemma stripLastColon_no_colon ip :
JS.includes ip ":"%char = false -> stripLastColon ip = ip.
Proof.
intros Hc. apply includes_false, lastIndexOf_none in Hc.
unfold stripLastColon. by rewrite Hc.
Qed.

Lemma stripPort_unclosed_unchanged ip :
JS.startsWith ip "[" = true -> JS.includes ip "]"%char = false ->
JS.includes ip ":"%char = false \/ JS.includes ip "."%char = false ->
stripPort ip = ip.
Proof.
intros Hs Hb Hcd. unfold stripPort. rewrite Hs.
apply includes_false, indexOf_none in Hb. rewrite Hb. simpl.
destruct Hcd as [Hc|Hd]; [by apply stripLastColon_no_colon|].
unfold stripLastColon.
destruct (negb _); [|done]. rewrite Hd. simpl.
apply startsWith_inv in Hs as [t ->].
destruct (slice_head "["%char t (JS.lastIndexOf (String "["%char t) ":"%char))
  as [->|[u ->]]; done.
Qed.

Lemma stripPort_unclosed_cut pre post :
JS.startsWith pre "[" = true ->
JS.includes (pre +:+ ":" +:+ post) "]"%char = false ->
JS.includes post ":"%char = false ->
JS.includes (pre +:+ ":" +:+ post) "."%char = true ->
stripPort (pre +:+ ":" +:+ post) = pre.
Proof.
intros Hs Hb Hc Hd. unfold stripPort.
apply includes_false, indexOf_none in Hb. rewrite Hb.
apply includes_false in Hc.
assert (Hl : JS.lastIndexOf (pre +:+ ":" +:+ post) ":"%char = Z.of_nat (String.length pre)).
{ unfold JS.lastIndexOf.
  change (pre +:+ ":" +:+ post) with (pre +:+ String ":"%char post).
  by rewrite (find_last_app _ _ _ Hc). }
assert (stripLastColon (pre +:+ ":" +:+ post) = pre) as ->.
{ unfold stripLastColon. rewrite Hl, Hd.
  destruct (Z.eqb_spec (Z.of_nat (String.length pre)) (-1)); [exfalso; lia|].
  simpl. apply slice_prefix. }
destruct (JS.startsWith (pre +:+ ":" +:+ post) "["); reflexivity.
Qed.

End StripPort.

(** C3 (as amended).  On an input that starts with an opening bracket,
    [stripPort] returns everything through the first closing bracket when
    there is one.  When there is none, the input goes through the last-colon
    rule: it is returned unchanged if it has no colon or no dot, and is cut at
    its last colon if it has both.  The three sample addresses normalise as
    stated. *)
Theorem stripPort_bracket_cases :
  (forall body rest : string,
      JS.includes body "]"%char = false ->
      stripPort ("[" +:+ body +:+ "]" +:+ rest) = "[" +:+ body +:+ "]")
  /\ (forall ip : string,
      JS.startsWith ip "[" = true ->
      JS.includes ip "]"%char = false ->
      JS.includes ip ":"%char = false \/ JS.includes ip "."%char = false ->
      stripPort ip = ip)
  /\ (forall pre post : string,
      JS.startsWith pre "[" = true ->
      JS.includes (pre +:+ ":" +:+ post) "]"%char = false ->
      JS.includes post ":"%char = false ->
      JS.includes (pre +:+ ":" +:+ post) "."%char = true ->
      stripPort (pre +:+ ":" +:+ post) = pre)
  /\ stripPort "[2001:db8::1]:8080" = "[2001:db8::1]"
  /\ stripPort "192.0.2.1:443" = "192.0.2.1"
  /\ stripPort "2001:db8::1" = "2001:db8::1".
Proof.
  split; [exact stripPort_closed|].
  split; [exact stripPort_unclosed_unchanged|].
  split; [exact stripPort_unclosed_cut|].
  repeat split; reflexivity.
Qed.

Lemma stripPort_bracket_cases_witness :
  stripPort "[::1]:80" = "[::1]"
  /\ stripPort "[::1" = "[::1"
  /\ stripPort "[192.0.2.1:443" = "[192.0.2.1".
Proof.
  destruct stripPort_bracket_cases as (Hclosed & Hsame & Hcut & _).
  split; [exact (Hclosed "::1" ":80" eq_refl)|].
  split; [exact (Hsame "[::1" eq_refl eq_refl (or_intror eq_refl))|].
  exact (Hcut "[192.0.2.1" "443" eq_refl eq_refl eq_refl eq_refl).
Defined.

(** C3 as stated fails: an input that starts with a bracket, has no closing
    bracket, and holds both a dot and a colon is cut at its last colon. *)
Lemma stripPort_unclosed_bracket_not_unchanged :
  JS.startsWith "[192.0.2.1:443" "[" = true
  /\ JS.indexOf "[192.0.2.1:443" "]"%char = -1
  /\ stripPort "[192.0.2.1:443" = "[192.0.2.1"
  /\ stripPort "[192.0.2.1:443" <> "[192.0.2.1:443".
Proof. repeat split; done. Qed.

(** ** The effect monad *)

Section Monad.
Context {A B : Type}.

Lemma value_bind (m : M A) (f : A -> M B) h :
  value ((m ≫= f) h) = value (f (value (m h)) (handle (m h))).
Proof. reflexivity. Qed.

Lemma handle_bind (m : M A) (f : A -> M B) h :
  handle ((m ≫= f) h) = handle (f (value (m h)) (handle (m h))).
Proof. reflexivity. Qed.

Lemma events_bind (m : M A) (f : A -> M B) h :
  events ((m ≫= f) h) = events (m h) ++ events (f (value (m h)) (handle (m h))).
Proof. reflexivity. Qed.

End Monad.

(** ** Client IP extraction *)

Section IpExtraction.

Lemma nonempty_append_l (s t : string) :
  JS.nonempty s = true -> JS.nonempty (s +:+ t) = true.
Proof. by destruct s. Qed.

Lemma nonempty_append_r (s t : string) :
  JS.nonempty t = true -> JS.nonempty (s +:+ t) = true.
Proof. destruct s; [by rewrite append_empty_l | done]. Qed.

Lemma forGroup_nonempty s g : forGroup s = Some g -> JS.nonempty g = true.
Proof.
  unfold forGroup.
  destruct (match s with String "["%char r => ("[", r) | _ => (EmptyString, s) end) as [lb s1].
  destruct (span for_char s1) as [digits s2].
  destruct (JS.nonempty digits) eqn:Hd; [|done].
  intros [= <-]. apply nonempty_append_r. by apply nonempty_append_l.
Qed.

Lemma forwardedFor_cons a s :
  forwardedFor (String a s) =
  if JS.startsWith (String a s) "for=" then
    match forGroup (JS.slice (String a s) 4 (Z.of_nat (String.length (String a s)))) with
    | Some g => Some g
    | None => forwardedFor s
    end
  else forwardedFor s.
Proof. reflexivity. Qed.

Lemma forwardedFor_nonempty s g : forwardedFor s = Some g -> JS.nonempty g = true.
Proof.
  induction s as [|a s IH]; [done|].
  rewrite forwardedFor_cons.
  destruct (JS.startsWith (String a s) "for="); [|exact IH].
  destruct (forGroup _) eqn:Hg; [|exact IH].
  intros [= <-]. by eapply forGroup_nonempty.
Qed.

Lemma extractCustom_nonempty name v :
  JS.nonempty v = true -> JS.nonempty (extractCustom name v) = true.
Proof.
  intros Hv. unfold extractCustom. rewrite Hv, !andb_true_r.
  destruct (String.eqb name "x-forwarded-for").
  - by destruct (JS.nonempty (firstForwarded v)) eqn:Hf.
  - destruct (String.eqb name "forwarded"); [|done].
    destruct (forwardedFor v) eqn:Hf; [|done]. by eapply forwardedFor_nonempty.
Qed.

Lemma scanHeaders_nonempty env headers names h n ip :
  value (scanHeaders env headers names h) = Some (n, ip) -> JS.nonempty ip = true.
Proof.
  revert h. induction names as [|name rest IH]; intros h; simpl; [done|].
  destruct (headers !! toLowerCase name) as [s|]; [|apply IH].
  destruct (JS.nonempty s); simpl; [|apply IH].
  destruct (JS.nonempty (extractIp name s)) eqn:He; simpl; [|apply IH].
  destruct (isPrivate (extractIp name s)).
  - rewrite value_bind. apply IH.
  - simpl. by intros [= <- <-].
Qed.


Lemma availableHeaders_handle headers names h :
  handle (availableHeaders headers names h) = h.
Proof.
  revert h. induction names as [|name rest IH]; intros h; [done|].
  simpl. apply IH.
Qed.

(** The value of [getIpAddress]: the override header when configured and
    present with a non-empty value, the precedence loop otherwise. *)
Lemma getIpAddress_value env headers h :
  value (getIpAddress env headers h) =
  let customHeader := default EmptyString (CLIENT_IP_HEADER env) in
  if JS.nonempty customHeader
     && truthy (of_header (headers !! toLowerCase customHeader))
  then extractCustom customHeader <$> headers !! toLowerCase customHeader
  else snd <$> value (scanHeaders env headers IP_ADDRESS_HEADERS h).
Proof.
  unfold getIpAddress. generalize IP_ADDRESS_HEADERS as names. intros names.
  cbv zeta.
  destruct (JS.nonempty (default EmptyString (CLIENT_IP_HEADER env))); simpl.
  - destruct (truthy (of_header _)); simpl; [done|].
    unfold when. destruct (is_set (DEBUG_GEO env)); simpl; [|done].
    by rewrite availableHeaders_handle.
  - unfold when. destruct (is_set (DEBUG_GEO env)); simpl; [|done].
    by rewrite availableHeaders_handle.
Qed.

End IpExtraction.

Section FirstElement.

Lemma split_cons c a (v : string) :
  hd EmptyString (JS.split c (String a v)) =
  if Ascii.eqb a c then EmptyString else String a (hd EmptyString (JS.split c v)).
Proof.
  simpl. destruct (Ascii.eqb a c); [done|].
  destruct v as [|b v]; [done|].
  by destruct (JS.split c (String b v)).
Qed.



Lemma scanHeaders_value_indep env headers names h h' :
  value (scanHeaders env headers names h) = value (scanHeaders env headers names h').
Proof.
  revert h h'. induction names as [|name rest IH]; intros h h'; simpl; [done|].
  destruct (headers !! toLowerCase name) as [s|]; [|apply IH].
  destruct (JS.nonempty s); simpl; [|apply IH].
  destruct (JS.nonempty (extractIp name s)); simpl; [|apply IH].
  destruct (isPrivate (extractIp name s)); [|done].
  rewrite !value_bind. apply IH.
Qed.




End FirstElement.


Lemma extractCustom_plain name v :
  name <> "x-forwarded-for" -> name <> "forwarded" -> extractCustom name v = v.
Proof.
  intros H1 H2. unfold extractCustom.
  apply String.eqb_neq in H1, H2. by rewrite H1, H2.
Qed.

(** C10.  Whatever the headers and the configuration, [getIpAddress] never
    returns the empty string: its value is [null] or a non-empty string.  In
    the precedence loop an empty extraction skips the header; for the override
    header an empty extraction falls back to the raw, non-empty value. *)
Theorem getIpAddress_never_empty env headers h :
  value (run (getIpAddress env headers) h) <> Some EmptyString.
Proof.
  unfold run. rewrite getIpAddress_value. cbv zeta.
  destruct (JS.nonempty _ && truthy _) eqn:Hc.
  - apply andb_prop in Hc as [_ Hv].
    destruct (headers !! toLowerCase _) as [v|]; [|done].
    simpl in *. intros [= He].
    pose proof (extractCustom_nonempty (default EmptyString (CLIENT_IP_HEADER env)) v Hv) as Hn.
    by rewrite He in Hn.
  - destruct (value (scanHeaders _ _ _ _)) as [[n ip]|] eqn:Hs; [|done].
    simpl. intros [= ->]. by apply scanHeaders_nonempty in Hs.
Qed.



(** ** Region codes *)

Section RegionCode.

Lemma includes_append_sep (a b : string) c :
  JS.includes (a +:+ String c b) c = true.
Proof.
  unfold JS.includes.
  induction a as [|x a IH].
  - rewrite append_empty_l. simpl. by rewrite Ascii.eqb_refl.
  - rewrite append_cons. simpl. destruct (Ascii.eqb x c); [done|].
    by destruct (JS.find_first c (a +:+ String c b)).
Qed.

(** A string that includes [c] splits around its first occurrence. *)
Lemma includes_split (s : string) c :
  JS.includes s c = true ->
  exists a b, s = a +:+ String c b /\ JS.includes a c = false.
Proof.
  unfold JS.includes. induction s as [|x s IH]; simpl; [done|].
  destruct (Ascii.eqb_spec x c) as [->|Hx].
  - intros _. by exists EmptyString, s.
  - destruct (JS.find_first c s) eqn:Hf; [|done]. intros _.
    destruct (IH eq_refl) as (a & b & -> & Ha).
    exists (String x a), b. split; [done|].
    simpl. destruct (Ascii.eqb_spec x c); [done|].
    by destruct (JS.find_first c a).
Qed.

Lemma getRegionCode_defined c r x :
  getRegionCode c r = str x ->
  exists c0, c = str c0 /\ JS.nonempty c0 = true /\ JS.includes x "-"%char = true.
Proof.
  unfold getRegionCode. destruct c as [| |c0]; [done..|]. destruct r as [| |r0]; [done..|].
  destruct (JS.nonempty c0) eqn:Hc; [|done].
  destruct (JS.nonempty r0) eqn:Hr; [|done]. simpl.
  destruct (JS.includes r0 "-"%char) eqn:Hi; intros [= <-]; exists c0.
  - done.
  - split; [done|]. split; [done|]. apply (includes_append_sep c0 r0).
Qed.

Lemma getRegionCode_not_null c r : getRegionCode c r <> null.
Proof.
  unfold getRegionCode.
  destruct c as [| |c0]; [done..|]. destruct r as [| |r0]; [done..|].
  destruct (_ || _); [done|]. by destruct (JS.includes r0 "-"%char).
Qed.

Lemma includes_nonempty (s : string) c : JS.includes s c = true -> JS.nonempty s = true.
Proof. by destruct s. Qed.

End RegionCode.

(** C8.  The region code used by both geolocation tiers: country ["US"] with
    bare subdivision ["06"] gives ["US-06"]; a subdivision that already holds
    a separator, such as ["US-CA"], is returned verbatim, so building the
    code again from a built code changes nothing; with the country or the
    subdivision absent or empty the region is [undefined]; hence a region is
    always [undefined] or a code with a separator between two parts, the
    country and the subdivision when the subdivision is bare. *)
Theorem getRegionCode_compound :
  getRegionCode (str "US") (str "06") = str "US-06"
  /\ getRegionCode (str "US") (str "US-CA") = str "US-CA"
  /\ (forall c r : string,
        JS.nonempty c = true -> JS.includes r "-"%char = true ->
        getRegionCode (str c) (str r) = str r)
  /\ (forall c r : string,
        JS.nonempty c = true -> JS.nonempty r = true ->
        JS.includes r "-"%char = false ->
        getRegionCode (str c) (str r) = str (c +:+ "-" +:+ r))
  /\ (forall c r : nullable,
        getRegionCode c (getRegionCode c r) = getRegionCode c r)
  /\ (forall c r : nullable,
        truthy c = false \/ truthy r = false -> getRegionCode c r = undefined)
  /\ (forall c r : nullable,
        getRegionCode c r = undefined
        \/ exists a b : string, getRegionCode c r = str (a +:+ "-" +:+ b)).
Proof.
  split; [reflexivity|]. split; [reflexivity|].
  split.
  { intros c r Hc Hr. unfold getRegionCode.
    by rewrite Hc, (includes_nonempty _ _ Hr), Hr. }
  split.
  { intros c r Hc Hr Hi. unfold getRegionCode. by rewrite Hc, Hr, Hi. }
  split.
  { intros c r. destruct (getRegionCode c r) as [| |x] eqn:Hx.
    - by destruct c.
    - by apply getRegionCode_not_null in Hx.
    - destruct (getRegionCode_defined _ _ _ Hx) as (c0 & -> & Hc & Hi).
      unfold getRegionCode. by rewrite Hc, (includes_nonempty _ _ Hi), Hi. }
  split.
  { intros c r [Hc|Hr]; unfold getRegionCode.
    - destruct c as [| |c0]; [done..|]. simpl in Hc. rewrite Hc. by destruct r.
    - destruct c as [| |c0]; [done..|]. destruct r as [| |r0]; [done..|].
      simpl in Hr. rewrite Hr. by rewrite orb_true_r. }
  intros c r. destruct (getRegionCode c r) as [| |x] eqn:Hx.
  - by left.
  - by apply getRegionCode_not_null in Hx.
  - right. destruct (getRegionCode_defined _ _ _ Hx) as (c0 & _ & _ & Hi).
    destruct (includes_split _ _ Hi) as (a & b & -> & _). by exists a, b.
Qed.

Lemma getRegionCode_compound_witness :
  getRegionCode (str "CA") (str "ON") = str "CA-ON"
  /\ getRegionCode (str "CA") (str "CA-ON") = str "CA-ON"
  /\ getRegionCode (str "") (str "ON") = undefined.
Proof.
  destruct getRegionCode_compound as (_ & _ & Hverb & Hbare & _ & Habsent & _).
  split; [exact (Hbare "CA" "ON" eq_refl eq_refl eq_refl)|].
  split; [exact (Hverb "CA" "CA-ON" eq_refl eq_refl)|].
  exact (Habsent (str "") (str "ON") (or_introl eq_refl)).
Defined.

(** ** Device classification *)

Section Numbers.

Lemma isDigit_cases c :
  JS.isDigit c = true ->
  In c ["0"; "1"; "2"; "3"; "4"; "5"; "6"; "7"; "8"; "9"]%char.
Proof.
  destruct c as [[] [] [] [] [] [] [] []]; (discriminate || (intros _; simpl; tauto)).
Qed.

(** A decimal digit is what [hexValue] reads below ten. *)
Lemma hexValue_decimal c d :
  Num.hexValue c = Some d -> (d <? 10) = true -> JS.isDigit c = true.
Proof.
  destruct c as [[] [] [] [] [] [] [] []]; vm_compute; try congruence;
    intros [= <-] Hd; vm_compute in Hd; congruence.
Qed.

Lemma digitsFrom_all_digits s acc n :
  Num.digitsFrom 10 acc s = Some n -> JS.all_chars JS.isDigit s = true.
Proof.
  revert acc. induction s as [|a s IH]; intros acc; [done|].
  simpl. destruct (Num.hexValue a) as [d|] eqn:Hd; [|done].
  destruct (d <? 10) eqn:Hlt; [|done].
  intros Hs. rewrite (hexValue_decimal _ _ Hd Hlt). simpl. by eapply IH.
Qed.

Lemma span_all p (s : string) :
  JS.all_chars p s = true -> span p s = (s, EmptyString).
Proof.
  induction s as [|a s IH]; simpl; [done|].
  destruct (p a); [|done]. simpl. intros Hs. by rewrite (IH Hs).
Qed.

Lemma append_empty_r (s : string) : s +:+ EmptyString = s.
Proof. induction s as [|a s IH]; [done|]. rewrite append_cons. by rewrite IH. Qed.

Lemma trimStart_digit a (s : string) :
  JS.isDigit a = true -> JS.trimStart (String a s) = String a s.
Proof. intros Ha. apply isDigit_cases in Ha. simpl in Ha. by repeat destruct Ha as [<-|Ha]. Qed.

Lemma trimEnd_digits (s : string) :
  JS.all_chars JS.isDigit s = true -> JS.trimEnd s = s.
Proof.
  induction s as [|a s IH]; [done|]. simpl.
  destruct (JS.isDigit a) eqn:Ha; [|done]. simpl. intros Hs. rewrite (IH Hs).
  destruct s; [|done].
  apply isDigit_cases in Ha. simpl in Ha. by repeat destruct Ha as [<-|Ha].
Qed.

Lemma unsignedDecimal_digits s n :
  Num.digits 10 s = Some n -> Num.unsignedDecimal s = Some (inject_Z n).
Proof.
  unfold Num.digits. destruct (JS.nonempty s) eqn:Hne; [|done]. intros Hn.
  unfold Num.unsignedDecimal.
  rewrite (span_all _ _ (digitsFrom_all_digits _ _ _ Hn)).
  cbv iota beta. rewrite Hne. simpl orb. cbv iota.
  rewrite append_empty_r, Hn. simpl Num.exponent. cbv iota.
  unfold Num.scale10. simpl. by rewrite Z.mul_1_r.
Qed.

(** Unary plus on a plain string of decimal digits is the number they
    denote. *)
Lemma StringToNumber_digits s n :
  Num.digits 10 s = Some n -> Num.StringToNumber s = Finite (inject_Z n).
Proof.
  intros Hn. pose proof (unsignedDecimal_digits _ _ Hn) as Hu.
  unfold Num.digits in Hn. destruct (JS.nonempty s) eqn:Hne; [|done].
  pose proof (digitsFrom_all_digits _ _ _ Hn) as Hall.
  unfold Num.StringToNumber, JS.trim.
  destruct s as [|a s]; [done|].
  simpl in Hall. destruct (JS.isDigit a) eqn:Ha; [|done]. simpl in Hall.
  rewrite (trimStart_digit _ _ Ha).
  rewrite trimEnd_digits by (simpl; by rewrite Ha).
  assert (Hdec : Num.strDecimalLiteral false (String a s) = Finite (inject_Z n)).
  { unfold Num.strDecimalLiteral. rewrite Hu.
    apply isDigit_cases in Ha. simpl in Ha. by repeat destruct Ha as [<-|Ha]. }
  apply isDigit_cases in Ha. simpl in Ha.
  repeat destruct Ha as [<-|Ha]; try done.
  destruct s as [|b s]; [done|].
  simpl in Hall. destruct (JS.isDigit b) eqn:Hb; [|done].
  apply isDigit_cases in Hb. simpl in Hb.
  by repeat destruct Hb as [<-|Hb].
Qed.

Lemma le1920_integer n : Num.le1920 (Finite (inject_Z n)) = (n <=? 1920).
Proof.
  unfold Num.le1920, Qle_bool. simpl.
  change (Z.pos (1 * 2 ^ 43)) with 8796093022208.
  change (Z.pos (2 ^ 43)) with 8796093022208.
  destruct (Z.leb_spec (n * 8796093022208) ((1920 * 8796093022208 + 1 * 1) * 1)),
           (Z.leb_spec n 1920); (done || (exfalso; lia)).
Qed.

Lemma screenWidth_digits (s rest : string) :
  JS.all_chars JS.isDigit s = true ->
  screenWidth (s +:+ "x" +:+ rest) = s.
Proof.
  unfold screenWidth. induction s as [|a s IH].
  - intros _. done.
  - intros Hs. apply andb_prop in Hs as [Ha Hs].
    rewrite append_cons, split_cons, (IH Hs).
    apply isDigit_cases in Ha. simpl in Ha. by repeat destruct Ha as [<-|Ha].
Qed.

End Numbers.

Section Decimal.

Lemma hexValue_pretty_char (d : N) :
  (d < 10)%N -> Num.hexValue (pretty_N_char d) = Some (Z.of_N d).
Proof.
  intros Hd.
  assert (d = 0 \/ d = 1 \/ d = 2 \/ d = 3 \/ d = 4 \/ d = 5 \/ d = 6
          \/ d = 7 \/ d = 8 \/ d = 9)%N as Hcases by lia.
  by repeat destruct Hcases as [->|Hcases]; try subst d.
Qed.

(** Reading with an accumulator shifts it past the digits read. *)
Lemma digitsFrom_acc s acc :
  Num.digitsFrom 10 acc s =
  (fun v => acc * 10 ^ Z.of_nat (String.length s) + v) <$> Num.digitsFrom 10 0 s.
Proof.
  revert acc. induction s as [|a s IH]; intros acc.
  - simpl. f_equal. lia.
  - cbn [Num.digitsFrom String.length]. destruct (Num.hexValue a) as [d|]; [|done].
    destruct (d <? 10); [|done].
    rewrite (IH (acc * 10 + d)), (IH (0 * 10 + d)).
    destruct (Num.digitsFrom 10 0 s) as [v|]; [|done]. simpl. f_equal.
    rewrite Nat2Z.inj_succ, Z.pow_succ_r by lia. lia.
Qed.

Lemma digitsFrom_pretty_go (x : N) (s : string) v :
  Num.digitsFrom 10 0 s = Some v ->
  Num.digitsFrom 10 0 (pretty_N_go x s)
  = Some (Z.of_N x * 10 ^ Z.of_nat (String.length s) + v).
Proof.
  revert s v. induction (N.lt_wf_0 x) as [x _ IH]; intros s v Hs.
  assert (x = 0 \/ 0 < x)%N as [->|Hx] by lia.
  - rewrite pretty_N_go_0, Hs. f_equal; lia.
  - rewrite pretty_N_go_step by done.
    assert (Hd : (x `mod` 10 < 10)%N) by (apply N.mod_lt; lia).
    erewrite IH; [| by apply N.div_lt |].
    2:{ cbn [Num.digitsFrom]. rewrite (hexValue_pretty_char _ Hd).
        destruct (Z.ltb_spec (Z.of_N (x `mod` 10)) 10); [|lia].
        rewrite digitsFrom_acc, Hs. reflexivity. }
    f_equal. cbn [String.length]. rewrite Nat2Z.inj_succ, Z.pow_succ_r by lia.
    rewrite (N.div_mod x 10) at 3 by lia. lia.
Qed.

(** Reading the decimal representation of a natural number gives it back. *)
Lemma digits_pretty (n : N) : Num.digits 10 (pretty n) = Some (Z.of_N n).
Proof.
  unfold pretty, pretty_N. case_decide as Hn; [by subst|].
  pose proof (digitsFrom_pretty_go n EmptyString 0 eq_refl) as Hg.
  unfold Num.digits. destruct (pretty_N_go n EmptyString) eqn:Hp.
  - simpl in Hg. injection Hg. lia.
  - simpl JS.nonempty. cbv iota. rewrite Hg. f_equal. simpl. lia.
Qed.

End Decimal.

Section Device.
Context `{UserAgentParser}.

Lemma getDevice_desktop userAgent screen :
  parsedType userAgent = "desktop" ->
  getDevice userAgent screen =
  if JS.nonempty screen && Num.le1920 (Num.StringToNumber (screenWidth screen))
  then "laptop" else "desktop".
Proof. intros Ht. unfold getDevice. rewrite Ht. reflexivity. Qed.

Lemma getDevice_other userAgent screen :
  parsedType userAgent <> "desktop" ->
  getDevice userAgent screen = parsedType userAgent.
Proof.
  intros Ht. unfold getDevice. apply String.eqb_neq in Ht. by rewrite Ht.
Qed.

Lemma parsedType_nonempty userAgent : parsedType userAgent <> EmptyString.
Proof.
  unfold parsedType. destruct (device_type userAgent) as [| |s]; [done..|].
  by destruct s.
Qed.

End Device.

(** C9.  [getDevice] turns a parsed ["desktop"] into ["laptop"] exactly when
    the screen string is present (not empty) and its width, converted by
    unary plus, is at most 1920; for a width written as decimal digits, such
    as the decimal representation of a natural number, this is the comparison
    of the number they denote with 1920.  A type other than
    ["desktop"] is returned as parsed: a non-empty type reported by the
    parser is the parsed type, and when it is not ["desktop"] it is the
    result whatever the screen, so a ["tablet"] on ["768x1024"] stays a
    ["tablet"].  For a user agent without a parsed
    device type, ["1366x768"] gives ["laptop"], ["2560x1440"] gives
    ["desktop"] and the empty screen gives ["desktop"].  The result is never
    the empty string, ["desktop"] standing in when the parser yields no
    type. *)
Theorem getDevice_laptop_rule `{UserAgentParser} (userAgent screen : string) :
  (parsedType userAgent = "desktop" ->
     (getDevice userAgent screen = "laptop" <->
        JS.nonempty screen = true
        /\ Num.le1920 (Num.StringToNumber (screenWidth screen)) = true)
     /\ (getDevice userAgent screen = "laptop" \/ getDevice userAgent screen = "desktop")
     /\ (forall (width rest : string) (n : Z),
           Num.digits 10 width = Some n ->
           getDevice userAgent (width +:+ "x" +:+ rest) =
           if n <=? 1920 then "laptop" else "desktop")
     /\ (forall (w : N) (rest : string),
           getDevice userAgent (pretty w +:+ "x" +:+ rest) =
           if (w <=? 1920)%N then "laptop" else "desktop")
     /\ getDevice userAgent "1366x768" = "laptop"
     /\ getDevice userAgent "2560x1440" = "desktop"
     /\ getDevice userAgent "" = "desktop")
  /\ (parsedType userAgent <> "desktop" ->
       getDevice userAgent screen = parsedType userAgent)
  /\ getDevice userAgent screen <> EmptyString
  /\ (truthy (device_type userAgent) = false -> parsedType userAgent = "desktop")
  /\ (forall t : string,
        device_type userAgent = str t -> JS.nonempty t = true ->
        parsedType userAgent = t
        /\ (t <> "desktop" -> getDevice userAgent screen = t))
  /\ (device_type userAgent = str "tablet" ->
       getDevice userAgent "768x1024" = "tablet"
       /\ getDevice userAgent "1366x768" = "tablet"
       /\ getDevice userAgent "" = "tablet")
  /\ (device_type userAgent = str "mobile" ->
       getDevice userAgent "390x844" = "mobile").
Proof.
  split.
  { intros Ht. rewrite !(getDevice_desktop _ _ Ht).
    split.
    { destruct (JS.nonempty screen); simpl; [|split; [done|by intros [? _]]].
      destruct (Num.le1920 _); split; (done || by intros [_ ?]). }
    split; [destruct (_ && _); [left|right]; reflexivity|].
    assert (Hdigits : forall (width rest : string) (n : Z),
               Num.digits 10 width = Some n ->
               getDevice userAgent (width +:+ "x" +:+ rest) =
               if n <=? 1920 then "laptop" else "desktop").
    2:{ split; [exact Hdigits|]. split; [|by repeat split].
        intros w rest. rewrite (Hdigits _ rest _ (digits_pretty w)).
        destruct (Z.leb_spec (Z.of_N w) 1920), (N.leb_spec w 1920);
          (done || (exfalso; lia)). }
    intros width rest n Hn. rewrite (getDevice_desktop _ _ Ht).
    assert (Hall : JS.all_chars JS.isDigit width = true).
    { unfold Num.digits in Hn. destruct (JS.nonempty width); [|done].
      by eapply digitsFrom_all_digits. }
    rewrite (screenWidth_digits _ _ Hall), (StringToNumber_digits _ _ Hn), le1920_integer.
    assert (JS.nonempty (width +:+ "x" +:+ rest) = true) as ->; [|done].
    apply nonempty_append_l. unfold Num.digits in Hn. by destruct (JS.nonempty width). }
  split; [apply getDevice_other|].
  split.
  { unfold getDevice. pose proof (parsedType_nonempty userAgent).
    by destruct (_ && _). }
  split.
  { unfold parsedType. destruct (device_type userAgent) as [| |s]; [done..|].
    simpl. by intros ->. }
  assert (Hreported : forall t : string,
             device_type userAgent = str t -> JS.nonempty t = true ->
             parsedType userAgent = t).
  { intros t Ht Hne. unfold parsedType. by rewrite Ht, Hne. }
  split.
  { intros t Ht Hne. split; [by apply Hreported|].
    intros Hd. rewrite getDevice_other; rewrite (Hreported t Ht Hne); done. }
  split.
  { intros Ht. pose proof (Hreported _ Ht eq_refl) as Hp.
    repeat split; (rewrite getDevice_other; rewrite Hp; done). }
  intros Ht. pose proof (Hreported _ Ht eq_refl) as Hp.
  rewrite getDevice_other; rewrite Hp; done.
Qed.

Lemma getDevice_laptop_rule_witness :
  @getDevice sampleParser "Mozilla/5.0 (X11; Linux x86_64)" "1366x768" = "laptop"
  /\ @getDevice sampleParser "Mozilla/5.0 (X11; Linux x86_64)" "2560x1440" = "desktop"
  /\ @getDevice sampleParser "Mozilla/5.0 (iPad; CPU OS 17_0 like Mac OS X)" "768x1024"
     = "tablet".
Proof.
  destruct (@getDevice_laptop_rule sampleParser "Mozilla/5.0 (X11; Linux x86_64)" "")
    as [Hd _].
  destruct (Hd eq_refl) as (_ & _ & _ & _ & H1 & H2 & _).
  destruct (@getDevice_laptop_rule sampleParser
              "Mozilla/5.0 (iPad; CPU OS 17_0 like Mac OS X)" "768x1024")
    as (_ & _ & _ & _ & _ & Ht & _).
  destruct (Ht eq_refl) as (H3 & _).
  exact (conj H1 (conj H2 H3)).
Defined.

(** ** Geolocation *)

Section Emits.
Context {A B : Type} (P : Event -> bool).

Lemma emits_ret (a : A) : emits P (mret a).
Proof. intros h. reflexivity. Qed.

Lemma emits_bind (m : M A) (f : A -> M B) :
  emits P m -> (forall a, emits P (f a)) -> emits P (m ≫= f).
Proof.
  intros Hm Hf h. rewrite events_bind, forallb_app, Hm. apply Hf.
Qed.

Lemma emits_emit e : P e = true -> emits P (emit e).
Proof. intros He h. simpl. by rewrite He. Qed.

Lemma emits_debug env msg : P (EvLog msg) = true -> emits P (debug env msg).
Proof.
  intros He h. unfold debug, when.
  destruct (is_set (DEBUG_GEO env)); simpl; [by rewrite He|done].
Qed.

Lemma emits_getHandle : emits P getHandle.
Proof. intros h. reflexivity. Qed.

Lemma emits_setHandle r : emits P (setHandle r).
Proof. intros h. reflexivity. Qed.

End Emits.

Section Geo.
Context `{Platform}.
Variable env : Env.

Lemma events_debug msg h :
  events (debug env msg h) = if is_set (DEBUG_GEO env) then [EvLog msg] else [].
Proof. unfold debug, when. by destruct (is_set (DEBUG_GEO env)). Qed.

Lemma handle_debug msg h : handle (debug env msg h) = h.
Proof. unfold debug, when. by destruct (is_set (DEBUG_GEO env)). Qed.

(** The database tier reads no request header. *)
Lemma databaseTier_no_header_read ip :
  emits (fun e => negb (isHeaderRead e)) (databaseTier env ip).
Proof.
  unfold databaseTier, openDatabase, lookup.
  repeat first
    [ apply emits_ret
    | apply emits_getHandle
    | apply emits_setHandle
    | apply emits_emit; reflexivity
    | apply emits_debug; reflexivity
    | apply emits_bind; [|intros ?]
    | match goal with
      | |- emits _ (match ?x with _ => _ end) => destruct x
      end ].
Qed.

End Geo.

(** C7.  With an empty [ip], or an [ip] that [isLocalhost] reports as local,
    [getLocation] returns [null] at once, whatever the headers and
    [hasPayloadIP]: the database handle is left as it was, and the only
    events are the locality test itself (none for an empty [ip]) and the
    diagnostic line under [DEBUG_GEO]; no header is read, no file is
    accessed, no database is opened and no lookup is issued. *)
Theorem getLocation_local_short_circuit `{Platform} env ip (headers : Headers)
    hasPayloadIP h :
  JS.nonempty ip = false \/ isLocalhost ip = true ->
  let o := run (getLocation env ip headers hasPayloadIP) h in
  value o = None
  /\ handle o = h
  /\ events o =
       (if JS.nonempty ip then [EvIsLocalhost ip] else [])
       ++ (if is_set (DEBUG_GEO env)
           then [EvLog ("[GEO] Skipping localhost IP: " +:+ ip)] else [])
  /\ forallb (fun e => negb (isHeaderRead e) && negb (isDatabaseWork e)) (events o) = true.
Proof.
  intros Hlocal o. subst o. unfold run, getLocation.
  set (first := if negb (JS.nonempty ip) then mret true
                else emit (EvIsLocalhost ip) ;; mret (isLocalhost ip)).
  assert (Hfirst : value (first h) = true /\ handle (first h) = h
                   /\ events (first h) = if JS.nonempty ip then [EvIsLocalhost ip] else []).
  { subst first. destruct (JS.nonempty ip) eqn:Hne; [|done].
    destruct Hlocal as [?|Hloc]; [done|]. simpl. by rewrite Hloc. }
  destruct Hfirst as (Hv & Hh & He).
  rewrite value_bind, handle_bind, events_bind, Hv, Hh, He.
  rewrite value_bind, handle_bind, events_bind, handle_debug, events_debug.
  change (events (@mret M _ (option LocationResult) None h)) with (@nil Event). rewrite app_nil_r.
  split; [reflexivity|]. split; [reflexivity|]. split; [reflexivity|].
  by destruct (JS.nonempty ip), (is_set (DEBUG_GEO env)).
Qed.

Lemma getLocation_local_short_circuit_witness :
  value (run (@getLocation samplePlatform defaultEnv "127.0.0.1"
                {[ "cf-ipcountry" := "DE" ]} false) None) = None
  /\ handle (run (@getLocation samplePlatform defaultEnv "127.0.0.1"
                {[ "cf-ipcountry" := "DE" ]} false) None) = None.
Proof.
  destruct (@getLocation_local_short_circuit samplePlatform defaultEnv "127.0.0.1"
              {[ "cf-ipcountry" := "DE" ]} false None (or_intror eq_refl))
    as (Hv & Hh & _).
  exact (conj Hv Hh).
Defined.

(** C6.  For a non-empty, non-local [ip], when [hasPayloadIP] is true or
    [SKIP_LOCATION_HEADERS] is set, [getLocation] reads no header at all,
    whatever the headers hold, and is the database tier: same value, same
    handle afterwards, and the events of the database tier after the locality
    test and the diagnostic line. *)
Theorem getLocation_payload_ip_skips_headers `{Platform} env ip (headers : Headers)
    hasPayloadIP h :
  JS.nonempty ip = true ->
  isLocalhost ip = false ->
  hasPayloadIP = true \/ is_set (SKIP_LOCATION_HEADERS env) = true ->
  let o := run (getLocation env ip headers hasPayloadIP) h in
  let d := run (databaseTier env ip) h in
  value o = value d
  /\ handle o = handle d
  /\ events o =
       EvIsLocalhost ip
       :: (if is_set (DEBUG_GEO env)
           then [EvLog ("[GEO] Looking up location for IP: " +:+ ip)] else [])
       ++ events d
  /\ forallb (fun e => negb (isHeaderRead e)) (events o) = true.
Proof.
  intros Hne Hloc Hskip o d.
  assert (Hcond : negb hasPayloadIP && negb (is_set (SKIP_LOCATION_HEADERS env)) = false).
  { destruct Hskip as [->| ->]; [done|]. apply andb_false_r. }
  assert (Ho : value o = value d /\ handle o = handle d
               /\ events o = EvIsLocalhost ip
                    :: (if is_set (DEBUG_GEO env)
                        then [EvLog ("[GEO] Looking up location for IP: " +:+ ip)] else [])
                    ++ events d).
  { subst o d. unfold run, getLocation. rewrite Hne, Hcond, Hloc. simpl negb. cbv iota.
    repeat (progress
              (rewrite ?value_bind, ?handle_bind, ?events_bind,
                       ?handle_debug, ?events_debug;
               cbn [value handle events mret M_ret emit app])).
    repeat split; reflexivity. }
  destruct Ho as (Hv & Hh & He). repeat split; try assumption.
  rewrite He. subst d. unfold run.
  cbn [forallb isHeaderRead negb andb]. rewrite forallb_app.
  rewrite (databaseTier_no_header_read env ip h), andb_true_r.
  by destruct (is_set (DEBUG_GEO env)).
Qed.

Lemma getLocation_payload_ip_skips_headers_witness :
  value (run (@getLocation samplePlatform defaultEnv "203.0.113.5"
                {[ "cf-ipcountry" := "DE" ]} true) None)
  = Some {| country := str "US"; region := str "US-CA"; city := str "Los Angeles" |}.
Proof.
  exact (proj1 (@getLocation_payload_ip_skips_headers samplePlatform defaultEnv
                  "203.0.113.5" {[ "cf-ipcountry" := "DE" ]} true None
                  eq_refl eq_refl (or_introl eq_refl))).
Defined.

(** For contrast: the same request with an address taken from the headers is
    answered from the provider headers, without touching the database. *)
Example getLocation_header_tier :
  run (@getLocation samplePlatform defaultEnv "203.0.113.5"
         {[ "cf-ipcountry" := "DE" ]} false) None
  = mkOut (Some {| country := str "DE"; region := undefined; city := null |}) None
      [EvIsLocalhost "203.0.113.5"; EvHeaderGet "cf-ipcountry";
       EvHeaderGet "cf-region-code"; EvHeaderGet "cf-ipcity"].
Proof. reflexivity. Qed.

(** With an address supplied by the caller, port included, the database is
    opened and queried with the port stripped; no header is read. *)
Example getLocation_database_tier :
  events (run (@getLocation samplePlatform defaultEnv "203.0.113.5:443"
         {[ "cf-ipcountry" := "DE" ]} true) None)
  = [EvIsLocalhost "203.0.113.5:443"; EvFsAccess "/app/geo/GeoLite2-City.mmdb";
     EvMaxmindOpen "/app/geo/GeoLite2-City.mmdb"; EvLookup "203.0.113.5"].
Proof. reflexivity. Qed.

(** ** IP blocklist *)

Section BlocklistFacts.
Context `{AddressLib}.

Lemma hasBlockedIp_unset env clientIp :
  is_set (IGNORE_IP env) = false -> hasBlockedIp env clientIp = Returns (VBool false).
Proof.
  unfold hasBlockedIp, is_set. destruct (IGNORE_IP env) as [s|]; [|done].
  by intros ->.
Qed.

Lemma hasBlockedIp_set env clientIp ignoreIps :
  IGNORE_IP env = Some ignoreIps -> JS.nonempty ignoreIps = true ->
  hasBlockedIp env clientIp = arrayFind (matchesRule clientIp) (rules ignoreIps).
Proof. intros Hc Hn. unfold hasBlockedIp. by rewrite Hc, Hn. Qed.

(** A rule without a slash after its first character is compared, never
    parsed. *)
Lemma matchesRule_plain clientIp rule :
  JS.indexOf rule "/"%char <= 0 ->
  matchesRule clientIp rule = Returns (String.eqb rule clientIp).
Proof.
  intros Hi. unfold matchesRule.
  destruct (String.eqb rule clientIp); [done|].
  destruct (Z.ltb_spec 0 (JS.indexOf rule "/"%char)); [lia|done].
Qed.

(** When the predicate raises. *)
Lemma matchesRule_throws clientIp rule msg :
  matchesRule clientIp rule = Throws msg <->
  rule <> clientIp
  /\ 0 < JS.indexOf rule "/"%char
  /\ (parse clientIp = Throws msg
      \/ (exists addr, parse clientIp = Returns addr) /\ parseCIDR rule = Throws msg).
Proof.
  unfold matchesRule.
  destruct (String.eqb_spec rule clientIp) as [->|Hne].
  { split; [done|]. by intros [? _]. }
  destruct (Z.ltb_spec 0 (JS.indexOf rule "/"%char)) as [Hi|Hi].
  2:{ split; [done|]. intros (_ & ? & _). lia. }
  destruct (parse clientIp) as [addr|e] eqn:Hp.
  - destruct (parseCIDR rule) as [range|e] eqn:Hr.
    + split; [done|]. intros (_ & _ & [?|[_ ?]]); done.
    + split.
      * intros [= ->]. repeat split; try done. right. split; [by exists addr|done].
      * intros (_ & _ & [?|[_ [= ->]]]); done.
  - split.
    + intros [= ->]. repeat split; try done. by left.
    + intros (_ & _ & [[= ->]|[[? ?] _]]); done.
Qed.

(** [arrayFind] raises exactly when the predicate raises on the first rule it
    does not reject. *)
Lemma find_throws predicate ips msg :
  arrayFind predicate ips = Throws msg <->
  exists before rule after,
    ips = before ++ rule :: after
    /\ Forall (fun r => predicate r = Returns false) before
    /\ predicate rule = Throws msg.
Proof.
  induction ips as [|ip rest IH]; simpl.
  { split; [done|]. intros (before & rule & after & Hs & _). by destruct before. }
  destruct (predicate ip) as [[|]|e] eqn:Hp.
  - split; [done|].
    intros ([|b before] & rule & after & Hs & Hb & Hr); simplify_eq/=.
    + congruence.
    + inversion Hb; congruence.
  - rewrite IH. split.
    + intros (before & rule & after & -> & Hb & Hr).
      exists (ip :: before), rule, after.
      split; [done|]. split; [by constructor|done].
    + intros ([|b before] & rule & after & Hs & Hb & Hr); simplify_eq/=.
      * congruence.
      * inversion Hb; subst. by exists before, rule, after.
  - split.
    + intros [= ->]. by exists [], ip, rest.
    + intros ([|b before] & rule & after & Hs & Hb & Hr); simplify_eq/=.
      * congruence.
      * inversion Hb; congruence.
Qed.

Lemma find_returns predicate ips :
  Forall (fun r => exists b, predicate r = Returns b) ips ->
  exists v, arrayFind predicate ips = Returns v.
Proof.
  induction 1 as [|ip rest [b Hb] _ IH]; simpl; [by eexists|].
  rewrite Hb. destruct b; [by eexists|exact IH].
Qed.

Lemma find_none predicate ips :
  Forall (fun r => predicate r = Returns false) ips ->
  arrayFind predicate ips = Returns VUndefined.
Proof. induction 1 as [|ip rest Hb _ IH]; simpl; [done|]. by rewrite Hb. Qed.

(** What [arrayFind] returns is [undefined] or a rule the predicate accepts. *)
Lemma find_found predicate ips v :
  arrayFind predicate ips = Returns v ->
  v = VUndefined
  \/ exists rule, v = VString rule /\ In rule ips /\ predicate rule = Returns true.
Proof.
  induction ips as [|ip rest IH]; simpl; [intros [= <-]; by left|].
  destruct (predicate ip) as [[|]|e] eqn:Hp; [| |done].
  - intros [= <-]. right. exists ip. auto.
  - intros Hf. destruct (IH Hf) as [?|(rule & ? & ? & ?)]; [by left|].
    right. exists rule. auto.
Qed.

Lemma matchesRule_returns clientIp rule :
  (exists addr, parse clientIp = Returns addr) ->
  (0 < JS.indexOf rule "/"%char -> exists range, parseCIDR rule = Returns range) ->
  exists b, matchesRule clientIp rule = Returns b.
Proof.
  intros [addr Ha] Hr. unfold matchesRule.
  destruct (String.eqb rule clientIp); [by eexists|].
  destruct (Z.ltb_spec 0 (JS.indexOf rule "/"%char)) as [Hi|Hi]; [|by eexists].
  destruct (Hr Hi) as [range Hrange]. rewrite Ha, Hrange. by eexists.
Qed.

End BlocklistFacts.

(** C1 (as amended).  [hasBlockedIp] raises no error when the blocklist is
    unset or empty, nor when the client address parses and every rule with a
    slash after its first character parses as a range.  A rule without such a
    slash is compared with the client address and never parsed.  The
    predicate raises exactly on a rule that differs from the client address,
    has such a slash, and is reached with a client address or a rule that
    does not parse; the call raises exactly when the predicate raises on a
    rule that all earlier rules were found not to match, and the rules after
    it are not evaluated. *)
Theorem hasBlockedIp_raises_on_parse_failure `{AddressLib} env clientIp :
  (is_set (IGNORE_IP env) = false ->
     hasBlockedIp env clientIp = Returns (VBool false))
  /\ (forall ignoreIps,
        IGNORE_IP env = Some ignoreIps ->
        (exists addr, parse clientIp = Returns addr) ->
        (forall rule, In rule (rules ignoreIps) ->
                      0 < JS.indexOf rule "/"%char ->
                      exists range, parseCIDR rule = Returns range) ->
        exists v, hasBlockedIp env clientIp = Returns v)
  /\ (forall rule,
        JS.indexOf rule "/"%char <= 0 ->
        matchesRule clientIp rule = Returns (String.eqb rule clientIp))
  /\ (forall rule msg,
        matchesRule clientIp rule = Throws msg <->
        rule <> clientIp
        /\ 0 < JS.indexOf rule "/"%char
        /\ (parse clientIp = Throws msg
            \/ (exists addr, parse clientIp = Returns addr)
               /\ parseCIDR rule = Throws msg))
  /\ (forall ignoreIps msg,
        IGNORE_IP env = Some ignoreIps ->
        JS.nonempty ignoreIps = true ->
        (hasBlockedIp env clientIp = Throws msg <->
         exists before rule after,
           rules ignoreIps = before ++ rule :: after
           /\ Forall (fun r => matchesRule clientIp r = Returns false) before
           /\ matchesRule clientIp rule = Throws msg)).
Proof.
  split; [apply hasBlockedIp_unset|].
  split.
  { intros ignoreIps Hc Haddr Hrules.
    destruct (JS.nonempty ignoreIps) eqn:Hn.
    - rewrite (hasBlockedIp_set _ _ _ Hc Hn). apply find_returns.
      apply Forall_forall. intros rule Hin.
      apply matchesRule_returns; [done|]. apply Hrules. by apply list_elem_of_In.
    - exists (VBool false). apply hasBlockedIp_unset. by rewrite Hc. }
  split; [apply matchesRule_plain|].
  split; [apply matchesRule_throws|].
  intros ignoreIps msg Hc Hn. rewrite (hasBlockedIp_set _ _ _ Hc Hn).
  apply find_throws.
Qed.

Lemma hasBlockedIp_raises_on_parse_failure_witness :
  exists v, @hasBlockedIp DottedQuad.lib (blocklistEnv "192.0.2.1, 203.0.113.0/24")
              "203.0.113.77" = Returns v.
Proof.
  destruct (@hasBlockedIp_raises_on_parse_failure DottedQuad.lib
              (blocklistEnv "192.0.2.1, 203.0.113.0/24") "203.0.113.77")
    as (_ & Hok & _).
  apply (Hok "192.0.2.1, 203.0.113.0/24" eq_refl).
  - by exists [203; 0; 113; 77].
  - intros rule [<-|[<-|[]]] Hi.
    + vm_compute in Hi. discriminate.
    + by exists ([203; 0; 113; 0], 24).
Defined.

(** C1 as stated fails: a malformed CIDR rule makes the whole call raise, and
    the exact rule after it, which names the client, is never reached; so
    does a client address that does not parse, once a CIDR rule is reached. *)
Lemma hasBlockedIp_malformed_rule_raises :
  @hasBlockedIp DottedQuad.lib (blocklistEnv "10.0.0.0/abc, 203.0.113.7") "203.0.113.7"
  = Throws "ipaddr: the address has neither IPv6 nor IPv4 CIDR format"
  /\ @hasBlockedIp DottedQuad.lib (blocklistEnv "203.0.113.0/24") "unknown"
     = Throws "ipaddr: the address has neither IPv6 nor IPv4 format".
Proof. split; reflexivity. Qed.

(** C2 (as amended).  With the blocklist ["203.0.113.0/24"],
    [hasBlockedIp("203.0.113.77")] returns the matching rule
    ["203.0.113.0/24"], a truthy value, and [hasBlockedIp("203.0.114.1")]
    returns [undefined], a falsy value.  In general [hasBlockedIp] returns
    [false] when the blocklist is unset or empty and [undefined] when every
    rule is evaluated and none matches; a truthy result is always a rule of
    the list that matches the client address. *)
Theorem hasBlockedIp_result :
  (forall env,
      IGNORE_IP env = Some "203.0.113.0/24" ->
      @hasBlockedIp DottedQuad.lib env "203.0.113.77" = Returns (VString "203.0.113.0/24")
      /\ @hasBlockedIp DottedQuad.lib env "203.0.114.1" = Returns VUndefined)
  /\ ToBoolean (VString "203.0.113.0/24") = true
  /\ ToBoolean VUndefined = false
  /\ (forall (lib : AddressLib) env clientIp,
        is_set (IGNORE_IP env) = false ->
        hasBlockedIp env clientIp = Returns (VBool false))
  /\ (forall (lib : AddressLib) env ignoreIps clientIp,
        IGNORE_IP env = Some ignoreIps ->
        JS.nonempty ignoreIps = true ->
        Forall (fun rule => matchesRule clientIp rule = Returns false) (rules ignoreIps) ->
        hasBlockedIp env clientIp = Returns VUndefined)
  /\ (forall (lib : AddressLib) env clientIp v,
        hasBlockedIp env clientIp = Returns v ->
        ToBoolean v = true ->
        exists ignoreIps rule,
          IGNORE_IP env = Some ignoreIps
          /\ In rule (rules ignoreIps)
          /\ matchesRule clientIp rule = Returns true
          /\ v = VString rule).
Proof.
  split.
  { intros env Hc. unfold hasBlockedIp. rewrite Hc. split; reflexivity. }
  split; [reflexivity|]. split; [reflexivity|].
  split; [intros lib; apply hasBlockedIp_unset|].
  split.
  { intros lib env ignoreIps clientIp Hc Hn Hall.
    rewrite (hasBlockedIp_set _ _ _ Hc Hn). by apply find_none. }
  intros lib env clientIp v Hv Ht.
  unfold hasBlockedIp in Hv.
  destruct (IGNORE_IP env) as [ignoreIps|] eqn:Hc; [|by simplify_eq].
  destruct (JS.nonempty ignoreIps); [|by simplify_eq].
  destruct (find_found _ _ _ Hv) as [->|(rule & -> & Hin & Hm)]; [done|].
  by exists ignoreIps, rule.
Qed.

Lemma hasBlockedIp_result_witness :
  @hasBlockedIp DottedQuad.lib (blocklistEnv "203.0.113.0/24") "203.0.113.77"
  = Returns (VString "203.0.113.0/24")
  /\ @hasBlockedIp DottedQuad.lib defaultEnv "203.0.113.77" = Returns (VBool false).
Proof.
  destruct hasBlockedIp_result as (Hex & _ & _ & Hunset & _).
  split.
  - exact (proj1 (Hex (blocklistEnv "203.0.113.0/24") eq_refl)).
  - exact (Hunset DottedQuad.lib defaultEnv "203.0.113.77" eq_refl).
Defined.

(** C2 as stated fails: what comes back on a match is the rule, not [true],
    and what comes back when no rule matches is [undefined], not [false]. *)
Lemma hasBlockedIp_not_boolean :
  @hasBlockedIp DottedQuad.lib (blocklistEnv "203.0.113.0/24") "203.0.113.77"
  <> Returns (VBool true)
  /\ @hasBlockedIp DottedQuad.lib (blocklistEnv "203.0.113.0/24") "203.0.114.1"
     <> Returns (VBool false).
Proof. split; discriminate. Qed.

(** * Further properties *)

(** ** Address normalisation, continued *)

Section StripPortMore.

Lemma substring_is_prefix (s : string) n :
  exists rest, s = String.substring 0 n s +:+ rest.
Proof.
  revert n. induction s as [|a s IH]; intros n.
  - exists EmptyString. by destruct n.
  - destruct n as [|n]; simpl.
    + by exists (String a s).
    + destruct (IH n) as [rest Hr]. exists rest. rewrite append_cons. by rewrite <- Hr.
Qed.

Lemma slice_is_prefix (s : string) n : exists rest, s = JS.slice s 0 n +:+ rest.
Proof.
  unfold JS.slice.
  assert (JS.clamp (Z.of_nat (String.length s)) 0 = 0) as ->.
  { unfold JS.clamp. replace (0 <? 0) with false by done. lia. }
  apply substring_is_prefix.
Qed.

Lemma stripLastColon_is_prefix ip : exists rest, ip = stripLastColon ip +:+ rest.
Proof.
  unfold stripLastColon.
  destruct (negb _); [|exists EmptyString; by rewrite append_empty_r].
  destruct (_ || _); [apply slice_is_prefix|].
  exists EmptyString; by rewrite append_empty_r.
Qed.

Lemma hostname_char_not c : hostname_char c = true -> c <> "["%char /\ c <> ":"%char.
Proof.
  intros Hc. split; intros ->; discriminate.
Qed.

Lemma hostname_no_colon s :
  JS.all_chars hostname_char s = true -> JS.find_first ":"%char s = None.
Proof.
  induction s as [|a s IH]; [done|]. simpl.
  intros [Ha Hs]%andb_prop.
  destruct (Ascii.eqb_spec a ":"%char) as [->|_]; [discriminate|].
  by rewrite (IH Hs).
Qed.

Lemma stripLastColon_cut pre post :
  JS.includes post ":"%char = false ->
  JS.includes (pre +:+ ":" +:+ post) "."%char = true \/ hostname_like pre = true ->
  stripLastColon (pre +:+ ":" +:+ post) = pre.
Proof.
  intros Hc%includes_false Hd.
  assert (Hl : JS.lastIndexOf (pre +:+ ":" +:+ post) ":"%char = Z.of_nat (String.length pre)).
  { unfold JS.lastIndexOf.
    change (pre +:+ ":" +:+ post) with (pre +:+ String ":"%char post).
    by rewrite (find_last_app _ _ _ Hc). }
  unfold stripLastColon. rewrite Hl.
  destruct (Z.eqb_spec (Z.of_nat (String.length pre)) (-1)); [exfalso; lia|].
  cbn [negb]. rewrite slice_prefix.
  destruct Hd as [-> | ->]; [done|]. by rewrite orb_true_r.
Qed.

Lemma stripLastColon_keep pre post :
  JS.includes post ":"%char = false ->
  JS.includes (pre +:+ ":" +:+ post) "."%char = false ->
  hostname_like pre = false ->
  stripLastColon (pre +:+ ":" +:+ post) = pre +:+ ":" +:+ post.
Proof.
  intros Hc%includes_false Hd Hh.
  assert (Hl : JS.lastIndexOf (pre +:+ ":" +:+ post) ":"%char = Z.of_nat (String.length pre)).
  { unfold JS.lastIndexOf.
    change (pre +:+ ":" +:+ post) with (pre +:+ String ":"%char post).
    by rewrite (find_last_app _ _ _ Hc). }
  unfold stripLastColon. rewrite Hl.
  destruct (Z.eqb_spec (Z.of_nat (String.length pre)) (-1)); [exfalso; lia|].
  cbn [negb]. by rewrite slice_prefix, Hd, Hh.
Qed.

Lemma startsWith_bracket_false (s t : string) :
  hostname_like s = true -> JS.startsWith (s +:+ t) "[" = false.
Proof.
  unfold hostname_like. destruct s as [|a s]; [done|].
  intros [_ [Ha _]%andb_prop]%andb_prop. rewrite append_cons.
  cbn [JS.startsWith].
  destruct (Ascii.eqb_spec a "["%char) as [->|]; [discriminate|done].
Qed.

End StripPortMore.

(** X1.  [stripPort] only ever cuts at the end: its result is a prefix of
    its input. *)
Theorem stripPort_prefix (ip : string) :
  exists rest, ip = stripPort ip +:+ rest.
Proof.
  unfold stripPort. destruct (JS.startsWith ip "["); [|apply stripLastColon_is_prefix].
  destruct (negb _); [apply slice_is_prefix | apply stripLastColon_is_prefix].
Qed.

(** X2.  A host name made of letters, digits, dots and hyphens, followed by
    a colon and a port without a colon, loses the colon and the port. *)
Theorem stripPort_host_port (host port : string) :
  hostname_like host = true ->
  JS.includes port ":"%char = false ->
  stripPort (host +:+ ":" +:+ port) = host.
Proof.
  intros Hh Hp. unfold stripPort. rewrite (startsWith_bracket_false _ _ Hh).
  apply stripLastColon_cut; auto.
Qed.

Lemma stripPort_host_port_witness :
  stripPort "localhost:3000" = "localhost" /\ stripPort "example.com:8080" = "example.com".
Proof.
  split.
  - exact (stripPort_host_port "localhost" "3000" eq_refl eq_refl).
  - exact (stripPort_host_port "example.com" "8080" eq_refl eq_refl).
Defined.

(** X3.  An input that does not start with a bracket and holds a dot is cut
    at its last colon, whatever precedes it: an IPv4 address with a port
    loses the port, and an unbracketed IPv4-mapped IPv6 address such as
    [::ffff:192.0.2.1] loses its IPv4 part. *)
Theorem stripPort_dot_cuts_last_colon (pre post : string) :
  JS.startsWith (pre +:+ ":" +:+ post) "[" = false ->
  JS.includes post ":"%char = false ->
  JS.includes (pre +:+ ":" +:+ post) "."%char = true ->
  stripPort (pre +:+ ":" +:+ post) = pre.
Proof.
  intros Hs Hp Hd. unfold stripPort. rewrite Hs. apply stripLastColon_cut; auto.
Qed.

Lemma stripPort_dot_cuts_last_colon_witness :
  stripPort "::ffff:192.0.2.1" = "::ffff".
Proof.
  exact (stripPort_dot_cuts_last_colon "::ffff" "192.0.2.1" eq_refl eq_refl eq_refl).
Defined.

(** X4.  An input that does not start with a bracket and holds no dot is
    returned unchanged when it has no colon, and when it has at least two
    colons, as a bare IPv6 address has. *)
Theorem stripPort_unchanged (ip : string) :
  JS.startsWith ip "[" = false ->
  JS.includes ip "."%char = false ->
  JS.includes ip ":"%char = false
  \/ (exists a b c : string,
        ip = a +:+ ":" +:+ b +:+ ":" +:+ c /\ JS.includes c ":"%char = false) ->
  stripPort ip = ip.
Proof.
  intros Hs Hd Hc. unfold stripPort. rewrite Hs.
  destruct Hc as [Hc | (a & b & c & -> & Hc)].
  - by apply stripLastColon_no_colon.
  - replace (a +:+ ":" +:+ b +:+ ":" +:+ c) with ((a +:+ ":" +:+ b) +:+ ":" +:+ c) in *.
    2:{ by rewrite !append_assoc. }
    apply stripLastColon_keep; [done|done|].
    unfold hostname_like.
    destruct (JS.all_chars hostname_char (a +:+ ":" +:+ b)) eqn:Hall;
      [|by rewrite andb_false_r].
    apply hostname_no_colon in Hall.
    pose proof (includes_append_sep a b ":"%char) as Hi.
    unfold JS.includes in Hi.
    change (a +:+ String ":"%char b) with (a +:+ ":" +:+ b) in Hi.
    by rewrite Hall in Hi.
Qed.

Lemma stripPort_unchanged_witness :
  stripPort "2001:db8::1" = "2001:db8::1" /\ stripPort "localhost" = "localhost".
Proof.
  split.
  - apply stripPort_unchanged; [reflexivity|reflexivity|].
    right. exists "2001", "db8:", "1". split; reflexivity.
  - apply stripPort_unchanged; [reflexivity|reflexivity|].
    left. reflexivity.
Defined.

(** ** Client IP extraction, continued *)

Section Precedence.
Variable env : Env.
Variable headers : Headers.

Lemma scanHeaders_skip name rest h :
  candidate headers name = None ->
  value (scanHeaders env headers (name :: rest) h)
  = value (scanHeaders env headers rest h).
Proof.
  unfold candidate. simpl.
  destruct (headers !! toLowerCase name) as [v|]; [|done].
  destruct (JS.nonempty v); simpl; [|done].
  destruct (JS.nonempty (extractIp name v)); simpl; [|done].
  destruct (isPrivate (extractIp name v)); simpl; [|done].
  intros _. rewrite ?value_bind. apply scanHeaders_value_indep.
Qed.

Lemma scanHeaders_take name rest h ip :
  candidate headers name = Some ip ->
  value (scanHeaders env headers (name :: rest) h) = Some (name, ip).
Proof.
  unfold candidate. simpl.
  destruct (headers !! toLowerCase name) as [v|]; [|done].
  destruct (JS.nonempty v); simpl; [|done].
  destruct (JS.nonempty (extractIp name v)); simpl; [|done].
  destruct (isPrivate (extractIp name v)); simpl; [done|].
  by intros [= <-].
Qed.

(** The loop selects the first header of the list that contributes. *)
Lemma scanHeaders_first names h name ip :
  value (scanHeaders env headers names h) = Some (name, ip) <->
  exists before after,
    names = before ++ name :: after
    /\ Forall (fun n => candidate headers n = None) before
    /\ candidate headers name = Some ip.
Proof.
  induction names as [|n rest IH].
  { split; [done|]. intros (before & after & Hn & _). by destruct before. }
  destruct (candidate headers n) as [c|] eqn:Hn.
  - rewrite (scanHeaders_take _ _ _ _ Hn). split.
    + intros [= <- <-]. by exists [], rest.
    + intros ([|b before] & after & Hs & Hb & Hc); simplify_eq/=.
      * done || congruence.
      * inversion Hb; congruence.
  - rewrite (scanHeaders_skip _ _ _ Hn), IH. split.
    + intros (before & after & -> & Hb & Hc).
      exists (n :: before), after. split; [done|]. split; [by constructor|done].
    + intros ([|b before] & after & Hs & Hb & Hc).
      * injection Hs as -> ->. congruence.
      * injection Hs as -> ->. inversion Hb; subst. by exists before, after.
Qed.

Lemma scanHeaders_none names h :
  value (scanHeaders env headers names h) = None <->
  Forall (fun n => candidate headers n = None) names.
Proof.
  induction names as [|n rest IH]; [by split|].
  destruct (candidate headers n) as [c|] eqn:Hn.
  - rewrite (scanHeaders_take _ _ _ _ Hn). split; [done|].
    intros Hf. inversion Hf; congruence.
  - rewrite (scanHeaders_skip _ _ _ Hn), IH. split.
    + by constructor.
    + intros Hf. by inversion Hf.
Qed.

Lemma candidate_public name ip :
  candidate headers name = Some ip -> JS.nonempty ip = true /\ isPrivate ip = false.
Proof.
  unfold candidate. destruct (headers !! toLowerCase name) as [v|]; [|done].
  cbv zeta. destruct (JS.nonempty v); [|done]. simpl.
  destruct (JS.nonempty (extractIp name v)) eqn:He; [|done]. simpl.
  destruct (isPrivate (extractIp name v)) eqn:Hp; [done|]. simpl.
  by intros [= <-].
Qed.

Lemma getIpAddress_precedence_value h :
  overrideActive env headers = false ->
  value (getIpAddress env headers h)
  = snd <$> value (scanHeaders env headers IP_ADDRESS_HEADERS h).
Proof.
  intros Ho. rewrite getIpAddress_value. cbv zeta.
  unfold overrideActive in Ho. cbv zeta in Ho. by rewrite Ho.
Qed.

End Precedence.



(** X7.  On the precedence path, an address returned by [getIpAddress] is
    never one the private-address test rejects. *)
Theorem getIpAddress_never_private env (headers : Headers) h ip :
  overrideActive env headers = false ->
  value (run (getIpAddress env headers) h) = Some ip ->
  isPrivate ip = false.
Proof.
  intros Ho Hv. unfold run in Hv. rewrite (getIpAddress_precedence_value _ _ _ Ho) in Hv.
  destruct (value (scanHeaders env headers IP_ADDRESS_HEADERS h)) as [[name ip']|] eqn:Hs;
    [|done].
  injection Hv as <-. apply scanHeaders_first in Hs as (before & after & _ & _ & Hc).
  by apply candidate_public in Hc as [_ ?].
Qed.



Lemma getIpAddress_never_private_witness :
  isPrivate "203.0.113.9" = false.
Proof.
  exact (getIpAddress_never_private defaultEnv sampleHeaders None "203.0.113.9"
           eq_refl eq_refl).
Defined.

Section Tracing.

Lemma keepsHandle_ret {A} (a : A) : keepsHandle (mret a).
Proof. by intros h. Qed.

Lemma keepsHandle_bind {A B} (m : M A) (f : A -> M B) :
  keepsHandle m -> (forall a, keepsHandle (f a)) -> keepsHandle (m ≫= f).
Proof. intros Hm Hf h. rewrite handle_bind, Hm. apply Hf. Qed.

Lemma keepsHandle_emit e : keepsHandle (emit e).
Proof. by intros h. Qed.

Lemma keepsHandle_debug env msg : keepsHandle (debug env msg).
Proof. intros h. unfold debug, when. by destruct (is_set (DEBUG_GEO env)). Qed.

Lemma keepsHandle_headers_get (headers : Headers) name :
  keepsHandle (headers_get headers name).
Proof. by intros h. Qed.

Lemma emits_headers_get P (headers : Headers) name :
  P (EvHeaderGet name) = true -> emits P (headers_get headers name).
Proof. intros HP h. simpl. by rewrite HP. Qed.

Ltac step_quiet :=
  repeat first
    [ assumption
    | apply keepsHandle_ret | apply emits_ret
    | apply keepsHandle_emit | apply keepsHandle_debug | apply keepsHandle_headers_get
    | apply emits_emit; reflexivity
    | apply emits_debug; reflexivity
    | apply emits_headers_get; reflexivity
    | apply keepsHandle_bind; [|intros ?]
    | apply emits_bind; [|intros ?]
    | match goal with
      | |- keepsHandle (match ?x with _ => _ end) => destruct x
      | |- emits _ (match ?x with _ => _ end) => destruct x
      end ].

Lemma availableHeaders_quiet (headers : Headers) names :
  keepsHandle (availableHeaders headers names)
  /\ emits readOrLog (availableHeaders headers names).
Proof.
  induction names as [|name rest [IH1 IH2]]; simpl; split; step_quiet.
Qed.

Lemma scanHeaders_quiet env (headers : Headers) names :
  keepsHandle (scanHeaders env headers names)
  /\ emits readOrLog (scanHeaders env headers names).
Proof.
  induction names as [|name rest [IH1 IH2]]; simpl; split; step_quiet.
Qed.

Lemma getIpAddress_quiet env (headers : Headers) :
  keepsHandle (getIpAddress env headers)
  /\ emits readOrLog (getIpAddress env headers).
Proof.
  unfold getIpAddress, when. cbv zeta.
  generalize IP_ADDRESS_HEADERS. intros names.
  pose proof (availableHeaders_quiet headers names) as [Ha1 Ha2].
  pose proof (scanHeaders_quiet env headers names) as [Hs1 Hs2].
  split; step_quiet.
Qed.

Lemma scanHeaders_value_env env env' (headers : Headers) names h h' :
  value (scanHeaders env headers names h) = value (scanHeaders env' headers names h').
Proof.
  destruct (value (scanHeaders env headers names h)) as [[name ip]|] eqn:Hs.
  - symmetry. apply scanHeaders_first. by apply scanHeaders_first in Hs.
  - symmetry. apply scanHeaders_none. by apply scanHeaders_none in Hs.
Qed.

End Tracing.

(** X8.  [getIpAddress] leaves the database handle alone and does nothing
    but read headers and write diagnostic lines. *)
Theorem getIpAddress_no_database_work env (headers : Headers) h :
  handle (run (getIpAddress env headers) h) = h
  /\ forallb (fun e => isHeaderRead e || isLog e)
       (events (run (getIpAddress env headers) h)) = true.
Proof.
  destruct (getIpAddress_quiet env headers) as [Hk He].
  split; [apply Hk | apply He].
Qed.

(** X9.  The value of [getIpAddress] depends on the headers and on
    [CLIENT_IP_HEADER] only: neither [DEBUG_GEO], nor any other setting, nor
    the database handle changes it. *)
Theorem getIpAddress_tracing_irrelevant env env' (headers : Headers) h h' :
  CLIENT_IP_HEADER env = CLIENT_IP_HEADER env' ->
  value (run (getIpAddress env headers) h) = value (run (getIpAddress env' headers) h').
Proof.
  intros Hc. unfold run. rewrite !getIpAddress_value. cbv zeta. rewrite Hc.
  destruct (JS.nonempty _ && truthy _); [reflexivity|].
  exact (f_equal (fmap snd) (scanHeaders_value_env env env' headers IP_ADDRESS_HEADERS h h')).
Qed.

Lemma getIpAddress_tracing_irrelevant_witness :
  value (run (getIpAddress debugEnv sampleHeaders) None)
  = value (run (getIpAddress defaultEnv sampleHeaders) (Some sampleReader)).
Proof.
  exact (getIpAddress_tracing_irrelevant debugEnv defaultEnv sampleHeaders None
           (Some sampleReader) eq_refl).
Defined.

Section ForwardedToken.

Lemma span_split p (s : string) t r :
  span p s = (t, r) -> s = t +:+ r /\ JS.all_chars p t = true.
Proof.
  revert t r. induction s as [|a s IH]; intros t r; simpl.
  - by intros [= <- <-].
  - destruct (p a) eqn:Hp.
    + destruct (span p s) as [t' r'] eqn:Hs. intros [= <- <-].
      destruct (IH _ _ eq_refl) as [-> Hall]. split; [done|].
      simpl. by rewrite Hp, Hall.
    + by intros [= <- <-].
Qed.

Lemma substring_drop (p t : string) :
  String.substring (String.length p) (String.length t) (p +:+ t) = t.
Proof.
  induction p as [|a p IH].
  - rewrite append_empty_l. simpl.
    rewrite <- (append_empty_r t) at 2. apply substring_prefix.
  - rewrite append_cons. simpl. exact IH.
Qed.

Lemma slice_drop (p t : string) :
  JS.slice (p +:+ t) (Z.of_nat (String.length p)) (Z.of_nat (String.length (p +:+ t))) = t.
Proof.
  unfold JS.slice, JS.clamp. rewrite length_append.
  destruct (Z.ltb_spec (Z.of_nat (String.length p)) 0); [exfalso; lia|].
  destruct (Z.ltb_spec (Z.of_nat (String.length p + String.length t)) 0); [exfalso; lia|].
  rewrite Z.min_l by lia. rewrite Z.min_l by lia.
  replace (Z.to_nat (Z.of_nat (String.length p + String.length t)
                     - Z.of_nat (String.length p))) with (String.length t) by lia.
  rewrite Nat2Z.id. apply substring_drop.
Qed.

Lemma startsWith_split (s p : string) :
  JS.startsWith s p = true -> exists t, s = p +:+ t.
Proof.
  revert s. induction p as [|b p IH]; intros s; simpl.
  - intros _. by exists s.
  - destruct s as [|a s]; [done|].
    intros [Ha Hs]%andb_prop. apply Ascii.eqb_eq in Ha as ->.
    destruct (IH _ Hs) as [t ->]. by exists t.
Qed.

(** The group matched at the start of [s]: an optional opening bracket, a
    non-empty run of class characters, an optional closing bracket. *)
Lemma forGroup_sound s g :
  forGroup s = Some g ->
  exists lb core rb rest,
    s = g +:+ rest
    /\ g = lb +:+ core +:+ rb
    /\ (lb = EmptyString \/ lb = "[")
    /\ (rb = EmptyString \/ rb = "]")
    /\ JS.nonempty core = true
    /\ JS.all_chars for_char core = true.
Proof.
  unfold forGroup.
  set (o := match s with String "["%char r => ("[", r) | _ => (EmptyString, s) end).
  assert (Ho : s = o.1 +:+ o.2 /\ (o.1 = EmptyString \/ o.1 = "[")).
  { subst o. destruct s as [|a s]; [by auto|].
    destruct (Ascii.eqb_spec a "["%char) as [->|Hne]; [by auto|].
    assert ((match String a s with
             | String "["%char r => ("[", r)
             | _ => (EmptyString, String a s)
             end) = (EmptyString, String a s)) as ->; [|by auto].
    destruct a as [[] [] [] [] [] [] [] []]; try reflexivity. by destruct Hne. }
  destruct o as [lb s1]. simpl in Ho. destruct Ho as [-> Hlb].
  destruct (span for_char s1) as [core s2] eqn:Hs.
  apply span_split in Hs as [-> Hall].
  destruct (JS.nonempty core) eqn:Hne; [|done].
  destruct (JS.startsWith s2 "]") eqn:Hrb; intros [= <-].
  - apply startsWith_split in Hrb as [rest ->].
    exists lb, core, "]", rest. rewrite !append_assoc. auto 10.
  - exists lb, core, EmptyString, s2.
    rewrite append_empty_r.
    split; [by rewrite append_assoc|]. auto 10.
Qed.

End ForwardedToken.

(** X10.  What the [forwarded] pattern extracts always stands in the header
    right after a [for=], and is a non-empty run of hexadecimal digits,
    colons and dots, with an optional opening bracket before it and an
    optional closing bracket after it. *)
Theorem forwardedFor_sound (v g : string) :
  forwardedFor v = Some g ->
  exists before lb core rb rest,
    v = before +:+ "for=" +:+ g +:+ rest
    /\ g = lb +:+ core +:+ rb
    /\ (lb = EmptyString \/ lb = "[")
    /\ (rb = EmptyString \/ rb = "]")
    /\ JS.nonempty core = true
    /\ JS.all_chars for_char core = true.
Proof.
  induction v as [|a v IH]; [done|].
  rewrite forwardedFor_cons.
  assert (Hrec : forwardedFor v = Some g ->
            exists before lb core rb rest,
              String a v = before +:+ "for=" +:+ g +:+ rest
              /\ g = lb +:+ core +:+ rb
              /\ (lb = EmptyString \/ lb = "[")
              /\ (rb = EmptyString \/ rb = "]")
              /\ JS.nonempty core = true
              /\ JS.all_chars for_char core = true).
  { intros Hv. destruct (IH Hv) as (before & lb & core & rb & rest & -> & Hg).
    exists (String a before), lb, core, rb, rest. by rewrite append_cons. }
  destruct (JS.startsWith (String a v) "for=") eqn:Hs; [|exact Hrec].
  destruct (forGroup _) as [g'|] eqn:Hg; [|exact Hrec].
  intros [= ->].
  apply startsWith_split in Hs as [t Ht]. rewrite Ht in Hg |- *.
  change 4 with (Z.of_nat (String.length "for=")) in Hg.
  rewrite slice_drop in Hg.
  apply forGroup_sound in Hg as (lb & core & rb & rest & -> & Hshape).
  exists EmptyString, lb, core, rb, rest. by rewrite append_empty_l.
Qed.

Lemma forwardedFor_sound_witness :
  exists before rest,
    "for=192.0.2.60;proto=http" = before +:+ "for=" +:+ "192.0.2.60" +:+ rest.
Proof.
  destruct (forwardedFor_sound "for=192.0.2.60;proto=http" "192.0.2.60" eq_refl)
    as (before & _ & _ & _ & rest & Hv & _).
  by exists before, rest.
Defined.

(** ** The override header *)

Section OverridePath.

Lemma getIpAddress_override_value env (headers : Headers) name v h :
  CLIENT_IP_HEADER env = Some name ->
  JS.nonempty name = true ->
  headers !! toLowerCase name = Some v ->
  JS.nonempty v = true ->
  value (run (getIpAddress env headers) h) = Some (extractCustom name v).
Proof.
  intros Hc Hn Hv Hne.
  unfold run. rewrite getIpAddress_value. cbv zeta. rewrite Hc.
  change (default EmptyString (Some name)) with name. rewrite Hn, Hv.
  change (truthy (of_header (Some v))) with (JS.nonempty v). by rewrite Hne.
Qed.

(** The first piece of a split is what precedes the first separator. *)
Lemma split_hd_before c (first rest : string) :
  JS.includes first c = false ->
  hd EmptyString (JS.split c (first +:+ String c rest)) = first.
Proof.
  induction first as [|a s IH].
  - intros _. rewrite append_empty_l, split_cons. by rewrite Ascii.eqb_refl.
  - unfold JS.includes. cbn [JS.find_first].
    destruct (Ascii.eqb a c) eqn:Ha; [done|]. intros Hs.
    rewrite append_cons, split_cons, Ha. f_equal. apply IH.
    unfold JS.includes. by destruct (JS.find_first c s).
Qed.

Lemma split_hd_whole c (v : string) :
  JS.includes v c = false -> hd EmptyString (JS.split c v) = v.
Proof.
  induction v as [|a s IH]; [done|].
  unfold JS.includes. cbn [JS.find_first].
  destruct (Ascii.eqb a c) eqn:Ha; [done|]. intros Hs.
  rewrite split_cons, Ha. f_equal. apply IH.
  unfold JS.includes. by destruct (JS.find_first c s).
Qed.

(** A maximal run of class characters is what [span] takes. *)
Lemma span_run p (core rest : string) :
  JS.all_chars p core = true ->
  (forall c r, rest = String c r -> p c = false) ->
  span p (core +:+ rest) = (core, rest).
Proof.
  intros Hcore Hrest. induction core as [|a s IH].
  - rewrite append_empty_l. destruct rest as [|c r]; [done|].
    cbn [span]. by rewrite (Hrest c r eq_refl).
  - cbn [JS.all_chars] in Hcore. apply andb_prop in Hcore as [Ha Hs].
    rewrite append_cons. cbn [span]. by rewrite Ha, (IH Hs).
Qed.

Lemma forGroup_plain a (s : string) :
  a <> "["%char ->
  forGroup (String a s) =
  let '(digits, s2) := span for_char (String a s) in
  if JS.nonempty digits
  then Some (EmptyString +:+ digits +:+ (if JS.startsWith s2 "]" then "]" else EmptyString))
  else None.
Proof.
  intros Hne. unfold forGroup.
  assert ((match String a s with
           | String "["%char r => ("["%string, r)
           | _ => (EmptyString, String a s)
           end) = (EmptyString, String a s)) as ->; [|done].
  destruct a as [[] [] [] [] [] [] [] []]; try reflexivity. by destruct Hne.
Qed.

(** The group matched at the start of a string that begins with a token. *)
Lemma forGroup_complete (lb core rest : string) :
  lb = EmptyString \/ lb = "[" ->
  JS.nonempty core = true ->
  JS.all_chars for_char core = true ->
  (forall c r, rest = String c r -> for_char c = false) ->
  forGroup (lb +:+ core +:+ rest)
  = Some (lb +:+ core +:+ (if JS.startsWith rest "]" then "]" else EmptyString)).
Proof.
  intros [-> | ->] Hne Hcore Hrest.
  - rewrite !append_empty_l. destruct core as [|a s]; [done|].
    rewrite append_cons, forGroup_plain.
    + rewrite <- append_cons, (span_run _ _ _ Hcore Hrest).
      cbv beta iota. by rewrite append_empty_l.
    + intros ->. cbn [JS.all_chars] in Hcore. done.
  - rewrite append_cons, append_empty_l. unfold forGroup.
    rewrite (span_run _ _ _ Hcore Hrest). cbv beta iota. rewrite Hne.
    by rewrite append_cons, append_empty_l.
Qed.

(** No match starts inside a prefix that does not hold [for=]. *)
Lemma forwardedFor_skip (pre t : string) :
  JS.includesStr pre "for=" = false ->
  forwardedFor (pre +:+ "for=" +:+ t) = forwardedFor ("for=" +:+ t).
Proof.
  induction pre as [|a p IH]; [by rewrite append_empty_l|].
  cbn [JS.includesStr]. intros [Hhere Hlater]%orb_false_elim.
  rewrite append_cons, forwardedFor_cons.
  assert (JS.startsWith (String a (p +:+ "for=" +:+ t)) "for=" = false) as ->;
    [|by apply IH].
  destruct p as [|b [|c [|d p]]].
  - rewrite append_empty_l. cbn [JS.startsWith String.append].
    change (Ascii.eqb "f" "o") with false. by rewrite andb_false_r.
  - rewrite append_cons, append_empty_l. cbn [JS.startsWith String.append].
    change (Ascii.eqb "f" "r") with false. by rewrite !andb_false_r.
  - rewrite !append_cons, append_empty_l. cbn [JS.startsWith String.append].
    change (Ascii.eqb "f" "=") with false. by rewrite !andb_false_r.
  - rewrite !append_cons. cbn [JS.startsWith] in Hhere |- *. exact Hhere.
Qed.

Lemma forwardedFor_complete (pre lb core rest : string) :
  JS.includesStr pre "for=" = false ->
  lb = EmptyString \/ lb = "[" ->
  JS.nonempty core = true ->
  JS.all_chars for_char core = true ->
  (forall c r, rest = String c r -> for_char c = false) ->
  forwardedFor (pre +:+ "for=" +:+ lb +:+ core +:+ rest)
  = Some (lb +:+ core +:+ (if JS.startsWith rest "]" then "]" else EmptyString)).
Proof.
  intros Hpre Hlb Hne Hcore Hrest. rewrite (forwardedFor_skip _ _ Hpre).
  set (t := lb +:+ core +:+ rest).
  assert (Hcons : "for=" +:+ t = String "f" ("or=" +:+ t)) by reflexivity.
  rewrite Hcons, forwardedFor_cons, <- Hcons.
  assert (JS.startsWith ("for=" +:+ t) "for=" = true) as -> by reflexivity.
  change 4 with (Z.of_nat (String.length "for=")).
  rewrite slice_drop. subst t. by rewrite (forGroup_complete _ _ _ Hlb Hne Hcore Hrest).
Qed.

Lemma forwardedFor_absent (v : string) :
  JS.includesStr v "for=" = false -> forwardedFor v = None.
Proof.
  induction v as [|a s IH]; [done|].
  cbn [JS.includesStr]. intros [Hhere Hlater]%orb_false_elim.
  rewrite forwardedFor_cons, Hhere. by apply IH.
Qed.

End OverridePath.

(** C5.  When [CLIENT_IP_HEADER] names a header that the request carries with
    a non-empty value, [getIpAddress] returns that value with no
    private-address test: verbatim unless the configured name is exactly
    [x-forwarded-for] (first element, or the raw value when that is empty) or
    [forwarded] (the [for=] token, or the raw value when there is none).  A
    private ["10.0.0.1"] in the override header is returned.

    What the two extractions yield on this path: under [x-forwarded-for],
    the text before the first comma, trimmed, or the raw value when that is
    blank; under [forwarded], the token after the first [for=], with its
    brackets, or the raw value when the header holds no [for=].  The
    comparison of the configured name is exact, so [X-Forwarded-For] finds
    the header and returns it verbatim. *)
Theorem getIpAddress_override_header env (headers : Headers) name v h :
  CLIENT_IP_HEADER env = Some name ->
  JS.nonempty name = true ->
  headers !! toLowerCase name = Some v ->
  JS.nonempty v = true ->
  value (run (getIpAddress env headers) h) = Some (extractCustom name v)
  /\ (name <> "x-forwarded-for" -> name <> "forwarded" -> extractCustom name v = v)
  /\ extractCustom "x-forwarded-for" v =
       (if JS.nonempty (firstForwarded v) then firstForwarded v else v)
  /\ extractCustom "forwarded" v = default v (forwardedFor v)
  /\ (v = "10.0.0.1" ->
       isPrivate v = true /\ value (run (getIpAddress env headers) h) = Some "10.0.0.1")
  /\ (name <> "x-forwarded-for" -> name <> "forwarded" ->
       value (run (getIpAddress env headers) h) = Some v)
  /\ (name = "x-forwarded-for" ->
       forall first rest : string,
         JS.includes first ","%char = false ->
         v = first \/ v = first +:+ "," +:+ rest ->
         value (run (getIpAddress env headers) h)
         = Some (if JS.nonempty (JS.trim first) then JS.trim first else v))
  /\ (name = "forwarded" ->
       forall pre lb core rest : string,
         v = pre +:+ "for=" +:+ lb +:+ core +:+ rest ->
         JS.includesStr pre "for=" = false ->
         lb = EmptyString \/ lb = "[" ->
         JS.nonempty core = true ->
         JS.all_chars for_char core = true ->
         (forall c r, rest = String c r -> for_char c = false) ->
         value (run (getIpAddress env headers) h)
         = Some (lb +:+ core +:+ (if JS.startsWith rest "]" then "]" else EmptyString)))
  /\ (name = "forwarded" ->
       JS.includesStr v "for=" = false ->
       value (run (getIpAddress env headers) h) = Some v)
  /\ (forall h',
        value (run (getIpAddress (overrideEnv "x-forwarded-for")
                      {[ "x-forwarded-for" := "203.0.113.5, 10.0.0.1" ]}) h')
        = Some "203.0.113.5"
        /\ value (run (getIpAddress (overrideEnv "x-forwarded-for")
                         {[ "x-forwarded-for" := "10.0.0.1, 203.0.113.5" ]}) h')
           = Some "10.0.0.1"
        /\ value (run (getIpAddress (overrideEnv "x-forwarded-for")
                         {[ "x-forwarded-for" := "  203.0.113.5 ,10.0.0.1" ]}) h')
           = Some "203.0.113.5"
        /\ value (run (getIpAddress (overrideEnv "x-forwarded-for")
                         {[ "x-forwarded-for" := " , 203.0.113.5" ]}) h')
           = Some " , 203.0.113.5"
        /\ value (run (getIpAddress (overrideEnv "X-Forwarded-For")
                         {[ "x-forwarded-for" := "203.0.113.5, 10.0.0.1" ]}) h')
           = Some "203.0.113.5, 10.0.0.1"
        /\ value (run (getIpAddress (overrideEnv "x-real-ip")
                         {[ "x-real-ip" := "203.0.113.5, 10.0.0.1" ]}) h')
           = Some "203.0.113.5, 10.0.0.1"
        /\ value (run (getIpAddress (overrideEnv "forwarded")
                         {[ "forwarded" := "for=192.0.2.60;proto=http" ]}) h')
           = Some "192.0.2.60"
        /\ value (run (getIpAddress (overrideEnv "forwarded")
                         {[ "forwarded" := "by=203.0.113.43;for=[2001:db8:cafe::17]:4711" ]}) h')
           = Some "[2001:db8:cafe::17]"
        /\ value (run (getIpAddress (overrideEnv "forwarded")
                         {[ "forwarded" := "for=10.0.0.1, for=198.51.100.17" ]}) h')
           = Some "10.0.0.1"
        /\ value (run (getIpAddress (overrideEnv "forwarded")
                         {[ "forwarded" := "proto=https;by=203.0.113.43" ]}) h')
           = Some "proto=https;by=203.0.113.43").
Proof.
  intros Hc Hn Hv Hne.
  pose proof (getIpAddress_override_value env headers name v h Hc Hn Hv Hne) as Hval.
  split; [exact Hval|].
  split; [apply extractCustom_plain|].
  split; [unfold extractCustom; simpl; by rewrite Hne|].
  split; [unfold extractCustom; simpl; rewrite Hne; by destruct (forwardedFor v)|].
  split.
  { intros ->. split; [reflexivity|]. rewrite Hval. f_equal.
    unfold extractCustom.
    destruct (String.eqb name "x-forwarded-for"); [reflexivity|].
    destruct (String.eqb name "forwarded"); reflexivity. }
  split.
  { intros H1 H2. by rewrite Hval, (extractCustom_plain _ _ H1 H2). }
  split.
  { intros -> first rest Hfirst Hshape. rewrite Hval. f_equal.
    unfold extractCustom. rewrite String.eqb_refl, Hne. cbn [andb]. cbv zeta.
    unfold firstForwarded.
    destruct Hshape as [-> | ->].
    - by rewrite (split_hd_whole _ _ Hfirst).
    - change ("," +:+ rest) with (String ","%char rest).
      by rewrite (split_hd_before _ _ _ Hfirst). }
  split.
  { intros -> pre lb core rest -> Hpre Hlb Hcore Hall Hrest. rewrite Hval. f_equal.
    unfold extractCustom. rewrite Hne.
    change (String.eqb "forwarded" "x-forwarded-for") with false.
    rewrite String.eqb_refl. cbn [andb].
    by rewrite (forwardedFor_complete _ _ _ _ Hpre Hlb Hcore Hall Hrest). }
  split.
  { intros -> Hnone. rewrite Hval. f_equal.
    unfold extractCustom. rewrite Hne.
    change (String.eqb "forwarded" "x-forwarded-for") with false.
    rewrite String.eqb_refl. cbn [andb].
    by rewrite (forwardedFor_absent _ Hnone). }
  intros h'.
  repeat split;
    (rewrite (getIpAddress_override_value _ _ _ _ h' eq_refl eq_refl eq_refl eq_refl);
     vm_compute; reflexivity).
Qed.

Lemma getIpAddress_override_header_witness :
  value (run (getIpAddress (overrideEnv "x-forwarded-for")
                {[ "x-forwarded-for" := "10.0.0.1, 203.0.113.5" ]}) None)
  = Some "10.0.0.1"
  /\ value (run (getIpAddress (overrideEnv "forwarded")
                   {[ "forwarded" := "for=192.0.2.60;proto=http" ]}) None)
     = Some "192.0.2.60".
Proof.
  split.
  - exact (proj1 (getIpAddress_override_header (overrideEnv "x-forwarded-for")
                    {[ "x-forwarded-for" := "10.0.0.1, 203.0.113.5" ]}
                    "x-forwarded-for" "10.0.0.1, 203.0.113.5" None
                    eq_refl eq_refl eq_refl eq_refl)).
  - exact (proj1 (getIpAddress_override_header (overrideEnv "forwarded")
                    {[ "forwarded" := "for=192.0.2.60;proto=http" ]}
                    "forwarded" "for=192.0.2.60;proto=http" None
                    eq_refl eq_refl eq_refl eq_refl)).
Defined.

(** ** Geolocation: diagnostics and the port *)

Section SameButLogs.
Context {A B : Type}.

Lemma withoutLogs_app (l l' : list Event) :
  withoutLogs (l ++ l') = withoutLogs l ++ withoutLogs l'.
Proof. apply List.filter_app. Qed.

Lemma sameButLogs_refl (m : M A) : sameButLogs m m.
Proof. by intros h. Qed.

Lemma sameButLogs_bind (m m' : M A) (f f' : A -> M B) :
  sameButLogs m m' -> (forall a, sameButLogs (f a) (f' a)) ->
  sameButLogs (m ≫= f) (m' ≫= f').
Proof.
  intros Hm Hf h. destruct (Hm h) as (Hv & Hh & He).
  rewrite !value_bind, !handle_bind, !events_bind, !withoutLogs_app.
  rewrite Hv, Hh, He. destruct (Hf (value (m' h)) (handle (m' h))) as (Hv' & Hh' & He').
  by rewrite Hv', Hh', He'.
Qed.

End SameButLogs.

Lemma sameButLogs_debug env env' msg msg' :
  sameButLogs (debug env msg) (debug env' msg').
Proof.
  intros h. unfold debug, when.
  by destruct (is_set (DEBUG_GEO env)), (is_set (DEBUG_GEO env')).
Qed.

Ltac same_step :=
  repeat first
    [ assumption
    | apply sameButLogs_debug
    | apply sameButLogs_bind; [|intros ?]
    | apply sameButLogs_refl
    | match goal with
      | |- sameButLogs (match ?x with _ => _ end) (match ?x with _ => _ end) => destruct x
      end ].

Section GeoTracing.
Context `{Platform}.

Lemma providerTier_same env env' (headers : Headers) providers :
  sameButLogs (providerTier env headers providers) (providerTier env' headers providers).
Proof.
  induction providers as [|p rest IH]; simpl; same_step.
Qed.

Lemma openDatabase_same env env' :
  GEOLITE_DB_PATH env = GEOLITE_DB_PATH env' ->
  sameButLogs (openDatabase env) (openDatabase env').
Proof.
  intros Hp. unfold openDatabase. rewrite Hp. same_step.
Qed.

(** The database tier with another diagnostic setting, and for another
    address with the same normal form. *)
Lemma databaseTier_same env env' ip ip' :
  GEOLITE_DB_PATH env = GEOLITE_DB_PATH env' ->
  stripPort ip = stripPort ip' ->
  sameButLogs (databaseTier env ip) (databaseTier env' ip').
Proof.
  intros Hp Hs. pose proof (openDatabase_same env env' Hp).
  unfold databaseTier. rewrite Hs. same_step.
Qed.

Lemma getLocation_same env env' ip (headers : Headers) hasPayloadIP :
  GEOLITE_DB_PATH env = GEOLITE_DB_PATH env' ->
  is_set (SKIP_LOCATION_HEADERS env) = is_set (SKIP_LOCATION_HEADERS env') ->
  sameButLogs (getLocation env ip headers hasPayloadIP)
              (getLocation env' ip headers hasPayloadIP).
Proof.
  intros Hp Hs.
  pose proof (databaseTier_same env env' ip ip Hp eq_refl).
  unfold getLocation. rewrite Hs. generalize PROVIDER_HEADERS. intros providers.
  pose proof (providerTier_same env env' headers providers).
  same_step.
Qed.

End GeoTracing.

(** X11.  Diagnostics do not change what [getLocation] does: two
    configurations with the same database path and the same
    [SKIP_LOCATION_HEADERS] setting, whatever their [DEBUG_GEO], give the
    same location, leave the same database handle and perform the same
    actions in the same order, [console.log] lines apart. *)
Theorem getLocation_tracing_irrelevant `{Platform} env env' ip (headers : Headers)
    hasPayloadIP h :
  GEOLITE_DB_PATH env = GEOLITE_DB_PATH env' ->
  is_set (SKIP_LOCATION_HEADERS env) = is_set (SKIP_LOCATION_HEADERS env') ->
  let o := run (getLocation env ip headers hasPayloadIP) h in
  let o' := run (getLocation env' ip headers hasPayloadIP) h in
  value o = value o'
  /\ handle o = handle o'
  /\ withoutLogs (events o) = withoutLogs (events o').
Proof.
  intros Hp Hs. exact (getLocation_same env env' ip headers hasPayloadIP Hp Hs h).
Qed.

Lemma getLocation_tracing_irrelevant_witness :
  value (run (@getLocation samplePlatform debugEnv "203.0.113.5" ∅ false) None)
  = value (run (@getLocation samplePlatform defaultEnv "203.0.113.5" ∅ false) None).
Proof.
  exact (proj1 (@getLocation_tracing_irrelevant samplePlatform debugEnv defaultEnv
                  "203.0.113.5" ∅ false None eq_refl eq_refl)).
Defined.

(** X12.  The database tier sees the address only through [stripPort]: two
    addresses with the same port-stripped form give the same location, the
    same handle and the same actions, diagnostic lines apart. *)
Theorem databaseTier_port_insensitive `{Platform} env ip ip' h :
  stripPort ip = stripPort ip' ->
  let d := run (databaseTier env ip) h in
  let d' := run (databaseTier env ip') h in
  value d = value d'
  /\ handle d = handle d'
  /\ withoutLogs (events d) = withoutLogs (events d').
Proof.
  intros Hs. exact (databaseTier_same env env ip ip' eq_refl Hs h).
Qed.

Lemma databaseTier_port_insensitive_witness :
  value (run (@databaseTier samplePlatform defaultEnv "203.0.113.5:50123") None)
  = value (run (@databaseTier samplePlatform defaultEnv "203.0.113.5") None).
Proof.
  exact (proj1 (@databaseTier_port_insensitive samplePlatform defaultEnv
                  "203.0.113.5:50123" "203.0.113.5" None eq_refl)).
Defined.

(** ** Geolocation: the two tiers and the database handle *)

Section DatabaseHandle.
Context `{Platform}.
Variable env : Env.

Lemma openDatabase_open r :
  openDatabase env (Some r) = mkOut true (Some r) [].
Proof. reflexivity. Qed.

Lemma openDatabase_closed :
  let o := openDatabase env None in
  let path := dbPathOf env in
  if fsAccess path then
    match maxmindOpen path with
    | Some r =>
        value o = true /\ handle o = Some r
        /\ withoutLogs (events o) = [EvFsAccess path; EvMaxmindOpen path]
    | None =>
        value o = false /\ handle o = None
        /\ withoutLogs (events o)
           = [EvFsAccess path; EvMaxmindOpen path;
              EvError "Failed to open GeoLite2 database:"]
    end
  else
    value o = false /\ handle o = None
    /\ withoutLogs (events o)
       = [EvFsAccess path;
          EvError ("GeoLite2 database file not found at: " +:+ path)].
Proof.
  unfold openDatabase, dbPathOf, debug, when. cbv zeta.
  set (path := if is_set (GEOLITE_DB_PATH env) then _ else _).
  destruct (is_set (DEBUG_GEO env)); cbn;
    destruct (fsAccess path); cbn; try done;
    destruct (maxmindOpen path); cbn; done.
Qed.

(** The database tier from an open handle. *)
Lemma databaseTier_open ip r :
  let d := databaseTier env ip (Some r) in
  handle d = Some r
  /\ withoutLogs (events d) = [EvLookup (stripPort ip)]
  /\ match reader_get r (stripPort ip) with
     | None => value d = None
     | Some rec =>
         exists loc,
           value d = Some loc
           /\ country loc = of_field (match country_iso rec with
                                      | Some c => Some c
                                      | None => registered_country_iso rec
                                      end)
           /\ region loc = getRegionCode (country loc)
                             (of_field (mjoin (head (subdivisions_iso rec))))
           /\ city loc = of_field (city_en rec)
     end.
Proof.
  cbv [databaseTier lookup openDatabase debug when mbind M_bind mret M_ret
       emit getHandle value handle events].
  destruct (is_set (DEBUG_GEO env));
    destruct (reader_get r (stripPort ip)) as [rec|]; cbn;
    (split; [done|]; split; [done|]); try done; by eexists.
Qed.

End DatabaseHandle.

(** X13.  With the database already open, the database tier does not go to
    the file system: the handle stays the one it found, its only action
    (diagnostic lines apart) is one lookup of the port-stripped address, and
    the answer is [null] when the reader has no record, otherwise the
    location read off the record: the country's ISO code or, failing that,
    the registered country's, the first subdivision as region, and the
    English city name. *)
Theorem databaseTier_reuses_handle `{Platform} env ip r :
  let d := run (databaseTier env ip) (Some r) in
  handle d = Some r
  /\ withoutLogs (events d) = [EvLookup (stripPort ip)]
  /\ match reader_get r (stripPort ip) with
     | None => value d = None
     | Some rec =>
         exists loc,
           value d = Some loc
           /\ country loc = of_field (match country_iso rec with
                                      | Some c => Some c
                                      | None => registered_country_iso rec
                                      end)
           /\ region loc = getRegionCode (country loc)
                             (of_field (mjoin (head (subdivisions_iso rec))))
           /\ city loc = of_field (city_en rec)
     end.
Proof. apply databaseTier_open. Qed.

(** X14.  When the database file is missing, or opening it fails, the
    database tier answers [null], leaves the handle empty (so the next call
    tries again), reports one error and issues no lookup; a missing file is
    never opened. *)
Theorem databaseTier_open_failure `{Platform} env ip :
  fsAccess (dbPathOf env) = false \/ maxmindOpen (dbPathOf env) = None ->
  let d := run (databaseTier env ip) None in
  value d = None
  /\ handle d = None
  /\ withoutLogs (events d)
     = EvFsAccess (dbPathOf env)
       :: (if fsAccess (dbPathOf env)
           then [EvMaxmindOpen (dbPathOf env);
                 EvError "Failed to open GeoLite2 database:"]
           else [EvError ("GeoLite2 database file not found at: " +:+ dbPathOf env)]).
Proof.
  intros Hfail d. subst d. unfold run, databaseTier.
  rewrite value_bind, handle_bind, events_bind, withoutLogs_app.
  pose proof (openDatabase_closed env) as Ho. cbv zeta in Ho.
  destruct (fsAccess (dbPathOf env)).
  - destruct Hfail as [?|Hm]; [done|]. rewrite Hm in Ho.
    destruct Ho as (-> & -> & ->). by repeat split.
  - destruct Ho as (-> & -> & ->). by repeat split.
Qed.

(** X15.  The database is opened once: a first call from an empty handle
    checks the file, opens it, keeps the reader and looks the address up;
    a second call, run from the handle the first one left, only looks its
    address up. *)
Theorem databaseTier_opens_once `{Platform} env ip ip' r :
  fsAccess (dbPathOf env) = true ->
  maxmindOpen (dbPathOf env) = Some r ->
  let d := run (databaseTier env ip) None in
  let d' := run (databaseTier env ip') (handle d) in
  handle d = Some r
  /\ withoutLogs (events d)
     = [EvFsAccess (dbPathOf env); EvMaxmindOpen (dbPathOf env); EvLookup (stripPort ip)]
  /\ handle d' = Some r
  /\ withoutLogs (events d') = [EvLookup (stripPort ip')].
Proof.
  intros Hf Hm d d'.
  assert (Hd : handle d = Some r
               /\ withoutLogs (events d)
                  = [EvFsAccess (dbPathOf env); EvMaxmindOpen (dbPathOf env);
                     EvLookup (stripPort ip)]).
  { subst d. unfold run, databaseTier.
    rewrite handle_bind, events_bind, withoutLogs_app.
    pose proof (openDatabase_closed env) as Ho. cbv zeta in Ho.
    rewrite Hf, Hm in Ho. destruct Ho as (-> & -> & ->).
    pose proof (databaseTier_open env ip r) as Hopen. cbv zeta in Hopen.
    unfold databaseTier in Hopen.
    rewrite handle_bind, events_bind, openDatabase_open in Hopen.
    cbn [value handle events app] in Hopen.
    destruct Hopen as (-> & -> & _). done. }
  destruct Hd as [Hh He]. split; [done|]. split; [done|].
  subst d'. rewrite Hh.
  destruct (databaseTier_open env ip' r) as (? & ? & _). done.
Qed.

Lemma databaseTier_open_failure_witness :
  value (run (@databaseTier samplePlatform missingDbEnv "203.0.113.5") None) = None
  /\ handle (run (@databaseTier samplePlatform missingDbEnv "203.0.113.5") None) = None.
Proof.
  destruct (@databaseTier_open_failure samplePlatform missingDbEnv "203.0.113.5"
              (or_introl eq_refl)) as (Hv & Hh & _).
  exact (conj Hv Hh).
Defined.

Lemma databaseTier_opens_once_witness :
  withoutLogs (events (run (@databaseTier samplePlatform defaultEnv "198.51.100.7:80")
    (handle (run (@databaseTier samplePlatform defaultEnv "203.0.113.5") None))))
  = [EvLookup "198.51.100.7"].
Proof.
  exact (proj2 (proj2 (proj2 (@databaseTier_opens_once samplePlatform defaultEnv
                  "203.0.113.5" "198.51.100.7:80" sampleReader eq_refl eq_refl)))).
Defined.

Section ProviderTier.
Context `{Platform}.
Variable env : Env.
Variable headers : Headers.

Lemma withoutLogs_debug msg h : withoutLogs (events (debug env msg h)) = [].
Proof. unfold debug, when. by destruct (is_set (DEBUG_GEO env)). Qed.

Lemma value_debug msg h : value (debug env msg h) = tt.
Proof. by destruct (value _). Qed.

Lemma headers_get_run name h :
  headers_get headers name h = mkOut (headers !! toLowerCase name) h [EvHeaderGet name].
Proof. reflexivity. Qed.

Lemma providerTier_skip p rest h :
  providerAnswers headers p = false ->
  let o := providerTier env headers (p :: rest) h in
  let o' := providerTier env headers rest h in
  value o = value o' /\ handle o = handle o'
  /\ events o = EvHeaderGet (countryHeader p) :: events o'.
Proof.
  unfold providerAnswers. intros Hp.
  cbn [providerTier]. cbv zeta.
  rewrite value_bind, handle_bind, events_bind, headers_get_run.
  cbn [value handle events app]. by rewrite Hp.
Qed.

Lemma providerTier_take p rest h :
  providerAnswers headers p = true ->
  let o := providerTier env headers (p :: rest) h in
  let c := decodeHeader (of_header (headers !! toLowerCase (countryHeader p))) in
  let r := decodeHeader (of_header (headers !! toLowerCase (regionHeader p))) in
  let t := decodeHeader (of_header (headers !! toLowerCase (cityHeader p))) in
  value o = Some {| country := c; region := getRegionCode c r; city := t |}
  /\ handle o = h
  /\ withoutLogs (events o)
     = [EvHeaderGet (countryHeader p); EvHeaderGet (regionHeader p);
        EvHeaderGet (cityHeader p)].
Proof.
  unfold providerAnswers. intros Hp.
  cbn [providerTier]. cbv zeta.
  rewrite value_bind, handle_bind, events_bind, headers_get_run.
  cbn [value handle events app]. rewrite Hp.
  repeat (progress
            (rewrite ?value_bind, ?handle_bind, ?events_bind, ?headers_get_run,
                     ?handle_debug, ?withoutLogs_app, ?withoutLogs_debug;
             cbn [value handle events mret M_ret app])).
  rewrite events_debug. by destruct (is_set (DEBUG_GEO env)).
Qed.

Lemma providerTier_first before p after h :
  Forall (fun q => providerAnswers headers q = false) before ->
  providerAnswers headers p = true ->
  let o := providerTier env headers (before ++ p :: after) h in
  let c := decodeHeader (of_header (headers !! toLowerCase (countryHeader p))) in
  let r := decodeHeader (of_header (headers !! toLowerCase (regionHeader p))) in
  let t := decodeHeader (of_header (headers !! toLowerCase (cityHeader p))) in
  value o = Some {| country := c; region := getRegionCode c r; city := t |}
  /\ handle o = h
  /\ withoutLogs (events o)
     = map (fun q => EvHeaderGet (countryHeader q)) before
       ++ [EvHeaderGet (countryHeader p); EvHeaderGet (regionHeader p);
           EvHeaderGet (cityHeader p)].
Proof.
  intros Hb Hp. cbv zeta. induction Hb as [|q before Hq Hb IH].
  - apply (providerTier_take p after h Hp).
  - destruct (providerTier_skip q (before ++ p :: after) h Hq) as (Hv & Hh & He).
    change ((q :: before) ++ p :: after) with (q :: (before ++ p :: after)).
    rewrite Hv, Hh, He. destruct IH as (IHv & IHh & IHe).
    split; [exact IHv|]. split; [exact IHh|].
    change (withoutLogs (?e :: ?l)) with (e :: withoutLogs l).
    cbn [map app]. unfold withoutLogs at 1. cbn [List.filter isLog negb].
    fold (withoutLogs (events (providerTier env headers (before ++ p :: after) h))).
    by rewrite IHe.
Qed.

Lemma providerTier_none providers h :
  Forall (fun q => providerAnswers headers q = false) providers ->
  let o := providerTier env headers providers h in
  value o = None /\ handle o = h
  /\ events o = map (fun q => EvHeaderGet (countryHeader q)) providers.
Proof.
  intros Hb. cbv zeta. induction Hb as [|q rest Hq Hb IH]; [done|].
  destruct (providerTier_skip q rest h Hq) as (Hv & Hh & He).
  rewrite Hv, Hh, He. destruct IH as (IHv & IHh & IHe).
  by rewrite IHv, IHh, IHe.
Qed.

End ProviderTier.

Section LocationTiers.
Context `{Platform}.
Variable env : Env.
Variable headers : Headers.

(** [getLocation] past the locality test, in terms of its two tiers. *)
Lemma getLocation_remote ip hasPayloadIP h :
  JS.nonempty ip = true ->
  isLocalhost ip = false ->
  let tier := if negb hasPayloadIP && negb (is_set (SKIP_LOCATION_HEADERS env))
              then providerTier env headers PROVIDER_HEADERS
              else mret None in
  let o := getLocation env ip headers hasPayloadIP h in
  match value (tier h) with
  | Some loc =>
      value o = Some loc /\ handle o = handle (tier h)
      /\ withoutLogs (events o) = EvIsLocalhost ip :: withoutLogs (events (tier h))
  | None =>
      let d := databaseTier env ip (handle (tier h)) in
      value o = value d /\ handle o = handle d
      /\ withoutLogs (events o)
         = EvIsLocalhost ip :: withoutLogs (events (tier h)) ++ withoutLogs (events d)
  end.
Proof.
  intros Hne Hloc. cbv zeta. unfold getLocation. rewrite Hne, Hloc. simpl negb. cbv iota.
  generalize (if negb hasPayloadIP && negb (is_set (SKIP_LOCATION_HEADERS env))
              then providerTier env headers PROVIDER_HEADERS
              else mret None).
  intros tier.
  repeat (progress
            (rewrite ?value_bind, ?handle_bind, ?events_bind, ?handle_debug;
             cbn [value handle events mret M_ret emit app])).
  change (withoutLogs (?e :: ?l)) with (e :: withoutLogs l).
  unfold withoutLogs at 1 3. cbn [List.filter isLog negb]. fold withoutLogs.
  rewrite !withoutLogs_app, !withoutLogs_debug. cbn [app].
  destruct (value (tier h)) as [loc|]; cbn [value handle events mret M_ret];
    repeat split; try reflexivity.
  cbn [withoutLogs List.filter]. by rewrite app_nil_r.
Qed.

End LocationTiers.

(** X16.  Provider precedence.  For a non-empty, non-local address taken
    from the headers, with [SKIP_LOCATION_HEADERS] unset, the first provider
    of [PROVIDER_HEADERS] whose country header is present and not empty
    decides: the location is built from its three headers, decoded; the
    database handle is untouched; and the only actions are the locality
    test, one read of the country header of each earlier provider, and the
    three reads of the provider that answered. Later providers and the
    database are never consulted. *)
Theorem getLocation_first_provider `{Platform} env ip (headers : Headers) h
    before p after :
  JS.nonempty ip = true ->
  isLocalhost ip = false ->
  is_set (SKIP_LOCATION_HEADERS env) = false ->
  PROVIDER_HEADERS = before ++ p :: after ->
  Forall (fun q => providerAnswers headers q = false) before ->
  providerAnswers headers p = true ->
  let o := run (getLocation env ip headers false) h in
  let c := decodeHeader (of_header (headers !! toLowerCase (countryHeader p))) in
  let r := decodeHeader (of_header (headers !! toLowerCase (regionHeader p))) in
  let t := decodeHeader (of_header (headers !! toLowerCase (cityHeader p))) in
  value o = Some {| country := c; region := getRegionCode c r; city := t |}
  /\ handle o = h
  /\ withoutLogs (events o)
     = EvIsLocalhost ip
       :: map (fun q => EvHeaderGet (countryHeader q)) before
       ++ [EvHeaderGet (countryHeader p); EvHeaderGet (regionHeader p);
           EvHeaderGet (cityHeader p)].
Proof.
  intros Hne Hloc Hskip Hlist Hb Hp. cbv zeta. unfold run.
  pose proof (getLocation_remote env headers ip false h Hne Hloc) as Hr.
  cbv zeta in Hr. rewrite Hskip in Hr.
  change (negb false && negb false) with true in Hr. cbv iota in Hr. revert Hr. rewrite Hlist.
  destruct (providerTier_first env headers before p after h Hb Hp) as (Hv & Hh & He).
  rewrite Hv, Hh, He. intros (-> & -> & ->). done.
Qed.

Lemma getLocation_first_provider_witness :
  value (run (@getLocation samplePlatform defaultEnv "203.0.113.5" vercelHeaders false) None)
  = Some {| country := str "FR"; region := str "FR-IDF"; city := null |}.
Proof.
  refine (proj1 (@getLocation_first_provider samplePlatform defaultEnv "203.0.113.5"
                   vercelHeaders None
                   [ {| countryHeader := "cf-ipcountry"; regionHeader := "cf-region-code";
                        cityHeader := "cf-ipcity" |} ]
                   {| countryHeader := "x-vercel-ip-country";
                      regionHeader := "x-vercel-ip-country-region";
                      cityHeader := "x-vercel-ip-city" |}
                   [ {| countryHeader := "cloudfront-viewer-country";
                        regionHeader := "cloudfront-viewer-country-region";
                        cityHeader := "cloudfront-viewer-city" |} ]
                   eq_refl eq_refl eq_refl eq_refl _ eq_refl)).
  repeat constructor.
Defined.

(** X17.  When no provider's country header is present and not empty,
    [getLocation] reads each provider's country header once, in order, and
    then is the database tier: same value, same handle, same actions. *)
Theorem getLocation_no_provider_header `{Platform} env ip (headers : Headers) h :
  JS.nonempty ip = true ->
  isLocalhost ip = false ->
  is_set (SKIP_LOCATION_HEADERS env) = false ->
  Forall (fun q => providerAnswers headers q = false) PROVIDER_HEADERS ->
  let o := run (getLocation env ip headers false) h in
  let d := run (databaseTier env ip) h in
  value o = value d
  /\ handle o = handle d
  /\ withoutLogs (events o)
     = EvIsLocalhost ip
       :: map (fun q => EvHeaderGet (countryHeader q)) PROVIDER_HEADERS
       ++ withoutLogs (events d).
Proof.
  intros Hne Hloc Hskip Hnone. cbv zeta. unfold run.
  pose proof (getLocation_remote env headers ip false h Hne Hloc) as Hr.
  cbv zeta in Hr. rewrite Hskip in Hr.
  change (negb false && negb false) with true in Hr. cbv iota in Hr. revert Hr. revert Hnone.
  generalize PROVIDER_HEADERS. intros providers Hnone.
  destruct (providerTier_none env headers providers h Hnone) as (Hv & Hh & He).
  rewrite Hv, Hh, He. intros (-> & -> & ->).
  split; [done|]. split; [done|]. f_equal. f_equal.
  clear. induction providers as [|q rest IH]; [done|].
  cbn [map]. unfold withoutLogs. cbn [List.filter isLog negb]. by f_equal.
Qed.

Lemma getLocation_no_provider_header_witness :
  value (run (@getLocation samplePlatform defaultEnv "203.0.113.5" sampleHeaders false) None)
  = value (run (@databaseTier samplePlatform defaultEnv "203.0.113.5") None).
Proof.
  refine (proj1 (@getLocation_no_provider_header samplePlatform defaultEnv "203.0.113.5"
                   sampleHeaders None eq_refl eq_refl eq_refl _)).
  repeat constructor.
Defined.

(** ** Geolocation: calls that overlap *)

Section Stretches.
Context `{Platform}.
Variable env : Env.

(** [databaseTier] is [openDatabase] followed by [afterOpen]. *)
Lemma databaseTier_afterOpen ip :
  databaseTier env ip
  = (ready ← openDatabase env; if (ready : bool) then afterOpen env ip else mret None).
Proof. reflexivity. Qed.

Lemma out_eq {A} (o o' : Out A) :
  value o = value o' -> handle o = handle o' -> events o = events o' -> o = o'.
Proof. destruct o, o'. simpl. by intros -> -> ->. Qed.

Ltac crunch :=
  repeat (progress
            (rewrite ?value_bind, ?handle_bind, ?events_bind, ?handle_debug;
             cbn [value handle events mret M_ret emit getHandle setHandle
                  runAlone resume platformAnswer negb])).

Ltac same_out :=
  crunch; rewrite ?app_nil_r, <- ?app_assoc; cbn [app]; reflexivity.

Lemma runAlone_getLocation ip (headers : Headers) hasPayloadIP h :
  run (runAlone env 4 (Entered ip headers hasPayloadIP)) h
  = let o := run (getLocation env ip headers hasPayloadIP) h in
    mkOut (Returned (value o)) (handle o) (events o).
Proof.
  cbv zeta. unfold run, getLocation. rewrite databaseTier_afterOpen.
  unfold openDatabase. fold (dbPathOf env).
  cbn [runAlone resume platformAnswer].
  apply out_eq; cbn [value handle events];
    (destruct (JS.nonempty ip); cbn [negb]; [|same_out]);
    crunch;
    (destruct (isLocalhost ip); [same_out|]);
    crunch;
    generalize (if negb hasPayloadIP && negb (is_set (SKIP_LOCATION_HEADERS env))
                then providerTier env headers PROVIDER_HEADERS
                else mret None); intros tier;
    destruct (tier h) as [[loc|] [r|] evs]; try same_out;
    crunch;
    (destruct (fsAccess (dbPathOf env)); [|same_out]);
    crunch;
    destruct (maxmindOpen (dbPathOf env)); same_out.
Qed.

Lemma keepsHandle_lookup s : keepsHandle (lookup s).
Proof. by intros [r|]. Qed.

Lemma keepsHandle_providerTier (headers : Headers) providers :
  keepsHandle (providerTier env headers providers).
Proof.
  induction providers as [|p rest IH]; [apply keepsHandle_ret|].
  cbn [providerTier].
  apply keepsHandle_bind; [apply keepsHandle_headers_get|intros c].
  destruct (truthy (of_header c)); [|exact IH].
  repeat first [ apply keepsHandle_ret | apply keepsHandle_debug
               | apply keepsHandle_headers_get
               | apply keepsHandle_bind; [|intros ?] ].
Qed.

Lemma keepsHandle_afterOpen ip : keepsHandle (afterOpen env ip).
Proof.
  unfold afterOpen. cbv zeta.
  apply keepsHandle_bind; [apply keepsHandle_lookup|intros [rec|]];
    repeat first [ apply keepsHandle_ret | apply keepsHandle_debug
                 | apply keepsHandle_bind; [|intros ?] ].
Qed.

Ltac keeps :=
  repeat first
    [ apply keepsHandle_ret | apply keepsHandle_debug | apply keepsHandle_emit
    | apply keepsHandle_afterOpen | apply keepsHandle_providerTier
    | apply keepsHandle_bind; [|intros ?]
    | match goal with
      | |- keepsHandle (if ?b then _ else _) => destruct b
      | |- keepsHandle (match ?x with _ => _ end) => destruct x
      end ].

(** Only a call suspended in [maxmind.open] assigns the handle, and what it
    assigns is the reader the opening settled with. *)
Lemma resume_handle stage answer h :
  handle (resume env stage answer h) = h
  \/ exists ip dbPath r,
       stage = AwaitingOpen ip dbPath /\ answer = OpenSettled (Some r)
       /\ handle (resume env stage answer h) = Some r.
Proof.
  destruct stage as [ip headers hp|ip headers hp|ip dbPath|ip dbPath|location],
           answer as [|isLocal|found|[r|]];
    try (left; reflexivity).
  - left. cbn [resume].
    assert (Hk : keepsHandle (if negb (JS.nonempty ip)
                   then debug env ("[GEO] Skipping localhost IP: " +:+ ip) ;;
                        mret (Returned None)
                   else emit (EvIsLocalhost ip) ;;
                        mret (AwaitingLocalhost ip headers hp))) by keeps.
    apply Hk.
  - left. cbn [resume]. destruct isLocal.
    + assert (Hk : keepsHandle (debug env ("[GEO] Skipping localhost IP: " +:+ ip) ;;
                                mret (Returned None))) by keeps.
      apply Hk.
    + rewrite handle_bind, handle_debug, handle_bind.
      assert (Ht : keepsHandle (if negb hp && negb (is_set (SKIP_LOCATION_HEADERS env))
                                then providerTier env headers PROVIDER_HEADERS
                                else mret None)) by keeps.
      rewrite Ht.
      destruct (value _) as [loc|]; [reflexivity|].
      rewrite handle_bind. cbn [getHandle value handle].
      destruct h as [r|].
      * rewrite handle_bind, keepsHandle_afterOpen. reflexivity.
      * rewrite !handle_bind, handle_debug. reflexivity.
  - left. cbn [resume]. by destruct found.
  - right. exists ip, dbPath, r. split; [done|]. split; [done|].
    cbn [resume]. rewrite !handle_bind, handle_debug, keepsHandle_afterOpen.
    reflexivity.
Qed.

Lemma resumeAt_handle i answer calls h :
  handle (resumeAt env i answer calls h) = h
  \/ exists r, answer = OpenSettled (Some r)
              /\ handle (resumeAt env i answer calls h) = Some r.
Proof.
  unfold resumeAt. destruct (calls !! i) as [stage|]; [|by left].
  rewrite handle_bind. cbn [mret M_ret handle].
  destruct (resume_handle stage answer h) as [->|(ip & dbPath & r & _ & -> & ->)];
    [by left|right; by exists r].
Qed.

Lemma interleave_handle schedule calls h :
  (h <> None -> handle (interleave env schedule calls h) <> None)
  /\ (handle (interleave env schedule calls h) = h
      \/ exists i r, In (i, OpenSettled (Some r)) schedule
                     /\ handle (interleave env schedule calls h) = Some r).
Proof.
  revert calls h. induction schedule as [|[i answer] rest IH]; intros calls h.
  - split; [done|by left].
  - cbn [interleave]. rewrite handle_bind.
    destruct (IH (value (resumeAt env i answer calls h))
                 (handle (resumeAt env i answer calls h))) as [IHkeep IHfrom].
    destruct (resumeAt_handle i answer calls h) as [Hsame|(r & -> & Hr)].
    + rewrite Hsame in IHkeep, IHfrom |- *. split; [exact IHkeep|].
      destruct IHfrom as [?|(j & r & Hin & ?)]; [by left|].
      right. exists j, r. split; [by right|done].
    + split.
      * intros _. apply IHkeep. by rewrite Hr.
      * destruct IHfrom as [Hlast|(j & r' & Hin & ?)].
        -- right. exists i, r. split; [by left|]. by rewrite Hlast.
        -- right. exists j, r'. split; [by right|done].
Qed.

Lemma resumeAt_first answer stage rest h :
  resumeAt env 0 answer (stage :: rest) h
  = mkOut (value (resume env stage answer h) :: rest)
          (handle (resume env stage answer h))
          (events (resume env stage answer h) ++ []).
Proof. reflexivity. Qed.

Lemma resumeAt_second answer first stage rest h :
  resumeAt env 1 answer (first :: stage :: rest) h
  = mkOut (first :: value (resume env stage answer h) :: rest)
          (handle (resume env stage answer h))
          (events (resume env stage answer h) ++ []).
Proof. reflexivity. Qed.

Lemma interleave_cons_handle i answer rest calls h :
  handle (interleave env ((i, answer) :: rest) calls h)
  = handle (interleave env rest (value (resumeAt env i answer calls h))
              (handle (resumeAt env i answer calls h))).
Proof. reflexivity. Qed.

Lemma resume_called ip (headers : Headers) hasPayloadIP h :
  JS.nonempty ip = true ->
  value (resume env (Entered ip headers hasPayloadIP) Called h)
  = AwaitingLocalhost ip headers hasPayloadIP
  /\ handle (resume env (Entered ip headers hasPayloadIP) Called h) = h.
Proof. intros Hne. cbn [resume]. by rewrite Hne. Qed.

Lemma resume_remote_empty ip (headers : Headers) :
  value (resume env (AwaitingLocalhost ip headers true) (LocalhostSettled false) None)
  = AwaitingAccess ip (dbPathOf env)
  /\ handle (resume env (AwaitingLocalhost ip headers true) (LocalhostSettled false) None)
     = None.
Proof.
  cbn [resume negb andb].
  repeat (progress
            (rewrite ?value_bind, ?handle_bind, ?handle_debug;
             cbn [value handle mret M_ret emit getHandle])).
  done.
Qed.

Lemma resume_found ip dbPath h :
  value (resume env (AwaitingAccess ip dbPath) (AccessSettled true) h)
  = AwaitingOpen ip dbPath
  /\ handle (resume env (AwaitingAccess ip dbPath) (AccessSettled true) h) = h.
Proof. done. Qed.

Lemma resume_opened ip dbPath r h :
  handle (resume env (AwaitingOpen ip dbPath) (OpenSettled (Some r)) h) = Some r.
Proof.
  cbn [resume]. rewrite !handle_bind, handle_debug, keepsHandle_afterOpen. reflexivity.
Qed.

(** Two calls that both find the handle empty both open the database, and
    the later assignment replaces the reader the earlier one installed. *)
Lemma interleave_replaces ip1 ip2 (headers1 headers2 : Headers) r1 r2 :
  JS.nonempty ip1 = true ->
  JS.nonempty ip2 = true ->
  let calls := [Entered ip1 headers1 true; Entered ip2 headers2 true] in
  handle (interleave env (overlappingOpens r1) calls None) = Some r1
  /\ handle (interleave env (overlappingOpens r1 ++ [(1%nat, OpenSettled (Some r2))])
               calls None) = Some r2.
Proof.
  intros Hne1 Hne2. cbv zeta. unfold overlappingOpens. cbn [app].
  destruct (resume_called ip1 headers1 true None Hne1) as [Hv1 Hh1].
  destruct (resume_called ip2 headers2 true None Hne2) as [Hv2 Hh2].
  destruct (resume_remote_empty ip1 headers1) as [Hv3 Hh3].
  destruct (resume_remote_empty ip2 headers2) as [Hv4 Hh4].
  split.
  - rewrite interleave_cons_handle, resumeAt_first. cbn [value handle]. rewrite Hv1, Hh1.
    rewrite interleave_cons_handle, resumeAt_second. cbn [value handle]. rewrite Hv2, Hh2.
    rewrite interleave_cons_handle, resumeAt_first. cbn [value handle]. rewrite Hv3, Hh3.
    rewrite interleave_cons_handle, resumeAt_second. cbn [value handle]. rewrite Hv4, Hh4.
    rewrite interleave_cons_handle, resumeAt_first. cbn [value handle].
    destruct (resume_found ip1 (dbPathOf env) None) as [-> ->].
    rewrite interleave_cons_handle, resumeAt_second. cbn [value handle].
    destruct (resume_found ip2 (dbPathOf env) None) as [-> ->].
    rewrite interleave_cons_handle, resumeAt_first. cbn [value handle].
    rewrite resume_opened. reflexivity.
  - rewrite interleave_cons_handle, resumeAt_first. cbn [value handle]. rewrite Hv1, Hh1.
    rewrite interleave_cons_handle, resumeAt_second. cbn [value handle]. rewrite Hv2, Hh2.
    rewrite interleave_cons_handle, resumeAt_first. cbn [value handle]. rewrite Hv3, Hh3.
    rewrite interleave_cons_handle, resumeAt_second. cbn [value handle]. rewrite Hv4, Hh4.
    rewrite interleave_cons_handle, resumeAt_first. cbn [value handle].
    destruct (resume_found ip1 (dbPathOf env) None) as [-> ->].
    rewrite interleave_cons_handle, resumeAt_second. cbn [value handle].
    destruct (resume_found ip2 (dbPathOf env) None) as [-> ->].
    rewrite interleave_cons_handle, resumeAt_first. cbn [value handle].
    rewrite resume_opened.
    rewrite interleave_cons_handle, resumeAt_second. cbn [value handle].
    rewrite resume_opened. reflexivity.
Qed.

End Stretches.

(** X18.  What [getLocation] does to [globalThis[MAXMIND]] when calls
    overlap.  A call is suspended at [await isLocalhost], [await fs.access]
    and [await maxmind.open], and other calls may run in between.
    - A call that runs alone, resumed with the platform's answers, does
      exactly what [getLocation] does in one piece: same location, same
      handle, same events.
    - A stretch of a call leaves the handle as it is, unless the call was
      suspended in [maxmind.open] and the opening settled with a reader:
      then that reader is assigned, whatever the handle holds by then.
    - Under any schedule the handle is never emptied, and what it holds at
      the end is what it held at the start or a reader that an opening of
      the schedule settled with.
    - An open handle can be replaced: when two calls both find the handle
      empty before either has opened the database, both open it, and the
      second assignment overwrites the reader installed by the first. *)
Theorem getLocation_handle_interleaved `{Platform} env :
  (forall ip (headers : Headers) hasPayloadIP h,
      run (runAlone env 4 (Entered ip headers hasPayloadIP)) h
      = let o := run (getLocation env ip headers hasPayloadIP) h in
        mkOut (Returned (value o)) (handle o) (events o))
  /\ (forall stage answer h,
        handle (run (resume env stage answer) h) = h
        \/ exists ip dbPath r,
             stage = AwaitingOpen ip dbPath /\ answer = OpenSettled (Some r)
             /\ handle (run (resume env stage answer) h) = Some r)
  /\ (forall schedule calls h,
        let o := run (interleave env schedule calls) h in
        (h <> None -> handle o <> None)
        /\ (handle o = h
            \/ exists i r, In (i, OpenSettled (Some r)) schedule /\ handle o = Some r))
  /\ (forall ip1 ip2 (headers1 headers2 : Headers) r1 r2,
        JS.nonempty ip1 = true ->
        JS.nonempty ip2 = true ->
        let calls := [Entered ip1 headers1 true; Entered ip2 headers2 true] in
        handle (run (interleave env (overlappingOpens r1) calls) None) = Some r1
        /\ handle (run (interleave env
                          (overlappingOpens r1 ++ [(1%nat, OpenSettled (Some r2))])
                          calls) None) = Some r2).
Proof.
  split; [intros ip headers hasPayloadIP h; exact (runAlone_getLocation env ip headers hasPayloadIP h)|].
  split; [intros stage answer h; exact (resume_handle env stage answer h)|].
  split; [intros schedule calls h; exact (interleave_handle env schedule calls h)|].
  intros ip1 ip2 headers1 headers2 r1 r2 Hne1 Hne2.
  exact (interleave_replaces env ip1 ip2 headers1 headers2 r1 r2 Hne1 Hne2).
Qed.

Section WellFormed.
Context `{Platform}.
Variable env : Env.

Lemma returns_ret {A} (P : A -> Prop) a : P a -> returns P (mret a).
Proof. by intros Ha h. Qed.

Lemma returns_bind {A B} (P : B -> Prop) (m : M A) (f : A -> M B) :
  (forall a, returns P (f a)) -> returns P (m ≫= f).
Proof. intros Hf h. rewrite value_bind. apply Hf. Qed.

Lemma returns_bind_with {A B} (Q : A -> Prop) (P : B -> Prop) (m : M A) (f : A -> M B) :
  returns Q m -> (forall a, Q a -> returns P (f a)) -> returns P (m ≫= f).
Proof. intros Hm Hf h. rewrite value_bind. apply Hf, Hm. Qed.

Lemma wellFormed_build c r t :
  c <> null -> wellFormed {| country := c; region := getRegionCode c r; city := t |}.
Proof.
  intros Hc. split; [exact Hc|]. split; [apply getRegionCode_not_null|].
  cbn [region country]. intros x Hx.
  destruct (getRegionCode_defined c r x Hx) as (c0 & -> & Hne & Hinc). eauto.
Qed.

Lemma good_some loc : wellFormed loc -> good (Some loc).
Proof. by intros Hloc ? [= <-]. Qed.

Lemma good_none : good None.
Proof. done. Qed.

Lemma providerTier_wellFormed (headers : Headers) providers :
  returns good (providerTier env headers providers).
Proof.
  induction providers as [|p rest IH]; [by apply returns_ret|].
  cbn [providerTier]. apply returns_bind. intros c.
  destruct c as [v|]; cbn [of_header truthy]; [|exact IH].
  destruct (JS.nonempty v); [|exact IH].
  do 3 (apply returns_bind; intros ?). apply returns_ret.
  apply good_some, wellFormed_build. done.
Qed.

Lemma databaseTier_wellFormed ip : returns good (databaseTier env ip).
Proof.
  unfold databaseTier. apply returns_bind. intros [|]; [|by apply returns_ret].
  cbv zeta. apply returns_bind. intros [rec|].
  - do 2 (apply returns_bind; intros ?). apply returns_ret.
    apply good_some, wellFormed_build.
    by destruct (country_iso rec), (registered_country_iso rec).
  - apply returns_bind; intros ?. apply returns_bind; intros ?. by apply returns_ret.
Qed.

Lemma getLocation_returns_wellFormed ip (headers : Headers) hasPayloadIP :
  returns good (getLocation env ip headers hasPayloadIP).
Proof.
  unfold getLocation. apply returns_bind. intros [|].
  - apply returns_bind; intros ?. by apply returns_ret.
  - apply returns_bind; intros ?.
    apply (returns_bind_with good).
    + destruct (negb hasPayloadIP && negb (is_set (SKIP_LOCATION_HEADERS env)));
        [apply providerTier_wellFormed|by apply returns_ret].
    + intros [loc|] Hloc; [by apply returns_ret|apply databaseTier_wellFormed].
Qed.

End WellFormed.

(** X19.  Every location [getLocation] returns is well formed: its country
    and its region are never [null], and a defined region contains the
    separator [-] and comes with a non-empty country. *)
Theorem getLocation_wellFormed `{Platform} env ip (headers : Headers) hasPayloadIP h loc :
  value (run (getLocation env ip headers hasPayloadIP) h) = Some loc ->
  wellFormed loc.
Proof. apply (getLocation_returns_wellFormed env ip headers hasPayloadIP h). Qed.

Lemma getLocation_wellFormed_witness :
  wellFormed {| country := str "FR"; region := str "FR-IDF"; city := null |}.
Proof.
  exact (@getLocation_wellFormed samplePlatform defaultEnv "203.0.113.5" vercelHeaders
           false None _ eq_refl).
Defined.

(** ** The blocklist, continued *)

Section BlocklistMore.
Context `{AddressLib}.

(** On rules that are only compared, [find] answers the client address when
    it is among them. *)
Lemma arrayFind_exact clientIp ips :
  Forall (fun r => JS.indexOf r "/"%char <= 0) ips ->
  arrayFind (matchesRule clientIp) ips
  = Returns (if existsb (fun r => String.eqb r clientIp) ips
             then VString clientIp else VUndefined).
Proof.
  induction 1 as [|ip rest Hip _ IH]; [done|].
  cbn [arrayFind existsb]. rewrite (matchesRule_plain _ _ Hip).
  destruct (String.eqb_spec ip clientIp) as [->|Hne]; [done|].
  by rewrite IH.
Qed.

Lemma existsb_eqb_In clientIp ips :
  existsb (fun r => String.eqb r clientIp) ips = true <-> In clientIp ips.
Proof.
  rewrite existsb_exists. split.
  - intros (r & Hin & Hr). apply String.eqb_eq in Hr. by subst.
  - intros Hin. exists clientIp. split; [done|apply String.eqb_refl].
Qed.

Lemma arrayFind_reaches clientIp before after :
  Forall (fun r => JS.indexOf r "/"%char <= 0) before ->
  arrayFind (matchesRule clientIp) (before ++ clientIp :: after)
  = Returns (VString clientIp).
Proof.
  induction 1 as [|ip rest Hip _ IH].
  - cbn [app arrayFind]. unfold matchesRule. by rewrite String.eqb_refl.
  - cbn [app arrayFind]. rewrite (matchesRule_plain _ _ Hip).
    destruct (String.eqb_spec ip clientIp) as [->|Hne]; [done|exact IH].
Qed.

End BlocklistMore.

(** X20.  A blocklist without CIDR rules (no rule has a slash after its
    first character) never raises and never calls the address library:
    [hasBlockedIp] returns, and its result is truthy exactly when the client
    address is not empty and is one of the rules.  An empty client address
    found among the rules comes back as the empty string, which is falsy. *)
Theorem hasBlockedIp_exact_only `{AddressLib} env ignoreIps clientIp :
  IGNORE_IP env = Some ignoreIps ->
  Forall (fun r => JS.indexOf r "/"%char <= 0) (rules ignoreIps) ->
  exists v,
    hasBlockedIp env clientIp = Returns v
    /\ (ToBoolean v = true <->
        JS.nonempty clientIp = true /\ In clientIp (rules ignoreIps)).
Proof.
  intros Hc Hplain. unfold hasBlockedIp. rewrite Hc.
  destruct (JS.nonempty ignoreIps) eqn:Hn.
  - rewrite (arrayFind_exact _ _ Hplain).
    destruct (existsb _ _) eqn:Hex; eexists; (split; [reflexivity|]); cbn [ToBoolean].
    + apply existsb_eqb_In in Hex. by split; [|intros [? _]].
    + split; [done|]. intros [_ Hin]. apply existsb_eqb_In in Hin. congruence.
  - exists (VBool false). split; [done|]. cbn [ToBoolean]. split; [done|].
    destruct ignoreIps; [|done]. intros [Hne [<-|[]]]. done.
Qed.

Lemma hasBlockedIp_exact_only_witness :
  exists v,
    @hasBlockedIp DottedQuad.lib (blocklistEnv "192.0.2.1, not-an-address") "not-an-address"
    = Returns v
    /\ (ToBoolean v = true <->
        JS.nonempty "not-an-address" = true
        /\ In "not-an-address"%string (rules "192.0.2.1, not-an-address")).
Proof.
  refine (@hasBlockedIp_exact_only DottedQuad.lib (blocklistEnv "192.0.2.1, not-an-address")
            "192.0.2.1, not-an-address" "not-an-address" eq_refl _).
  repeat constructor; vm_compute; discriminate.
Defined.

(** X21.  An exact rule reached before any CIDR rule decides: when the
    client address is among the rules and no rule before it has a slash
    after its first character, [hasBlockedIp] returns the client address,
    whether or not it parses as an address and whatever the later rules
    are. *)
Theorem hasBlockedIp_exact_before_cidr `{AddressLib} env ignoreIps clientIp before after :
  IGNORE_IP env = Some ignoreIps ->
  JS.nonempty ignoreIps = true ->
  rules ignoreIps = before ++ clientIp :: after ->
  Forall (fun r => JS.indexOf r "/"%char <= 0) before ->
  hasBlockedIp env clientIp = Returns (VString clientIp).
Proof.
  intros Hc Hn Hr Hplain. rewrite (hasBlockedIp_set _ _ _ Hc Hn), Hr.
  by apply arrayFind_reaches.
Qed.

Lemma hasBlockedIp_exact_before_cidr_witness :
  @hasBlockedIp DottedQuad.lib (blocklistEnv "unknown, 10.0.0.0/abc") "unknown"
  = Returns (VString "unknown").
Proof.
  refine (@hasBlockedIp_exact_before_cidr DottedQuad.lib
            (blocklistEnv "unknown, 10.0.0.0/abc") "unknown, 10.0.0.0/abc" "unknown"
            [] ["10.0.0.0/abc"%string] eq_refl eq_refl eq_refl _).
  constructor.
Defined.

Section Rules.

Lemma split_no_separator c s :
  Forall (fun piece => JS.includes piece c = false) (JS.split c s).
Proof.
  induction s as [|a s IH]; [constructor; [done|constructor]|].
  cbn [JS.split]. destruct (Ascii.eqb a c) eqn:Ha.
  - by constructor.
  - destruct (JS.split c s) as [|piece rest].
    { constructor; [|constructor]. unfold JS.includes. cbn [JS.find_first]. by rewrite Ha. }
    inversion IH as [|? ? Hp Hrest]; subst. constructor; [|done].
    unfold JS.includes in *. cbn [JS.find_first]. rewrite Ha.
    by destruct (JS.find_first c piece).
Qed.

Lemma includes_trimStart c s :
  JS.includes s c = false -> JS.includes (JS.trimStart s) c = false.
Proof.
  induction s as [|a s IH]; [done|]. cbn [JS.trimStart].
  destruct (JS.isWhiteSpace a); [|done].
  intros Hs. apply IH. unfold JS.includes in *. cbn [JS.find_first] in Hs.
  destruct (Ascii.eqb a c); [done|]. by destruct (JS.find_first c s).
Qed.

Lemma includes_cons_false c a s :
  JS.includes (String a s) c = false <-> Ascii.eqb a c = false /\ JS.includes s c = false.
Proof.
  unfold JS.includes. cbn [JS.find_first].
  destruct (Ascii.eqb a c); [by split; [|intros [? _]]|].
  destruct (JS.find_first c s); by split; [|intros [_ ?]].
Qed.

Lemma includes_trimEnd c s :
  JS.includes s c = false -> JS.includes (JS.trimEnd s) c = false.
Proof.
  induction s as [|a s IH]; [done|]. intros [Ha Hs]%includes_cons_false.
  specialize (IH Hs). cbn [JS.trimEnd].
  destruct (JS.trimEnd s) as [|b t].
  - destruct (JS.isWhiteSpace a); [done|]. by apply includes_cons_false.
  - by apply includes_cons_false.
Qed.

Lemma trimEnd_idem s : JS.trimEnd (JS.trimEnd s) = JS.trimEnd s.
Proof.
  induction s as [|a s IH]; [done|]. cbn [JS.trimEnd].
  destruct (JS.trimEnd s) as [|b t] eqn:Ht.
  - destruct (JS.isWhiteSpace a) eqn:Ha; [done|]. cbn [JS.trimEnd]. by rewrite Ha.
  - cbn [JS.trimEnd] in *. rewrite IH. reflexivity.
Qed.

Lemma trimStart_head a s :
  JS.isWhiteSpace a = false -> JS.trimStart (String a s) = String a s.
Proof. intros Ha. cbn [JS.trimStart]. by rewrite Ha. Qed.

Lemma trimStart_shape s :
  JS.trimStart s = EmptyString
  \/ exists a t, JS.trimStart s = String a t /\ JS.isWhiteSpace a = false.
Proof.
  induction s as [|a s IH]; [by left|]. cbn [JS.trimStart].
  destruct (JS.isWhiteSpace a) eqn:Ha; [exact IH|]. right. by exists a, s.
Qed.

Lemma trimEnd_head a s :
  JS.isWhiteSpace a = false -> exists t, JS.trimEnd (String a s) = String a t.
Proof.
  intros Ha. cbn [JS.trimEnd]. destruct (JS.trimEnd s) as [|b t].
  - rewrite Ha. by eexists.
  - by eexists.
Qed.

Lemma trim_idem s : JS.trim (JS.trim s) = JS.trim s.
Proof.
  unfold JS.trim. destruct (trimStart_shape s) as [->|(a & t & -> & Ha)]; [done|].
  destruct (trimEnd_head a t Ha) as [t' Ht']. rewrite Ht'.
  rewrite (trimStart_head _ _ Ha), <- Ht'. apply trimEnd_idem.
Qed.

End Rules.

(** X22.  The rules [hasBlockedIp] searches: there is always at least one,
    each is trimmed (trimming it again changes nothing) and none contains a
    comma. *)
Theorem rules_shape (ignoreIps : string) :
  rules ignoreIps <> []
  /\ Forall (fun r => JS.trim r = r /\ JS.includes r ","%char = false) (rules ignoreIps).
Proof.
  unfold rules. split.
  - destruct ignoreIps as [|a s]; [done|]. cbn [JS.split].
    destruct (Ascii.eqb a ","%char); [done|]. by destruct (JS.split _ s).
  - apply Forall_map. eapply Forall_impl; [apply (split_no_separator ","%char)|].
    intros piece Hp. cbn beta. split; [apply trim_idem|].
    unfold JS.trim. by apply includes_trimEnd, includes_trimStart.
Qed.

(** ** Device classification: widths that are not numbers *)

Section Widths.

Lemma screenWidth_before_x (width rest : string) :
  JS.includes width "x"%char = false ->
  screenWidth (width +:+ "x" +:+ rest) = width.
Proof.
  unfold screenWidth. induction width as [|a s IH]; [done|].
  unfold JS.includes. cbn [JS.find_first].
  destruct (Ascii.eqb a "x"%char) eqn:Ha; [done|]. intros Hs.
  rewrite append_cons, split_cons, Ha. f_equal. apply IH.
  unfold JS.includes. by destruct (JS.find_first "x"%char s).
Qed.

Lemma whitespace_no_x (s : string) :
  JS.all_chars JS.isWhiteSpace s = true -> JS.includes s "x"%char = false.
Proof.
  induction s as [|a s IH]; [done|]. cbn [JS.all_chars].
  intros [Ha Hs]%andb_prop. unfold JS.includes in *. cbn [JS.find_first].
  destruct (Ascii.eqb_spec a "x"%char) as [->|_]; [done|].
  specialize (IH Hs). by destruct (JS.find_first "x"%char s).
Qed.

Lemma trimStart_whitespace (s : string) :
  JS.all_chars JS.isWhiteSpace s = true -> JS.trimStart s = EmptyString.
Proof.
  induction s as [|a s IH]; [done|]. cbn [JS.all_chars JS.trimStart].
  intros [Ha Hs]%andb_prop. rewrite Ha. by apply IH.
Qed.

Lemma StringToNumber_blank (s : string) :
  JS.all_chars JS.isWhiteSpace s = true -> Num.StringToNumber s = Finite 0.
Proof.
  intros Hs. unfold Num.StringToNumber, JS.trim. by rewrite (trimStart_whitespace _ Hs).
Qed.

Lemma StringToNumber_letter c (w : string) :
  JS.isLower c || JS.isUpper c = true ->
  Num.le1920 (Num.StringToNumber (String c w)) = false.
Proof.
  intros Hl. unfold Num.StringToNumber, JS.trim.
  destruct c as [[] [] [] [] [] [] [] []];
    try (vm_compute in Hl; discriminate Hl); clear Hl;
    cbn [JS.trimStart JS.isWhiteSpace JS.trimEnd];
    destruct (JS.trimEnd w) as [|b t];
    unfold Num.strDecimalLiteral;
    match goal with
    | |- context [String.eqb ?s "Infinity"] => destruct (String.eqb s "Infinity")
    end; reflexivity.
Qed.

End Widths.

(** X23.  A screen whose width part, the text before the first [x], is
    missing or blank converts to the number 0: a parsed ["desktop"] with
    such a screen, ["x1080"] for one, is classified as ["laptop"]. *)
Theorem getDevice_blank_width `{UserAgentParser} (userAgent width rest : string) :
  parsedType userAgent = "desktop" ->
  JS.all_chars JS.isWhiteSpace width = true ->
  getDevice userAgent (width +:+ "x" +:+ rest) = "laptop".
Proof.
  intros Ht Hw. rewrite (getDevice_desktop _ _ Ht).
  rewrite (screenWidth_before_x _ _ (whitespace_no_x _ Hw)), (StringToNumber_blank _ Hw).
  assert (JS.nonempty (width +:+ "x" +:+ rest) = true) as ->; [|done].
  destruct width as [|a s]; [done|]. by rewrite append_cons.
Qed.

Lemma getDevice_blank_width_witness :
  @getDevice sampleParser "Mozilla/5.0 (X11; Linux x86_64)" "x1080" = "laptop".
Proof.
  exact (@getDevice_blank_width sampleParser "Mozilla/5.0 (X11; Linux x86_64)"
           "" "1080" eq_refl eq_refl).
Defined.

(** X24.  A screen that starts with a letter other than [x] has a width
    that converts to [NaN] or to [Infinity], neither of which is at most
    1920: a parsed ["desktop"] stays ["desktop"]. *)
Theorem getDevice_alphabetic_width `{UserAgentParser} (userAgent : string) c (rest : string) :
  parsedType userAgent = "desktop" ->
  JS.isLower c || JS.isUpper c = true ->
  c <> "x"%char ->
  getDevice userAgent (String c rest) = "desktop".
Proof.
  intros Ht Hl Hx. rewrite (getDevice_desktop _ _ Ht).
  unfold screenWidth. rewrite split_cons.
  apply Ascii.eqb_neq in Hx. rewrite Hx.
  by rewrite (StringToNumber_letter _ _ Hl), andb_false_r.
Qed.

Lemma getDevice_alphabetic_width_witness :
  @getDevice sampleParser "Mozilla/5.0 (X11; Linux x86_64)" "widex1080" = "desktop".
Proof.
  refine (@getDevice_alphabetic_width sampleParser "Mozilla/5.0 (X11; Linux x86_64)"
            "w"%char "idex1080" eq_refl eq_refl _).
  discriminate.
Defined.

(** ** The client record *)

Section ClientRecord.
Context `{Platform} `{Detectors}.
Variable env : Env.
Variable headers : Headers.

Lemma emits_weaken {A} (P Q : Event -> bool) (m : M A) :
  (forall e, P e = true -> Q e = true) -> emits P m -> emits Q m.
Proof.
  intros HPQ Hm h. specialize (Hm h).
  rewrite forallb_forall in *. intros e He. by apply HPQ, Hm.
Qed.

(** With the address taken from the payload, [getLocation] reads no
    header. *)
Lemma getLocation_payload_no_header_read ip :
  emits (fun e => negb (isHeaderRead e)) (getLocation env ip headers true).
Proof.
  unfold getLocation. cbn [negb andb].
  apply emits_bind.
  { destruct (negb (JS.nonempty ip)); [apply emits_ret|].
    apply emits_bind; [by apply emits_emit|intros ?; apply emits_ret]. }
  intros [|].
  { apply emits_bind; [by apply emits_debug|intros ?; apply emits_ret]. }
  apply emits_bind; [by apply emits_debug|intros _].
  apply emits_bind; [apply emits_ret|intros [loc|]];
    [apply emits_ret|apply databaseTier_no_header_read].
Qed.

Lemma getLocationAt_null_quiet hasPayloadIP :
  keepsHandle (getLocationAt env null headers hasPayloadIP)
  /\ emits isLog (getLocationAt env null headers hasPayloadIP).
Proof.
  cbn [getLocationAt]. split.
  - apply keepsHandle_bind; [apply keepsHandle_debug|intros ?; apply keepsHandle_ret].
  - apply emits_bind; [by apply emits_debug|intros ?; apply emits_ret].
Qed.

(** The last step of [getClientInfo]: the record, or the error of
    [getDevice]. *)
Lemma orElse_absentOrText v : absentOrText (orElse v undefined).
Proof.
  unfold orElse, absentOrText. destruct v as [| |s]; cbn [truthy]; [by left..|].
  destruct (JS.nonempty s) eqn:Hs; [right; by exists s|by left].
Qed.

End ClientRecord.

(** X25.  With a non-empty address in the payload, [getClientInfo] reports
    that address and consults the request headers for nothing but the user
    agent: no address header and no provider header is read. *)
Theorem getClientInfo_payload_ip `{Platform} `{Detectors} env (headers : Headers)
    payload h s :
  payload_ip payload = str s ->
  JS.nonempty s = true ->
  let o := run (getClientInfo env headers payload) h in
  (forall info, value o = Returns info -> info_ip info = str s)
  /\ forallb (fun e => negb (isHeaderRead e) || isUserAgentRead e) (events o) = true.
Proof.
  intros Hip Hs. cbv zeta. unfold run. split.
  - revert h.
    change (returns (fun r => forall info, r = Returns info -> info_ip info = str s)
              (getClientInfo env headers payload)).
    unfold getClientInfo. rewrite Hip. cbn [truthy]. rewrite Hs.
    apply returns_bind. intros userAgent.
    apply (returns_bind_with (fun r => r = Returns (str s))); [by apply returns_ret|].
    intros ipResult ->. cbv zeta.
    apply returns_bind. intros _. apply returns_bind. intros location.
    apply returns_bind. intros _.
    destruct (if nullish (payload_device payload) then _ else _) as [device|e];
      apply returns_ret; [|done].
    by intros info [= <-].
  - revert h.
    change (emits (fun e => negb (isHeaderRead e) || isUserAgentRead e)
              (getClientInfo env headers payload)).
    unfold getClientInfo. rewrite Hip. cbn [truthy]. rewrite Hs. cbv zeta.
    apply emits_bind.
    { destruct (truthy (payload_userAgent payload)); [apply emits_ret|].
      apply emits_bind; [by apply emits_headers_get|intros ?; apply emits_ret]. }
    intros userAgent. apply emits_bind; [apply emits_ret|intros [ip|e]];
      [|apply emits_ret].
    apply emits_bind; [by apply emits_debug|intros _].
    apply emits_bind.
    { destruct ip as [| |ip]; cbn [getLocationAt].
      - eapply emits_weaken; [|apply getLocation_payload_no_header_read].
        by intros e ->.
      - apply emits_bind; [by apply emits_debug|intros ?; apply emits_ret].
      - eapply emits_weaken; [|apply getLocation_payload_no_header_read].
        by intros e ->. }
    intros location. apply emits_bind; [by apply emits_debug|intros _].
    destruct (if nullish (payload_device payload) then _ else _); apply emits_ret.
Qed.

Lemma getClientInfo_payload_ip_witness :
  forallb (fun e => negb (isHeaderRead e) || isUserAgentRead e)
    (events (run (@getClientInfo samplePlatform sampleDetectors defaultEnv sampleHeaders
                    (ipPayload "203.0.113.5")) None)) = true.
Proof.
  exact (proj2 (@getClientInfo_payload_ip samplePlatform sampleDetectors defaultEnv
                  sampleHeaders (ipPayload "203.0.113.5") None "203.0.113.5"
                  eq_refl eq_refl)).
Defined.

(** X26.  In every record [getClientInfo] returns, the country, the region
    and the city are each absent ([undefined]) or a non-empty string, never
    [null] and never the empty string, whatever the decoder does. *)
Theorem getClientInfo_location_fields `{Platform} `{Detectors} env (headers : Headers)
    payload h info :
  value (run (getClientInfo env headers payload) h) = Returns info ->
  absentOrText (info_country info)
  /\ absentOrText (info_region info)
  /\ absentOrText (info_city info).
Proof.
  unfold run. revert h info.
  change (returns (fun r => forall info, r = Returns info ->
                     absentOrText (info_country info)
                     /\ absentOrText (info_region info)
                     /\ absentOrText (info_city info))
            (getClientInfo env headers payload)).
  unfold getClientInfo. cbv zeta.
  apply returns_bind. intros userAgent. apply returns_bind.
  intros [ip|e]; [|by apply returns_ret].
  apply returns_bind. intros _. apply returns_bind. intros location.
  apply returns_bind. intros _.
  destruct (if nullish (payload_device payload) then _ else _) as [device|e];
    apply returns_ret; [|done].
  intros info [= <-]. cbn [info_country info_region info_city].
  repeat split; apply orElse_absentOrText.
Qed.

Lemma getClientInfo_location_fields_witness :
  absentOrText (str "US") /\ absentOrText (str "US-CA") /\ absentOrText (str "Los Angeles").
Proof.
  exact (@getClientInfo_location_fields samplePlatform sampleDetectors defaultEnv
           sampleHeaders (ipPayload "203.0.113.5") None _ eq_refl).
Defined.



(** For instance, with the override header configured as ["x real ip"] and
    no address in the payload, the call raises at the first header lookup;
    with an address in the payload the headers are not asked and the call
    returns. *)
Example getClientInfo_bad_header_name :
  (exists msg,
     value (run (@getClientInfo samplePlatform sampleDetectors badNameEnv sampleHeaders
                   noPayload) None) = Throws msg)
  /\ (exists info,
        value (run (@getClientInfo samplePlatform sampleDetectors badNameEnv sampleHeaders
                      (ipPayload "203.0.113.5")) None) = Returns info).
Proof. split; eexists; reflexivity. Qed.

Section QuietAt.
Context {A B : Type}.
Variable h : option Reader.

Lemma quietAt_ret (Q : A -> Prop) a : Q a -> quietAt h (mret a) Q.
Proof. by intros Ha. Qed.

Lemma quietAt_bind (m : M A) (f : A -> M B) (Q : A -> Prop) (R : B -> Prop) :
  quietAt h m Q -> (forall a, Q a -> quietAt h (f a) R) -> quietAt h (m ≫= f) R.
Proof.
  intros (Hh & He & Hv) Hf. destruct (Hf _ Hv) as (Hh' & He' & Hv').
  unfold quietAt. rewrite value_bind, handle_bind, events_bind, forallb_app, Hh, He.
  by rewrite Hh', He'.
Qed.

End QuietAt.

Lemma quietAt_debug h env msg : quietAt h (debug env msg) (fun _ => True).
Proof.
  unfold quietAt. rewrite handle_debug, events_debug.
  by destruct (is_set (DEBUG_GEO env)).
Qed.

(** X28.  When the payload names no address and the headers yield none,
    [getClientInfo] reports the address [null] and does not go to the
    database: no file access, no opening, no lookup, and the handle is left
    as it was. *)
Theorem getClientInfo_no_address `{Platform} `{Detectors} env (headers : Headers)
    payload h :
  truthy (payload_ip payload) = false ->
  value (run (getIpAddress env headers) h) = None ->
  let o := run (getClientInfo env headers payload) h in
  handle o = h
  /\ forallb (fun e => negb (isDatabaseWork e)) (events o) = true
  /\ (forall info, value o = Returns info -> info_ip info = null).
Proof.
  intros Hip Hnone. cbv zeta. unfold run in *.
  change (quietAt h (getClientInfo env headers payload)
            (fun r => forall info, r = Returns info -> info_ip info = null)).
  unfold getClientInfo. rewrite Hip. cbv zeta.
  apply (quietAt_bind h _ _ (fun _ => True)).
  { by destruct (truthy (payload_userAgent payload)). }
  intros userAgent _.
  apply (quietAt_bind h _ _ (fun r => forall ip, r = Returns ip -> ip = null)).
  { apply (quietAt_bind h _ _ (fun r => forall v, r = Returns v -> v = None)).
    - unfold getIpAddressCall. cbv zeta.
      destruct (JS.nonempty _ && negb (isHeaderName _)).
      + apply (quietAt_bind h _ _ (fun _ => True)); [done|intros _ _].
        by apply quietAt_ret.
      + apply (quietAt_bind h _ _ (fun v => v = None)).
        * destruct (getIpAddress_quiet env headers) as [Hkeep Hquiet].
          split; [apply Hkeep|]. split; [|exact Hnone].
          apply (emits_weaken readOrLog _ (getIpAddress env headers)); [|exact Hquiet].
          by intros [ | | | | | | ].
        * intros v ->. apply quietAt_ret. by intros ? [= <-].
    - intros [v|e] Hv; apply quietAt_ret; [|done].
      intros ip [= <-]. by rewrite (Hv v eq_refl). }
  intros [ip|e] Hnull; [|by apply quietAt_ret].
  rewrite (Hnull ip eq_refl). cbn [getLocationAt].
  apply (quietAt_bind h _ _ (fun _ => True)); [apply quietAt_debug|intros _ _].
  apply (quietAt_bind h _ _ (fun _ => True)).
  { apply (quietAt_bind h _ _ (fun _ => True)); [apply quietAt_debug|intros _ _].
    by apply quietAt_ret. }
  intros location _.
  apply (quietAt_bind h _ _ (fun _ => True)); [apply quietAt_debug|intros _ _].
  destruct (if nullish (payload_device payload) then _ else _) as [device|e];
    apply quietAt_ret; [|done].
  by intros info [= <-].
Qed.

Lemma getClientInfo_no_address_witness :
  handle (run (@getClientInfo samplePlatform sampleDetectors defaultEnv ∅ noPayload) None)
  = None.
Proof.
  exact (proj1 (@getClientInfo_no_address samplePlatform sampleDetectors defaultEnv ∅
                  noPayload None eq_refl eq_refl)).
Defined.

(** ** The set-up script *)

Section Redirects.
Context `{Net}.
Variable credentials : option string.

(** Once redirected, no request carries credentials. *)
Lemma makeRequest_redirected responses url :
  Forall (fun r => authorization r = None)
    (fst (makeRequest credentials responses url true)).
Proof.
  revert url. induction responses as [|response rest IH]; intros url.
  - cbn [makeRequest]. destruct (parseURL url) as [[host p]|]; [|constructor].
    by repeat constructor.
  - cbn [makeRequest]. destruct (parseURL url) as [[host p]|]; [|constructor].
    destruct response as [message|statusCode statusMessage location body].
    { by repeat constructor. }
    destruct (isRedirectStatus statusCode).
    + destruct (is_set location); [|by repeat constructor].
      specialize (IH (default EmptyString location)).
      destruct (makeRequest credentials rest (default EmptyString location) true)
        as [requests outcome].
      cbn [fst] in *. by constructor.
    + destruct (negb (statusCode =? 200)); by repeat constructor.
Qed.

Lemma makeRequest_first responses url :
  Forall (fun r => authorization r = None)
    (tail (fst (makeRequest credentials responses url false))).
Proof.
  destruct responses as [|response rest].
  - cbn [makeRequest]. destruct (parseURL url) as [[host p]|]; constructor.
  - cbn [makeRequest]. destruct (parseURL url) as [[host p]|]; [|constructor].
    destruct response as [message|statusCode statusMessage location body].
    { constructor. }
    destruct (isRedirectStatus statusCode).
    + destruct (is_set location); [|constructor].
      pose proof (makeRequest_redirected rest (default EmptyString location)) as Hr.
      destruct (makeRequest credentials rest (default EmptyString location) true)
        as [requests outcome].
      exact Hr.
    + destruct (negb (statusCode =? 200)); constructor.
Qed.

(** The first request, when there is one, goes where the URL says and
    carries the credentials exactly when there are some. *)
Lemma makeRequest_head responses url r :
  head (fst (makeRequest credentials responses url false)) = Some r ->
  parseURL url = Some (hostname r, path r)
  /\ authorization r
     = if is_set credentials
       then Some ("Basic " +:+ base64 (default EmptyString credentials))
       else None.
Proof.
  destruct responses as [|response rest]; cbn [makeRequest];
    destruct (parseURL url) as [[host p]|]; try done.
  - by intros [= <-].
  - destruct response as [message|statusCode statusMessage location body].
    { by intros [= <-]. }
    destruct (isRedirectStatus statusCode).
    + destruct (is_set location); [|by intros [= <-]].
      destruct (makeRequest credentials rest (default EmptyString location) true)
        as [requests outcome].
      by intros [= <-].
    + destruct (negb (statusCode =? 200)); by intros [= <-].
Qed.

End Redirects.

(** X29.  While a download follows redirects, only its first request can
    carry the [Authorization] header: every request made for a redirect
    goes without it, whatever the network answers and however long the
    chain of redirects is. *)
Theorem makeRequest_credentials_on_first_request_only `{Net} credentials responses url
    isRedirect :
  let requests := fst (makeRequest credentials responses url isRedirect) in
  Forall (fun r => authorization r = None)
    (if isRedirect then requests else tail requests).
Proof.
  cbv zeta. destruct isRedirect;
    [apply makeRequest_redirected|apply makeRequest_first].
Qed.

(** X30.  Over a whole run of the set-up script, a request that carries
    credentials is the first one, is addressed to the MaxMind download URL,
    is made only when no custom [GEO_DATABASE_URL] is configured, and
    carries the account id and the licence key joined by a colon. *)
Theorem setupRequests_credentials `{Net} env responses (i : nat) r :
  setupRequests env responses !! i = Some r ->
  authorization r <> None ->
  i = 0%nat
  /\ is_set (GEO_DATABASE_URL env) = false
  /\ parseURL maxmindUrl = Some (hostname r, path r)
  /\ authorization r
     = Some ("Basic " +:+ base64 (default EmptyString (MAXMIND_ACCOUNT_ID env)
                                  +:+ ":" +:+
                                  default EmptyString (MAXMIND_LICENSE_KEY env))).
Proof.
  unfold setupRequests. intros Hr Hauth.
  destruct (chooseSource env) as [code console|url authCredentials console] eqn:Hsrc;
    [done|].
  assert (Hi : i = 0%nat).
  { destruct i as [|i]; [done|]. exfalso.
    pose proof (makeRequest_first authCredentials responses url) as Htail.
    destruct (fst (makeRequest authCredentials responses url false)) as [|r0 requests];
      [done|].
    cbn [tail] in Htail. cbn in Hr.
    rewrite Forall_lookup in Htail. by specialize (Htail i r Hr). }
  subst i. split; [done|].
  assert (Hhead : head (fst (makeRequest authCredentials responses url false)) = Some r).
  { by rewrite head_lookup. }
  destruct (makeRequest_head _ _ _ _ Hhead) as [Hurl Ha].
  unfold chooseSource in Hsrc.
  destruct (is_set (VERCEL env) && negb (is_set (BUILD_GEO env))); [done|].
  destruct (is_set (GEO_DATABASE_URL env)).
  { injection Hsrc as <- <- _. by rewrite Ha in Hauth. }
  destruct (is_set (MAXMIND_LICENSE_KEY env)).
  2:{ injection Hsrc as <- <- _. by rewrite Ha in Hauth. }
  destruct (negb (is_set (MAXMIND_ACCOUNT_ID env))); [done|].
  injection Hsrc as <- <- _. split; [done|]. split; [done|].
  rewrite Ha. cbn [default is_set].
  destruct (default EmptyString (MAXMIND_ACCOUNT_ID env)); reflexivity.
Qed.

Lemma setupRequests_credentials_witness :
  0%nat = 0%nat
  /\ is_set (GEO_DATABASE_URL maxmindEnv) = false
  /\ @parseURL sampleNet maxmindUrl
     = Some ("download.maxmind.com"%string,
             "/geoip/databases/GeoLite2-City/download?suffix=tar.gz"%string)
  /\ Some ("Basic 1234:secret"%string) = Some ("Basic 1234:secret"%string).
Proof.
  refine (@setupRequests_credentials sampleNet maxmindEnv
            [Answer 302 "Found" (Some "https://storage.example/GeoLite2-City.tar.gz") "";
             Answer 200 "OK" None "archive"]
            0 {| hostname := "download.maxmind.com";
                 path := "/geoip/databases/GeoLite2-City/download?suffix=tar.gz";
                 authorization := Some "Basic 1234:secret" |} eq_refl _).
  discriminate.
Defined.
